(** * tplink-safeloader: the SafeLoader image codec

    A shallow embedding of [src/tplink-safeloader.c] and the properties of
    its image builder, partition-table codec, variant detection,
    partition extraction, reproducibility clock and factory-to-sysupgrade
    converter.

    Conventions of the embedding.
    - A byte is a [Z] in [0, 256); a buffer ([uint8_t *] with its allocated
      length) and a C string (without its terminating NUL) are [list Z].
    - [uint32_t] and [size_t] values are [Z]; every conversion that the C
      code performs implicitly is written out ([wrap32], [wrap8], [wrap64]).
    - A NULL-terminated array of entries is the list of the entries that
      precede the terminator.
    - [exit(1)], a failed [assert] and undefined behaviour are the three
      ways a run does not return; they are the [Fail] outcomes. *)

From stdpp Require Import base numbers list strings.
From Stdlib Require Import ZArith Lia.

Local Open Scope Z_scope.

(** ** Outcomes of a run *)

Inductive failure : Type :=
| Exit (msg : string)        (* error(1, ...): message on stderr, exit status 1 *)
| Assertion (cond : string)  (* assert(cond) failed *)
| Undefined (what : string). (* out-of-bounds access, NULL dereference *)

Inductive outcome (A : Type) : Type :=
| Done (a : A)
| Fail (f : failure).
Arguments Done {A} a.
Arguments Fail {A} f.

#[global] Instance outcome_ret : MRet outcome := λ A a, Done a.
#[global] Instance outcome_bind : MBind outcome := λ A B k m,
  match m with Done a => k a | Fail f => Fail f end.

Definition is_done {A} (m : outcome A) : bool :=
  match m with Done _ => true | Fail _ => false end.

(** ** Machine integers and bytes *)

Definition wrap8 (x : Z) : Z := x `mod` 256.
Definition wrap32 (x : Z) : Z := x `mod` 2 ^ 32.
Definition wrap64 (x : Z) : Z := x `mod` 2 ^ 64.

Definition is_byte (b : Z) : Prop := 0 ≤ b < 256.

(** The bytes of a string literal. *)
Definition cstr (s : string) : list Z :=
  (λ c, Z.of_N (Ascii.N_of_ascii c)) <$> String.list_ascii_of_string s.

(** [ALIGN(x,a)] for [a] a power of two: [((x) + a - 1) & ~(a - 1)]. *)
Definition ALIGN (x a : Z) : Z := Z.land (x + a - 1) (Z.lnot (a - 1)).

Definition MAX_PARTITIONS : Z := 32.

Definition SAFELOADER_PREAMBLE_SIZE : Z := 0x14.
Definition SAFELOADER_HEADER_SIZE : Z := 0x1000.
Definition SAFELOADER_PAYLOAD_OFFSET : Z :=
  SAFELOADER_PREAMBLE_SIZE + SAFELOADER_HEADER_SIZE.
Definition SAFELOADER_QNEW_HEADER_SIZE : Z := 0x3C.
Definition SAFELOADER_QNEW_PAYLOAD_OFFSET : Z :=
  SAFELOADER_PREAMBLE_SIZE + SAFELOADER_QNEW_HEADER_SIZE + SAFELOADER_HEADER_SIZE.
Definition SAFELOADER_PAYLOAD_TABLE_SIZE : Z := 0x800.

Definition jffs2_eof_mark : list Z := [0xde; 0xad; 0xc0; 0xde].

Definition md5_salt : list Z :=
  [0x7a; 0x2b; 0x15; 0xed; 0x9b; 0x98; 0x59; 0x6d;
   0xe5; 0x04; 0xab; 0x44; 0xac; 0x2a; 0x9f; 0x4e].

(** ** Data model *)

(** [struct image_partition_entry].  Every entry in the program is made by
    [alloc_image_partition], [init_meta_partition_entry] or
    [safeloader_read_partition], which set [size] to the length of the
    allocation behind [data]; the embedding keeps the buffer and derives
    [size] from it. *)
Record image_partition_entry : Type := {
  ip_name : list Z;
  ip_data : list Z;
}.

Definition ip_size (e : image_partition_entry) : Z := Z.of_nat (length (ip_data e)).

(** [struct flash_partition_entry]; [base] and [size] are [uint32_t]. *)
Record flash_partition_entry : Type := {
  fp_name : list Z;
  fp_base : Z;
  fp_size : Z;
}.

(** [struct factory_partition_names]; [None] is a NULL pointer. *)
Record factory_partition_names : Type := {
  partition_table : option (list Z);
  soft_ver : option (list Z);
  os_image : option (list Z);
  support_list_name : option (list Z);
  file_system : option (list Z);
  extra_para : option (list Z);
}.

(** [enum partition_trail_value] is kept as the integer it is. *)
Definition PART_TRAIL_00 : Z := 0x00.
Definition PART_TRAIL_FF : Z := 0xff.
Definition PART_TRAIL_MAX : Z := 0xff.
Definition PART_TRAIL_NONE : Z := 0x100.

(** The [soft_ver] member of [struct device_info]. *)
Inductive soft_ver_spec : Type :=
| SOFT_VER_NUMERIC (major minor patch : Z)
| SOFT_VER_TEXT (text : list Z).

(** [struct device_info]. *)
Record device_info : Type := {
  id : list Z;
  vendor : option (list Z);
  support_list : list Z;
  part_trail : Z;
  soft_version_spec : soft_ver_spec;
  soft_ver_compat_level : Z;
  partitions : list flash_partition_entry;
  first_sysupgrade_partition : list Z;
  last_sysupgrade_partition : list Z;
  partition_names : factory_partition_names;
}.

(** ** Memory *)

(** [strcmp(a, b) == 0]. *)
Definition streq (a b : list Z) : bool := bool_decide (a = b).

(** [memcpy(buf + off, data, len)] with [len] the length of [data]; writing
    past the allocation is undefined. *)
Definition memcpy (off : nat) (data buf : list Z) : outcome (list Z) :=
  if decide (off + length data ≤ length buf)%nat
  then Done (take off buf ++ data ++ drop (off + length data) buf)
  else Fail (Undefined "write past the end of the buffer").

(** [memset(buf + off, c, n)]. *)
Definition memset (off : nat) (c : Z) (n : nat) (buf : list Z) : outcome (list Z) :=
  memcpy off (replicate n c) buf.

(** Big-endian bytes of a [uint32_t]: what [put32] stores, and what
    [htonl] leaves in memory. *)
Definition be32 (val : Z) : list Z :=
  [wrap8 (val ≫ 24); wrap8 (val ≫ 16); wrap8 (val ≫ 8); wrap8 val].

(** [put32(buf + off, val)]; the parameter is a [uint32_t]. *)
Definition put32 (off : nat) (val : Z) (buf : list Z) : outcome (list Z) :=
  memcpy off (be32 (wrap32 val)) buf.

(** Reads a big-endian [uint32_t] from memory: [ntohl] of the word at [p]. *)
Definition get32 (p : list Z) : Z :=
  match p with
  | b0 :: b1 :: b2 :: b3 :: _ => ((b0 * 256 + b1) * 256 + b2) * 256 + b3
  | _ => 0
  end.

(** The trailer that a [part_trail] policy asks for: the pad byte itself
    when the policy is a value in [0x00, 0xFF], nothing otherwise. *)
Definition trailer (pv : Z) : list Z :=
  if bool_decide (0 ≤ pv ≤ 0xFF) then [pv] else [].

Section Build.

(** The indeterminate contents of freshly allocated memory, by offset. *)
Variable uninit : nat → Z.

Definition malloc (n : Z) : list Z := uninit <$> seq 0 (Z.to_nat n).

(** ** Meta partitions *)

Definition meta_partition_should_pad (pv : Z) : bool :=
  (0 <=? pv) && (pv <=? PART_TRAIL_MAX).

(** [data_len] is the [uint32_t] parameter; [data] is the object behind
    the pointer, of which the first [data_len] bytes are copied. *)
Definition init_meta_partition_entry (name : list Z) (data : list Z)
    (data_len : Z) (pad_value : Z) : outcome image_partition_entry :=
  let total_len := wrap32 (8 + data_len) in
  let total_len :=
    if meta_partition_should_pad pad_value then wrap32 (total_len + 1) else total_len in
  let buf := malloc total_len in
  (* header->length = htonl(data_len); header->zero = 0; *)
  buf ← memcpy 0 (be32 data_len) buf;
  buf ← memcpy 4 [0; 0; 0; 0] buf;
  buf ← (if decide (Z.to_nat data_len ≤ length data)%nat
         then memcpy 8 (take (Z.to_nat data_len) data) buf
         else Fail (Undefined "read past the end of the data"));
  buf ← (if meta_partition_should_pad pad_value
         then memcpy (Z.to_nat (total_len - 1)) [wrap8 pad_value] buf
         else Done buf);
  Done {| ip_name := name; ip_data := buf |}.

(** [alloc_image_partition]. *)
Definition alloc_image_partition (name : list Z) (len : Z) : image_partition_entry :=
  {| ip_name := name; ip_data := malloc len |}.

(** ** Formatted output *)

(** Lower-case hexadecimal digit of a nibble. *)
Definition hex_digit (d : Z) : Z := if d <? 10 then 48 + d else 87 + d.

(** The hexadecimal digits of [n], most significant first, no leading
    zero; eight digits are enough for an [unsigned]. *)
Fixpoint hex_digits (fuel : nat) (n : Z) : list Z :=
  match fuel with
  | O => []
  | S fuel =>
      (if n <? 16 then [] else hex_digits fuel (n / 16)) ++ [hex_digit (n `mod` 16)]
  end.

(** [%05x] applied to an [unsigned]. *)
Definition fmt_05x (v : Z) : list Z :=
  let ds := hex_digits 8 (wrap32 v) in
  replicate (5 - length ds) 48 ++ ds.

(** ["fwup-ptn %s base 0x%05x size 0x%05x\t\r\n"] *)
Definition fwup_ptn_line (name : list Z) (base size : Z) : list Z :=
  cstr "fwup-ptn " ++ name ++ cstr " base 0x" ++ fmt_05x base
  ++ cstr " size 0x" ++ fmt_05x size ++ [9; 13; 10].

(** ["partition %s base 0x%05x size 0x%05x\n"] *)
Definition partition_line (name : list Z) (base size : Z) : list Z :=
  cstr "partition " ++ name ++ cstr " base 0x" ++ fmt_05x base
  ++ cstr " size 0x" ++ fmt_05x size ++ [10].

#[global] Arguments fwup_ptn_line : simpl never.
#[global] Arguments partition_line : simpl never.

(** [snprintf(buf + off, len, ...)] where [text] is the complete formatted
    output: at most [len - 1] of its bytes are stored, then a NUL; the
    return value is the length of [text]. *)
Definition snprintf (off : nat) (len : Z) (text : list Z) (buf : list Z)
    : outcome (list Z * Z) :=
  buf ← (if len =? 0 then Done buf
         else memcpy off (take (Z.to_nat (len - 1)) text ++ [0]) buf);
  Done (buf, Z.of_nat (length text)).

(** ** Partition names *)

(** The names in force after [set_partition_names]: every pointer of
    [struct factory_partition_names] is then non-NULL. *)
Record partition_names_set : Type := {
  n_partition_table : list Z;
  n_soft_ver : list Z;
  n_os_image : list Z;
  n_support_list : list Z;
  n_file_system : list Z;
  n_extra_para : list Z;
}.

Definition set_partition_names (info : device_info) : partition_names_set :=
  let n := partition_names info in
  {| n_partition_table := default (cstr "partition-table") (partition_table n);
     n_soft_ver := default (cstr "soft-version") (soft_ver n);
     n_os_image := default (cstr "os-image") (os_image n);
     n_support_list := default (cstr "support-list") (support_list_name n);
     n_file_system := default (cstr "file-system") (file_system n);
     n_extra_para := default (cstr "extra-para") (extra_para n) |}.

(** ** The partition-table partition *)

(** The loop of [make_partition_table]; [s] is the write position. *)
Fixpoint make_partition_table_lines (ps : list flash_partition_entry) (s : Z)
    (buf : list Z) : outcome (list Z * Z) :=
  match ps with
  | [] => Done (buf, s)
  | p :: ps =>
      let len := SAFELOADER_PAYLOAD_TABLE_SIZE - s in
      '(buf, w) ← snprintf (Z.to_nat s) len
                    (partition_line (fp_name p) (fp_base p) (fp_size p)) buf;
      if wrap64 (len - 1) <? w
      then Fail (Exit "flash partition table overflow?")
      else make_partition_table_lines ps (s + w) buf
  end.

Definition make_partition_table (names : partition_names_set) (p : device_info)
    : outcome image_partition_entry :=
  let entry := alloc_image_partition (n_partition_table names) SAFELOADER_PAYLOAD_TABLE_SIZE in
  buf ← memcpy 0 [0x00; 0x04; 0x00; 0x00] (ip_data entry);
  '(buf, s) ← make_partition_table_lines (partitions p) 4 buf;
  let s := s + 1 in
  buf ← memset (Z.to_nat s) 0xff (Z.to_nat (SAFELOADER_PAYLOAD_TABLE_SIZE - s)) buf;
  Done {| ip_name := ip_name entry; ip_data := buf |}.

(** ** The soft-version partition *)

(** [bcd]: parameter and result are [uint8_t]. *)
Definition bcd (v : Z) : Z :=
  let v := wrap8 v in wrap8 (0x10 * (v / 10) + v `mod` 10).

(** The members of [struct tm] that the program reads. *)
Record tm : Type := { tm_year : Z; tm_mon : Z; tm_mday : Z }.

(** [gmtime] of the C library; [None] is a NULL result. *)
Variable gmtime : Z → option tm.

(** [source_date_epoch] is the static variable, [-1] when no override is
    in force; [now] is what [time()] returns. *)
Definition make_soft_version (names : partition_names_set) (info : device_info)
    (rev : Z) (source_date_epoch now : Z) : outcome image_partition_entry :=
  match soft_version_spec info with
  | SOFT_VER_TEXT text =>
      let len := wrap32 (Z.of_nat (length text) + 1) in
      init_meta_partition_entry (n_soft_ver names) (text ++ [0]) len (part_trail info)
  | SOFT_VER_NUMERIC major minor patch =>
      t ← (if negb (source_date_epoch =? -1) then Done source_date_epoch
           else if now =? -1 then Fail (Exit "time") else Done now);
      match gmtime t with
      | None => Fail (Undefined "gmtime returned NULL")
      | Some tm =>
          let s :=
            [0xff; wrap8 major; wrap8 minor; wrap8 patch;
             bcd ((1900 + tm_year tm) `quot` 100);
             bcd (tm_year tm `rem` 100);
             bcd (tm_mon tm + 1);
             bcd (tm_mday tm)]
            ++ be32 (wrap32 rev) ++ be32 (wrap32 (soft_ver_compat_level info)) in
          if soft_ver_compat_level info =? 0
          then init_meta_partition_entry (n_soft_ver names) s 12 (part_trail info)
          else init_meta_partition_entry (n_soft_ver names) s 16 (part_trail info)
      end
  end.

Definition make_support_list (names : partition_names_set) (info : device_info)
    : outcome image_partition_entry :=
  let len := wrap32 (Z.of_nat (length (support_list info))) in
  init_meta_partition_entry (n_support_list names) (support_list info) len (part_trail info).

Definition make_extra_para (names : partition_names_set) (info : device_info)
    (extra_para : list Z) (len : Z) : outcome image_partition_entry :=
  init_meta_partition_entry (n_extra_para names) extra_para (wrap32 len) (part_trail info).

(** ** Files *)

(** [read_file]: [file] is the content of the file named [filename], so
    [statbuf.st_size] is its length.  [fread] of one item of size zero
    returns 0, which the code takes for a read error. *)
Definition read_file (part_name : list Z) (file : list Z) (add_jffs2_eof : bool)
    (file_system_partition : option flash_partition_entry)
    : outcome image_partition_entry :=
  let st_size := Z.of_nat (length file) in
  let len :=
    if add_jffs2_eof then
      match file_system_partition with
      | Some fsp => ALIGN (st_size + fp_base fsp) 0x10000 + 4 - fp_base fsp
      | None => ALIGN st_size 0x10000 + 4
      end
    else st_size in
  let entry := alloc_image_partition part_name len in
  buf ← (if st_size =? 0 then Fail (Exit "unable to read file")
         else memcpy 0 file (ip_data entry));
  buf ← (if add_jffs2_eof then
           buf ← memset (Z.to_nat st_size) 0xff (Z.to_nat (len - st_size - 4)) buf;
           memcpy (Z.to_nat (len - 4)) jffs2_eof_mark buf
         else Done buf);
  Done {| ip_name := part_name; ip_data := buf |}.

(** ** The image partition table and the factory image *)

(** The first flash partition of a given name: the inner loop of
    [put_partitions]. *)
Definition find_flash_partition (name : list Z) (flash_parts : list flash_partition_entry)
    : option flash_partition_entry :=
  snd <$> list_find (λ fp, fp_name fp = name) flash_parts.

(** The first image partition of a given name. *)
Definition find_image_partition (name : list Z) (parts : list image_partition_entry)
    : option image_partition_entry :=
  snd <$> list_find (λ ip, ip_name ip = name) parts.

(** The loop of [put_partitions]: [image_pt] is the write position in the
    table, [base] where the next partition goes; both are offsets into
    [buffer]. *)
Fixpoint put_partitions_loop (flash_parts : list flash_partition_entry)
    (parts : list image_partition_entry) (image_pt base : Z) (buffer : list Z)
    : outcome (list Z) :=
  match parts with
  | [] => Done buffer
  | part :: parts =>
      _ ← match find_flash_partition (ip_name part) flash_parts with
          | Some fp =>
              if fp_size fp <? ip_size part
              then Fail (Exit "partition too big")
              else Done ()
          | None => Fail (Assertion "flash_parts[j].name")
          end;
      buffer ← memcpy (Z.to_nat base) (ip_data part) buffer;
      let len := SAFELOADER_PAYLOAD_TABLE_SIZE - image_pt in
      '(buffer, w) ← snprintf (Z.to_nat image_pt) len
                       (fwup_ptn_line (ip_name part) base (ip_size part)) buffer;
      if wrap64 (len - 1) <? w
      then Fail (Exit "image partition table overflow?")
      else put_partitions_loop flash_parts parts (image_pt + w) (base + ip_size part) buffer
  end.

Definition put_partitions (buffer : list Z) (flash_parts : list flash_partition_entry)
    (parts : list image_partition_entry) : outcome (list Z) :=
  put_partitions_loop flash_parts parts 0 SAFELOADER_PAYLOAD_TABLE_SIZE buffer.

(** Modelled from the spec: [md5.h] and its implementation are not under
    [src/].  The digest is a parameter; a context is the sequence of bytes
    absorbed so far, and the digest of a context is the digest of that
    sequence (4.1: a standard MD5 over the concatenation). *)
Variable MD5 : list Z → list Z.

Definition MD5_Init : list Z := [].
(** [MD5_Update(&ctx, data, len)] absorbs the first [len] bytes at [data]. *)
Definition MD5_Update (ctx data : list Z) (len : Z) : list Z :=
  ctx ++ take (Z.to_nat len) data.
Definition MD5_Final (ctx : list Z) : list Z := MD5 ctx.

(** [put_md5]: the 16 bytes stored at [md5].  The parameter [len] is an
    [unsigned int]: the caller's [size_t] is reduced modulo [2^32]. *)
Definition put_md5 (buffer : list Z) (len : Z) : list Z :=
  let len := wrap32 len in
  let ctx := MD5_Init in
  let ctx := MD5_Update ctx md5_salt (Z.of_nat (length md5_salt)) in
  let ctx := MD5_Update ctx buffer len in
  MD5_Final ctx.

(** Sum of the sizes of the partitions: the first loop of
    [generate_factory_image]. *)
Definition parts_size (parts : list image_partition_entry) : Z :=
  foldr (λ p acc, ip_size p + acc) 0 parts.

(** Runs [f] on the part of a buffer that starts at [off]: a callee that
    is handed [buf + off]. *)
Definition at_offset (off : Z) (f : list Z → outcome (list Z)) (buf : list Z)
    : outcome (list Z) :=
  if decide (Z.to_nat off ≤ length buf)%nat then
    tail ← f (drop (Z.to_nat off) buf);
    Done (take (Z.to_nat off) buf ++ tail)
  else Fail (Undefined "pointer past the end of the buffer").

Definition generate_factory_image (info : device_info)
    (parts : list image_partition_entry) : outcome (list Z) :=
  let len := SAFELOADER_PAYLOAD_OFFSET + SAFELOADER_PAYLOAD_TABLE_SIZE + parts_size parts in
  let image := malloc len in
  image ← memset 0 0xff (Z.to_nat len) image;
  image ← put32 0 len image;
  image ← match vendor info with
          | Some v =>
              let vendor_len := Z.of_nat (length v) in
              image ← put32 (Z.to_nat SAFELOADER_PREAMBLE_SIZE) vendor_len image;
              memcpy (Z.to_nat (SAFELOADER_PREAMBLE_SIZE + 0x4)) v image
          | None => Done image
          end;
  image ← at_offset SAFELOADER_PAYLOAD_OFFSET
            (λ buffer, put_partitions buffer (partitions info) parts) image;
  memcpy 0x04 (put_md5 (drop (Z.to_nat SAFELOADER_PREAMBLE_SIZE) image)
                 (len - SAFELOADER_PREAMBLE_SIZE)) image.

(** ** The sysupgrade image *)

(** The first loop of [generate_sysupgrade_image]: the last partition
    named [first], and the last one named [last] among those not named
    [first], each with its index. *)
Fixpoint find_first_last (first last : list Z) (ps : list flash_partition_entry)
    (i : nat) (acc : option (nat * flash_partition_entry) * option (nat * flash_partition_entry))
    : option (nat * flash_partition_entry) * option (nat * flash_partition_entry) :=
  match ps with
  | [] => acc
  | p :: ps =>
      if streq (fp_name p) first
      then find_first_last first last ps (S i) (Some (i, p), acc.2)
      else if streq (fp_name p) last
      then find_first_last first last ps (S i) (acc.1, Some (i, p))
      else find_first_last first last ps (S i) acc
  end.

(** [memcpy] to a destination computed by pointer arithmetic. *)
Definition memcpy_to (off : Z) (data buf : list Z) : outcome (list Z) :=
  if off <? 0 then Fail (Undefined "write before the start of the buffer")
  else memcpy (Z.to_nat off) data buf.

(** The copy loop of [generate_sysupgrade_image] over the flash
    partitions [flash_first_partition_index .. flash_last_partition_index]. *)
Fixpoint sysupgrade_copy (range : list flash_partition_entry) (first_base : Z)
    (image_parts : list image_partition_entry) (image : list Z) : outcome (list Z) :=
  match range with
  | [] => Done image
  | fp :: range =>
      image ← match find_image_partition (fp_name fp) image_parts with
              | Some ip =>
                  if fp_size fp <? ip_size ip
                  then Fail (Exit "partition too big")
                  else memcpy_to (fp_base fp - first_base) (ip_data ip) image
              | None => Done image
              end;
      sysupgrade_copy range first_base image_parts image
  end.

Definition generate_sysupgrade_image (info : device_info)
    (image_parts : list image_partition_entry) : outcome (list Z) :=
  match find_first_last (first_sysupgrade_partition info) (last_sysupgrade_partition info)
          (partitions info) 0 (None, None) with
  | (Some (first_index, flash_first), Some (last_index, flash_last)) =>
      if negb (bool_decide (first_index < last_index)%nat)
      then Fail (Assertion "flash_first_partition_index < flash_last_partition_index")
      else
        match find_image_partition (last_sysupgrade_partition info) image_parts with
        | None => Fail (Assertion "image_last_partition")
        | Some image_last =>
            let len := wrap32 (fp_base flash_last - fp_base flash_first) + ip_size image_last in
            let image := malloc len in
            image ← memset 0 0xff (Z.to_nat len) image;
            sysupgrade_copy
              (take (S last_index - first_index) (drop first_index (partitions info)))
              (fp_base flash_first) image_parts image
        end
  | _ => Fail (Assertion "flash_first_partition && flash_last_partition")
  end.

(** ** The builder *)

(** Index of the last flash partition named ["firmware"]: the search loop
    of [build_image]. *)
Fixpoint find_firmware (ps : list flash_partition_entry) (i : nat) (acc : option nat)
    : option nat :=
  match ps with
  | [] => acc
  | p :: ps =>
      find_firmware ps (S i) (if streq (fp_name p) (cstr "firmware") then Some i else acc)
  end.

(** The split of the firmware partition in [build_image].  The array has
    [MAX_PARTITIONS + 1] slots; with all [MAX_PARTITIONS] in use the shift
    overwrites the terminator. *)
Definition split_firmware (names : partition_names_set) (sysupgrade : bool)
    (kernel_size : Z) (ps : list flash_partition_entry)
    : outcome (list flash_partition_entry * option flash_partition_entry) :=
  match find_firmware ps 0 None with
  | None => Done (ps, None)
  | Some firmware_partition_index =>
      match ps !! firmware_partition_index with
      | None => Fail (Undefined "index out of range")
      | Some firmware =>
          if fp_size firmware <? kernel_size
          then Fail (Exit "kernel overflowed firmware partition")
          else if negb (Z.of_nat (length ps) <? MAX_PARTITIONS)
          then Fail (Undefined "partition array terminator overwritten")
          else
            let base := wrap32 (fp_base firmware + kernel_size) in
            let base :=
              if negb sysupgrade
              then wrap32 (ALIGN (fp_base firmware + kernel_size) 0x10000)
              else base in
            let file_system_partition :=
              {| fp_name := n_file_system names;
                 fp_base := base;
                 fp_size := wrap32 (fp_size firmware - base) |} in
            let os_image_partition :=
              {| fp_name := n_os_image names;
                 fp_base := fp_base firmware;
                 fp_size := wrap32 kernel_size |} in
            Done (take firmware_partition_index ps
                  ++ [os_image_partition; file_system_partition]
                  ++ drop (S firmware_partition_index) ps,
                  Some file_system_partition)
      end
  end.

(** [strcasecmp(a, b) == 0]. *)
Definition tolower (c : Z) : Z := if (65 <=? c) && (c <=? 90) then c + 32 else c.
Definition strcaseeq (a b : list Z) : bool :=
  bool_decide (tolower <$> a = tolower <$> b).

(** The devices that need an extra-para partition, and its two bytes. *)
Definition extra_para_for (id : list Z) : option (list Z) :=
  if existsb (λ s, strcaseeq id (cstr s))
       ["ARCHER-A6-V3"; "ARCHER-A7-V5"; "ARCHER-A9-V6"; "ARCHER-AX23-V1";
        "ARCHER-C2-V3"; "ARCHER-C7-V4"; "ARCHER-C7-V5"; "ARCHER-C25-V1";
        "ARCHER-C59-V2"; "ARCHER-C60-V2"; "ARCHER-C60-V3"; "ARCHER-C6U-V1";
        "ARCHER-C6-V3"; "DECO-M4R-V4"; "MR70X"; "TLWR1043NV5"]%string
  then Some [0x01; 0x00]
  else if existsb (λ s, strcaseeq id (cstr s)) ["ARCHER-C6-V2"; "TL-WA1201-V2"]%string
  then Some [0x00; 0x01]
  else if existsb (λ s, strcaseeq id (cstr s)) ["ARCHER-C6-V2-US"; "EAP245-V3"]%string
  then Some [0x01; 0x01]
  else None.

(** [info] after the split: the only member that [build_image] changes,
    besides the names, is the partition array. *)
Definition with_partitions (info : device_info) (ps : list flash_partition_entry)
    : device_info :=
  {| id := id info; vendor := vendor info; support_list := support_list info;
     part_trail := part_trail info; soft_version_spec := soft_version_spec info;
     soft_ver_compat_level := soft_ver_compat_level info;
     partitions := ps;
     first_sysupgrade_partition := first_sysupgrade_partition info;
     last_sysupgrade_partition := last_sysupgrade_partition info;
     partition_names := partition_names info |}.

(** The first part of [build_image], up to the choice of the image
    format: [kernel_image] and [rootfs_image] are the contents of the two
    input files; the result is [info] as the split leaves it and the
    array [parts]. *)
Definition build_partitions (kernel_image rootfs_image : list Z) (rev : Z)
    (add_jffs2_eof sysupgrade : bool) (source_date_epoch now : Z)
    (info : device_info) : outcome (device_info * list image_partition_entry) :=
  let names := set_partition_names info in
  '(ps, file_system_partition) ←
     split_firmware names sysupgrade (Z.of_nat (length kernel_image)) (partitions info);
  let info := with_partitions info ps in
  p0 ← make_partition_table names info;
  p1 ← make_soft_version names info rev source_date_epoch now;
  p2 ← make_support_list names info;
  p3 ← read_file (n_os_image names) kernel_image false None;
  p4 ← read_file (n_file_system names) rootfs_image add_jffs2_eof file_system_partition;
  p5 ← match extra_para_for (id info) with
       | Some extra_para => p ← make_extra_para names info extra_para 2; Done [p]
       | None => Done []
       end;
  Done (info, [p0; p1; p2; p3; p4] ++ p5).

(** [build_image]: the result is the content of the output file;
    [fwrite] of one item of size zero returns 0, which the code takes for
    a write error. *)
Definition build_image (kernel_image rootfs_image : list Z) (rev : Z)
    (add_jffs2_eof sysupgrade : bool) (source_date_epoch now : Z)
    (info : device_info) : outcome (list Z) :=
  '(info, parts) ← build_partitions kernel_image rootfs_image rev add_jffs2_eof
                     sysupgrade source_date_epoch now info;
  image ← (if sysupgrade then generate_sysupgrade_image info parts
           else generate_factory_image info parts);
  if Z.of_nat (length image) =? 0
  then Fail (Exit "unable to write output file")
  else Done image.

End Build.

(** ** Reading partition tables *)

Definition ULONG_MAX : Z := 2 ^ 64 - 1.

Definition isspace (c : Z) : bool := (c =? 32) || ((9 <=? c) && (c <=? 13)).

Fixpoint skip_spaces (s : list Z) : list Z :=
  match s with
  | c :: s' => if isspace c then skip_spaces s' else s
  | [] => []
  end.

(** The value of a digit or letter in [strtoul]. *)
Definition digit_value (c : Z) : option Z :=
  if (48 <=? c) && (c <=? 57) then Some (c - 48)
  else if (97 <=? c) && (c <=? 122) then Some (c - 87)
  else if (65 <=? c) && (c <=? 90) then Some (c - 55)
  else None.

(** Accumulates the digits at the head of [s]; the flag records an
    [unsigned long] overflow. *)
Fixpoint strtoul_digits (base : Z) (s : list Z) (acc : Z) (overflow : bool) : Z * bool :=
  match s with
  | [] => (acc, overflow)
  | c :: s' =>
      match digit_value c with
      | Some d =>
          if d <? base
          then let acc' := acc * base + d in
               if ULONG_MAX <? acc'
               then strtoul_digits base s' ULONG_MAX true
               else strtoul_digits base s' acc' overflow
          else (acc, overflow)
      | None => (acc, overflow)
      end
  end.

(** [strtoul(s, NULL, base)] of the C library, for [base] 10 or 16 and a
    64-bit [unsigned long]; [s] is the memory from the pointer on, in
    which the string ends at the first NUL. *)
Definition strtoul (s : list Z) (base : Z) : Z :=
  let s := skip_spaces s in
  let '(neg, s) :=
    match s with
    | 45 :: s' => (true, s')
    | 43 :: s' => (false, s')
    | _ => (false, s)
    end in
  let s :=
    if base =? 16 then
      match s with
      | 48 :: x :: s' => if (x =? 120) || (x =? 88) then s' else s
      | _ => s
      end
    else s in
  let '(v, overflow) := strtoul_digits base s 0 false in
  if overflow then ULONG_MAX else if neg then wrap64 (- v) else v.

(** [memchr(s, c, n)]: the offset of the first [c] among the first [n]
    bytes of [s]. *)
Definition memchr (s : list Z) (c : Z) (n : nat) : option nat :=
  fst <$> list_find (λ x, x = c) (take n s).

(** The string in a [char] array: the bytes before the first NUL. *)
Fixpoint strz (s : list Z) : list Z :=
  match s with
  | c :: s' => if c =? 0 then [] else c :: strz s'
  | [] => []
  end.

(** [add_flash_partition]: the table is the list of the slots in use; the
    [unsigned long] values are stored in [uint32_t] members. *)
Definition add_flash_partition (part_list : list flash_partition_entry)
    (max_entries : Z) (name : list Z) (base size : Z)
    : outcome (list flash_partition_entry) :=
  if negb (Z.of_nat (length part_list) <? max_entries)
  then Fail (Exit "No free flash part entry available.")
  else Done (part_list ++ [{| fp_name := name; fp_base := wrap32 base; fp_size := wrap32 size |}]).

Inductive PARTITION_TABLE_TYPE : Type :=
| PARTITION_TABLE_FWUP
| PARTITION_TABLE_FLASH.

Definition parthdr_of (type : PARTITION_TABLE_TYPE) : list Z :=
  match type with
  | PARTITION_TABLE_FWUP => cstr "fwup-ptn"
  | PARTITION_TABLE_FLASH => cstr "partition"
  end.

(** The state of the [for] loop of [read_partition_table]: [ptr] is the
    memory from the pointer to the end of the buffer, [to_end_part] is
    [end_part - ptr]. *)
Record line_state : Type := {
  ls_ptr : list Z;
  ls_to_end_part : nat;
  ls_name : list Z;
  ls_base : Z;
  ls_entries : list flash_partition_entry;
}.

(** The iterations [i, i+1, ...] of the [for] loop over the elements of
    one line. *)
Fixpoint read_elements (steps : list nat) (max_entries : Z) (st : line_state)
    : outcome line_state :=
  match steps with
  | [] => Done st
  | i :: steps =>
      if bool_decide (ls_to_end_part st = 0%nat) then Done st (* break *)
      else
        match memchr (ls_ptr st) 0x20 (ls_to_end_part st) with
        | None => Fail (Exit "Ignoring the rest of the partition entries.")
        | Some k => (* end_element = ptr + k *)
            let next := drop (S k) (ls_ptr st) in
            let left := (ls_to_end_part st - S k)%nat in
            match i with
            | 1%nat =>
                let name_len := if bool_decide (31 < k)%nat then 31%nat else k in
                read_elements steps max_entries
                  {| ls_ptr := next; ls_to_end_part := left;
                     ls_name := strz (take name_len (ls_ptr st));
                     ls_base := ls_base st; ls_entries := ls_entries st |}
            | 3%nat =>
                read_elements steps max_entries
                  {| ls_ptr := next; ls_to_end_part := left; ls_name := ls_name st;
                     ls_base := strtoul (ls_ptr st) 16; ls_entries := ls_entries st |}
            | 4%nat =>
                let size := strtoul next 16 in
                entries ← add_flash_partition (ls_entries st) max_entries
                            (ls_name st) (ls_base st) size;
                read_elements steps max_entries
                  {| ls_ptr := drop (S (ls_to_end_part st)) (ls_ptr st); ls_to_end_part := 0;
                     ls_name := ls_name st; ls_base := ls_base st; ls_entries := entries |}
            | _ =>
                read_elements steps max_entries
                  {| ls_ptr := next; ls_to_end_part := left; ls_name := ls_name st;
                     ls_base := ls_base st; ls_entries := ls_entries st |}
            end
        end
  end.

(** The [while] loop of [read_partition_table].  Every iteration that
    does not leave the loop moves [ptr] forward, so a fuel of the length
    of the buffer is never used up (see [read_lines_fuel]). *)
Fixpoint read_lines (fuel : nat) (parthdr : list Z) (max_entries : Z) (ptr : list Z)
    (entries : list flash_partition_entry) : outcome (list flash_partition_entry) :=
  match fuel with
  | O => Fail (Undefined "fuel")
  | S fuel =>
      if bool_decide (length parthdr < length ptr)%nat
         && bool_decide (take (length parthdr) ptr = parthdr)
      then
        match memchr ptr 10 (length ptr) with
        | None => Done entries (* break *)
        | Some n =>
            st ← read_elements [0; 1; 2; 3; 4]%nat max_entries
                   {| ls_ptr := ptr; ls_to_end_part := n; ls_name := []; ls_base := 0;
                      ls_entries := entries |};
            read_lines fuel parthdr max_entries (ls_ptr st) (ls_entries st)
        end
      else Done entries
  end.

(** [fseek(file, offset, SEEK_SET)] followed by [fread(buf, n, 1, file)]:
    the [n] bytes at [offset], if the file has them. *)
Definition fread_at (file : list Z) (offset : Z) (n : nat) : option (list Z) :=
  if offset <? 0 then None else sublist_lookup (Z.to_nat offset) n file.

(** [read_partition_table]: the result is the return value (1 when the
    table does not start with the keyword) and the table.  [fseek] to a
    negative offset fails; a seek past the end succeeds and the read
    after it fails. *)
Definition read_partition_table (file : list Z) (offset : Z)
    (entries : list flash_partition_entry) (max_entries : Z)
    (type : PARTITION_TABLE_TYPE) : outcome (Z * list flash_partition_entry) :=
  let parthdr := parthdr_of type in
  if offset <? 0 then Fail (Exit "Can not seek in the firmware")
  else
    match fread_at file offset (Z.to_nat SAFELOADER_PAYLOAD_TABLE_SIZE) with
    | None => Fail (Exit "Can not read fwup-ptn from the firmware")
    | Some buf =>
        let buf := <[Z.to_nat (SAFELOADER_PAYLOAD_TABLE_SIZE - 1) := 0]> buf in
        if negb (bool_decide (take (length parthdr) buf = parthdr))
        then Done (1, entries)
        else
          entries ← read_lines (length buf) parthdr max_entries buf entries;
          Done (0, entries)
    end.

(** ** Parsing an image *)

Inductive safeloader_image_type : Type :=
| SAFELOADER_TYPE_DEFAULT
| SAFELOADER_TYPE_VENDOR
| SAFELOADER_TYPE_CLOUD
| SAFELOADER_TYPE_QNEW.

Record safeloader_image_info : Type := {
  type : safeloader_image_type;
  payload_offset : Z;
  image_entries : list flash_partition_entry;
}.

(** [memcmp(a, b, n) == 0] for [b] a buffer of at least [n] bytes. *)
Definition memeq (a b : list Z) (n : nat) : bool :=
  bool_decide (take n a = take n b).

(** The variant of an image from the 64 bytes read at offset 0x14. *)
Definition detect_type (buf : list Z) : safeloader_image_type :=
  let HEADER_ID_CLOUD := cstr "fw-type:Cloud" in
  let HEADER_ID_QNEW := cstr "?NEW" in
  if memeq HEADER_ID_QNEW buf (length HEADER_ID_QNEW) then SAFELOADER_TYPE_QNEW
  else if memeq HEADER_ID_CLOUD buf (length HEADER_ID_CLOUD) then SAFELOADER_TYPE_CLOUD
  else if get32 buf <=? SAFELOADER_HEADER_SIZE then SAFELOADER_TYPE_VENDOR
  else SAFELOADER_TYPE_DEFAULT.

Definition payload_offset_of (t : safeloader_image_type) : Z :=
  match t with
  | SAFELOADER_TYPE_DEFAULT
  | SAFELOADER_TYPE_VENDOR
  | SAFELOADER_TYPE_CLOUD => SAFELOADER_PAYLOAD_OFFSET
  | SAFELOADER_TYPE_QNEW => SAFELOADER_QNEW_PAYLOAD_OFFSET
  end.

(** [safeloader_parse_image] on the content of an open input file. *)
Definition safeloader_parse_image (input_file : list Z) : outcome safeloader_image_info :=
  match fread_at input_file SAFELOADER_PREAMBLE_SIZE 64 with
  | None => Fail (Exit "Can not read image header")
  | Some buf =>
      let t := detect_type buf in
      let off := payload_offset_of t in
      '(_, entries) ← read_partition_table input_file off [] MAX_PARTITIONS
                        PARTITION_TABLE_FWUP;
      Done {| type := t; payload_offset := off; image_entries := entries |}
  end.

(** ** The converter *)

(** [find_partition]: the slots after those in use have a NULL name,
    which [strcmp] dereferences. *)
Definition find_partition (entries : list flash_partition_entry) (max_entries : Z)
    (name : list Z) (error_msg : option string) : outcome (option flash_partition_entry) :=
  match list_find (λ e, fp_name e = name) (take (Z.to_nat max_entries) entries) with
  | Some (_, e) => Done (Some e)
  | None =>
      if Z.of_nat (length entries) <? max_entries
      then Fail (Undefined "strcmp with a NULL name")
      else match error_msg with
           | Some msg => Fail (Exit msg)
           | None => Done None
           end
  end.

(** [find_partition] with an error message: the result is an entry. *)
Definition find_partition_or_exit (entries : list flash_partition_entry)
    (max_entries : Z) (name : list Z) (error_msg : string) : outcome flash_partition_entry :=
  r ← find_partition entries max_entries name (Some error_msg);
  match r with
  | Some e => Done e
  | None => Fail (Undefined "NULL entry")
  end.

(** An output stream: the content of the file and the file position. *)
Record stream : Type := { content : list Z; position : nat }.

(** [fwrite(data, len, 1, f)]; a write past the end first fills the gap
    with zeros. *)
Definition fwrite (data : list Z) (f : stream) : stream :=
  let c := content f ++ replicate (position f - length (content f)) 0 in
  {| content := take (position f) c ++ data ++ drop (position f + length data) c;
     position := position f + length data |}.

Definition fseek (offset : Z) (f : stream) : stream :=
  {| content := content f; position := Z.to_nat offset |}.

(** The first loop of [write_partition]: whole chunks of 4096 bytes, as
    long as [4096 + offset <= size]; then the rest, if any. *)
Fixpoint write_partition_chunks (fuel : nat) (input : list Z) (start offset size : Z)
    (output_file : stream) : outcome stream :=
  match fuel with
  | O => Fail (Undefined "fuel")
  | S fuel =>
      if 4096 + offset <=? size then
        match fread_at input (start + offset) 4096 with
        | None => Fail (Exit "Can not read partition from input_file")
        | Some buf =>
            write_partition_chunks fuel input start (offset + 4096) size
              (fwrite buf output_file)
        end
      else if offset <? size then
        match fread_at input (start + offset) (Z.to_nat (size - offset)) with
        | None => Fail (Exit "Can not read partition from input_file")
        | Some buf => Done (fwrite buf output_file)
        end
      else Done output_file
  end.

Definition write_partition (input_file : list Z) (firmware_offset : Z)
    (entry : flash_partition_entry) (output_file : stream) : outcome stream :=
  write_partition_chunks (S (Z.to_nat (fp_size entry / 4096))) input_file
    (fp_base entry + firmware_offset) 0 (fp_size entry) output_file.

(** The loop of [write_ff]: chunks of 4096 bytes while
    [offset + 4096 < size], then the rest. *)
Fixpoint write_ff_chunks (fuel : nat) (offset size : Z) (output_file : stream)
    : outcome stream :=
  match fuel with
  | O => Fail (Undefined "fuel")
  | S fuel =>
      if offset + 4096 <? size then
        write_ff_chunks fuel (offset + 4096) size
          (fwrite (replicate 4096 0xff) output_file)
      else if offset <? size then
        Done (fwrite (replicate (Z.to_nat (size - offset)) 0xff) output_file)
      else Done output_file
  end.

Definition write_ff (output_file : stream) (size : Z) : outcome stream :=
  write_ff_chunks (S (Z.to_nat (size / 4096))) 0 size output_file.

(** [convert_firmware]: from the content of the input file to the
    content of the output file. *)
Definition convert_firmware (input : list Z) : outcome (list Z) :=
  let output_file := {| content := []; position := 0 |} in
  info ← safeloader_parse_image input;
  fwup_os_image ← find_partition_or_exit (image_entries info) MAX_PARTITIONS
    (cstr "os-image") "Error can not find os-image partition (fwup)";
  fwup_file_system ← find_partition_or_exit (image_entries info) MAX_PARTITIONS
    (cstr "file-system") "Error can not find file-system partition (fwup)";
  fwup_partition_table ← find_partition_or_exit (image_entries info) MAX_PARTITIONS
    (cstr "partition-table") "Error can not find partition-table partition";
  let flash_table_offset := payload_offset info + fp_base fwup_partition_table + 4 in
  '(r, flash) ← read_partition_table input flash_table_offset [] MAX_PARTITIONS
                  PARTITION_TABLE_FLASH;
  if negb (r =? 0) then Fail (Exit "Error can not read the partition table (flash)")
  else
    flash_os_image ← find_partition_or_exit flash MAX_PARTITIONS
      (cstr "os-image") "Error can not find os-image partition (flash)";
    flash_file_system ← find_partition_or_exit flash MAX_PARTITIONS
      (cstr "file-system") "Error can not find file-system partition (flash)";
    output_file ← write_partition input (payload_offset info) fwup_os_image output_file;
    output_file ← write_ff output_file (wrap32 (fp_size flash_os_image - fp_size fwup_os_image));
    let output_file :=
      fseek (wrap32 (fp_base flash_file_system - fp_base flash_os_image)) output_file in
    output_file ← write_partition input (payload_offset info) fwup_file_system output_file;
    Done (content output_file).

(** ** Concrete data for the scenarios *)

Definition flash_entry (n : string) (b s : Z) : flash_partition_entry :=
  {| fp_name := cstr n; fp_base := b; fp_size := s |}.

(** The flash layout of the scenario of section 8. *)
Definition scenario_partitions : list flash_partition_entry :=
  [flash_entry "fs-uboot" 0 0x20000;
   flash_entry "firmware" 0x40000 0x770000;
   flash_entry "soft-version" 0x7b0000 0x100;
   flash_entry "support-list" 0x7b1000 0x400].

(** ["SupportList:\r\nFOO:1.0\r\n"] *)
Definition scenario_support_list : list Z :=
  cstr "SupportList:" ++ [13; 10] ++ cstr "FOO:1.0" ++ [13; 10].

(** The built-in partition names: what [set_partition_names] leaves in a
    profile that overrides none. *)
Definition default_names : partition_names_set :=
  {| n_partition_table := cstr "partition-table";
     n_soft_ver := cstr "soft-version";
     n_os_image := cstr "os-image";
     n_support_list := cstr "support-list";
     n_file_system := cstr "file-system";
     n_extra_para := cstr "extra-para" |}.

(** ** Specification-level descriptions of the tables *)

(** The text of the image partition table for [parts] laid out from
    [base] on. *)
Fixpoint fwup_table (base : Z) (parts : list image_partition_entry) : list Z :=
  match parts with
  | [] => []
  | p :: parts =>
      fwup_ptn_line (ip_name p) base (ip_size p) ++ fwup_table (base + ip_size p) parts
  end.

(** The contents of the partitions, back to back. *)
Definition parts_data (parts : list image_partition_entry) : list Z :=
  concat (ip_data <$> parts).

(** The NUL that ends a table with at least one line. *)
Definition table_end {A} (l : list A) : list Z :=
  match l with [] => [] | _ => [0] end.

(** The text of a flash partition table. *)
Definition flash_table (ps : list flash_partition_entry) : list Z :=
  concat ((λ p, partition_line (fp_name p) (fp_base p) (fp_size p)) <$> ps).

(** A small complete profile: the layout of the scenario with a slot
    for the partition table. *)
Definition example_profile : device_info :=
  {| id := cstr "EXAMPLE";
     vendor := Some (cstr "EXAMPLE(TP-LINK|UN|N300-2):1.0");
     support_list := scenario_support_list;
     part_trail := PART_TRAIL_FF;
     soft_version_spec := SOFT_VER_NUMERIC 1 2 3;
     soft_ver_compat_level := 0;
     partitions :=
       [flash_entry "fs-uboot" 0 0x20000;
        flash_entry "partition-table" 0x20000 0x2000;
        flash_entry "firmware" 0x40000 0x770000;
        flash_entry "soft-version" 0x7b0000 0x100;
        flash_entry "support-list" 0x7b1000 0x400];
     first_sysupgrade_partition := cstr "os-image";
     last_sysupgrade_partition := cstr "file-system";
     partition_names :=
       {| partition_table := None; soft_ver := None; os_image := None;
          support_list_name := None; file_system := None; extra_para := None |} |}.

(** A calendar for the examples: every instant is 2024-05-17. *)
Definition example_gmtime (t : Z) : option tm :=
  Some {| tm_year := 124; tm_mon := 4; tm_mday := 17 |}.

(** A stand-in digest for the examples: sixteen times the low byte of
    the length of the message. *)
Definition example_digest (m : list Z) : list Z :=
  replicate 16 (wrap8 (Z.of_nat (length m))).

(** Where [generate_sysupgrade_image] copies the content built for a
    flash partition: the offset in the output and the bytes, if a built
    partition has the name of the flash partition. *)
Definition sysupgrade_dest (first_base : Z) (image_parts : list image_partition_entry)
    (fp : flash_partition_entry) : option (Z * list Z) :=
  match find_image_partition (fp_name fp) image_parts with
  | Some ip => Some (fp_base fp - first_base, ip_data ip)
  | None => None
  end.

(** Position [pos] of the output lies in the destination of [fp]. *)
Definition in_dest (first_base : Z) (image_parts : list image_partition_entry)
    (fp : flash_partition_entry) (pos : nat) : Prop :=
  ∃ off data, sysupgrade_dest first_base image_parts fp = Some (off, data)
              ∧ off ≤ Z.of_nat pos < off + Z.of_nat (length data).

(** The nibbles of [n], most significant first, as [hex_digits] prints
    them. *)
Fixpoint nibbles (fuel : nat) (n : Z) : list Z :=
  match fuel with
  | O => []
  | S fuel => (if n <? 16 then [] else nibbles fuel (n / 16)) ++ [n `mod` 16]
  end.

(** The nibbles that [%05x] prints. *)
Definition fmt_nibbles (v : Z) : list Z :=
  replicate (5 - length (nibbles 8 (wrap32 v))) 0 ++ nibbles 8 (wrap32 v).

(** The number that a sequence of nibbles denotes. *)
Definition nibbles_value (acc : Z) (ds : list Z) : Z :=
  foldl (λ a d, a * 16 + d) acc ds.

(** The entries that the image partition table describes for [parts]
    laid out from [base] on: the name, and base and size as the
    [unsigned] values that are printed. *)
Fixpoint fwup_entries (base : Z) (parts : list image_partition_entry)
    : list flash_partition_entry :=
  match parts with
  | [] => []
  | p :: parts =>
      {| fp_name := ip_name p; fp_base := wrap32 base; fp_size := wrap32 (ip_size p) |}
      :: fwup_entries (base + ip_size p) parts
  end.

(** A name that survives the table: a C string (no NUL) of at most 31
    bytes without space or line feed. *)
Definition table_name (name : list Z) : Prop :=
  (length name ≤ 31)%nat ∧ Forall (λ c, c ≠ 0 ∧ c ≠ 0x20 ∧ c ≠ 0x0A) name.

(** Two built partitions and their flash slots, for the examples. *)
Definition example_parts : list image_partition_entry :=
  [{| ip_name := cstr "os-image"; ip_data := [7; 8] |};
   {| ip_name := cstr "file-system"; ip_data := [1; 2; 3] |}].

Definition example_flash : list flash_partition_entry :=
  [flash_entry "os-image" 0x40000 0x100; flash_entry "file-system" 0x40100 0x200].

(** A region of [n] bytes that starts with [l] and is 0xFF after it. *)
Definition pad_to (n : nat) (l : list Z) : list Z := l ++ replicate (n - length l) 0xFF.

(** An image whose image table gives the os-image 4 bytes while its
    flash table gives the os-image slot 2 bytes. *)
Definition oversized_image : list Z :=
  replicate 0x14 0
  ++ replicate 0x1000 0xFF
  ++ pad_to 0x800
       (fwup_ptn_line (cstr "partition-table") 0x800 0x800
        ++ fwup_ptn_line (cstr "os-image") 0x1000 4
        ++ fwup_ptn_line (cstr "file-system") 0x1004 3 ++ [0])
  ++ pad_to 0x800
       ([0x00; 0x04; 0x00; 0x00]
        ++ partition_line (cstr "os-image") 0x40000 2
        ++ partition_line (cstr "file-system") 0x40010 0x100 ++ [0])
  ++ [1; 2; 3; 4] ++ [5; 6; 7].

(** The positions that the vendor block of [generate_factory_image]
    does not write: those outside [0x14, 0x18 + strlen(vendor)). *)
Definition outside_vendor (v : option (list Z)) (i : nat) : Prop :=
  match v with
  | Some v => (i < 0x14 ∨ 0x18 + length v ≤ i)%nat
  | None => True
  end.


(** ** Tables as rows *)

(** A row of a partition table: name, base and size. *)
Definition table_row : Type := list Z * Z * Z.

(** A line of a partition table in either form: the keyword, the name,
    base and size as [0x%05x], what the form puts before the line feed,
    and the line feed. *)
Definition table_line (hdr ending : list Z) (row : table_row) : list Z :=
  hdr ++ cstr " " ++ row.1.1 ++ cstr " base 0x" ++ fmt_05x row.1.2
  ++ cstr " size 0x" ++ fmt_05x row.2 ++ ending ++ [10].

Definition table_text (hdr ending : list Z) (rows : list table_row) : list Z :=
  concat (table_line hdr ending <$> rows).

(** The entry that the reader stores for a row: base and size are kept
    in [uint32_t] members. *)
Definition row_entry (row : table_row) : flash_partition_entry :=
  {| fp_name := row.1.1; fp_base := wrap32 row.1.2; fp_size := wrap32 row.2 |}.

(** The rows of the image partition table for [parts] laid out from
    [base] on, and the rows of a flash partition table. *)
Fixpoint fwup_rows (base : Z) (parts : list image_partition_entry) : list table_row :=
  match parts with
  | [] => []
  | p :: parts => (ip_name p, base, ip_size p) :: fwup_rows (base + ip_size p) parts
  end.

Definition flash_rows (ps : list flash_partition_entry) : list table_row :=
  (λ p, (fp_name p, fp_base p, fp_size p)) <$> ps.

(** The messages with which the table reader gives up on a line. *)
Definition line_failure (f : failure) : Prop :=
  f = Exit "Ignoring the rest of the partition entries."
  ∨ f = Exit "No free flash part entry available.".

(** What the table reader does to the table: it appends, and an entry
    is only appended within the capacity. *)
Definition appended (max_entries : Z) (before after : list flash_partition_entry)
    : Prop :=
  ∃ new, after = before ++ new
         ∧ (new ≠ [] → Z.of_nat (length after) ≤ max_entries).

(** ** Extracting the partitions of an image *)

Definition PATH_MAX : Z := 4096.

(** [snprintf(output, PATH_MAX, "%s/%s", output_directory, entry->name)]:
    the path that is opened. *)
Definition output_path (output_directory name : list Z) : list Z :=
  take (Z.to_nat (PATH_MAX - 1)) (output_directory ++ cstr "/" ++ name).

Section Extract.

(** Whether [fopen(path, "wb+")] succeeds. *)
Variable fopen_wb : list Z → bool.

(** [extract_firmware_partition]: the path of the file that is written,
    and its content. *)
Definition extract_firmware_partition (input_file : list Z) (firmware_offset : Z)
    (entry : flash_partition_entry) (output_directory : list Z)
    : outcome (list Z * list Z) :=
  let output := output_path output_directory (fp_name entry) in
  if negb (fopen_wb output) then Fail (Exit "Can not open output file")
  else
    output_file ← write_partition input_file firmware_offset entry
                    {| content := []; position := 0 |};
    Done (output, content output_file).

(** The loop of [extract_firmware] over the entries in use. *)
Fixpoint extract_partitions (input_file : list Z) (firmware_offset : Z)
    (entries : list flash_partition_entry) (output_directory : list Z)
    : outcome (list (list Z * list Z)) :=
  match entries with
  | [] => Done []
  | entry :: entries =>
      file ← extract_firmware_partition input_file firmware_offset entry
               output_directory;
      files ← extract_partitions input_file firmware_offset entries output_directory;
      Done (file :: files)
  end.

(** [extract_firmware]: [input] is the content of the input file when
    [stat] finds it (and [fopen] opens it), [directory] is what [stat]
    finds at
    [output_directory] (whether it is a directory).  The result lists
    the files written, in the order in which they are written: a later
    file of the same path replaces an earlier one. *)
Definition extract_firmware (input : option (list Z)) (directory : option bool)
    (output_directory : list Z) : outcome (list (list Z * list Z)) :=
  match input with
  | None => Fail (Exit "Can not read input firmware")
  | Some input_file =>
      match directory with
      | None => Fail (Exit "Failed to stat output directory")
      | Some false => Fail (Exit "Given output directory is not a directory")
      | Some true =>
          info ← safeloader_parse_image input_file;
          extract_partitions input_file (payload_offset info)
            (take (Z.to_nat MAX_PARTITIONS) (image_entries info)) output_directory
      end
  end.

End Extract.

(** ** The reproducibility clock *)

(** What is left of [s] after the digits that [strtoull] consumes. *)
Fixpoint digits_rest (base : Z) (s : list Z) : list Z :=
  match s with
  | c :: s' =>
      match digit_value c with
      | Some d => if d <? base then digits_rest base s' else s
      | None => s
      end
  | [] => []
  end.

(** [strtoull(s, &endptr, 10)] of the C library for a 64-bit
    [unsigned long long]: the value, the string at [endptr], and whether
    [errno] is set ([ERANGE]).  Without a digit the value is 0 and
    [endptr] is [s]. *)
Definition strtoull (s : list Z) : Z * list Z * bool :=
  let t := skip_spaces s in
  let '(neg, t) :=
    match t with
    | 45 :: t' => (true, t')
    | 43 :: t' => (false, t')
    | _ => (false, t)
    end in
  if bool_decide (digits_rest 10 t = t) then (0, s, false)
  else
    let '(v, overflow) := strtoul_digits 10 t 0 false in
    (if overflow then ULONG_MAX else if neg then wrap64 (- v) else v,
     digits_rest 10 t, overflow).

(** The conversion of an [unsigned long long] to the 64-bit signed
    [time_t]. *)
Definition to_time_t (v : Z) : Z := if v <? 2 ^ 63 then v else v - 2 ^ 64.

(** [set_source_date_epoch]: [env] is what [getenv("SOURCE_DATE_EPOCH")]
    returns; the result is the value of [source_date_epoch] afterwards,
    which starts as [-1]. *)
Definition set_source_date_epoch (env : option (list Z)) : outcome Z :=
  match env with
  | Some (c :: s) =>
      let '(v, endptr, erange) := strtoull (c :: s) in
      if erange || negb (bool_decide (endptr = []))
      then Fail (Exit "Invalid SOURCE_DATE_EPOCH")
      else Done (to_time_t v)
  | _ => Done (-1)
  end.

(** The number that a sequence of decimal digits denotes, and the
    characters of the digits. *)
Definition decimal_value (acc : Z) (ds : list Z) : Z :=
  foldl (λ a d, a * 10 + d) acc ds.

Definition decimal_chars (ds : list Z) : list Z := (λ d, 48 + d) <$> ds.

(** What may follow a decimal number: nothing, or a character that is
    not a decimal digit. *)
Definition decimal_stop (rest : list Z) : Prop :=
  match rest with c :: _ => ¬ (48 ≤ c ≤ 57) | [] => True end.

(** ** The calendar and data for the evaluations *)

(** Modelled from the spec: [gmtime] of the C library is not under
    [src/].  The UTC calendar date of an instant in seconds since the
    epoch, by the proleptic Gregorian calendar; NULL when the year does
    not fit [int]. *)
Definition utc_gmtime (t : Z) : option tm :=
  let days := t / 86400 in
  let z := days + 719468 in
  let era := z / 146097 in
  let doe := z - era * 146097 in
  let yoe := (doe - doe / 1460 + doe / 36524 - doe / 146096) / 365 in
  let doy := doe - (365 * yoe + yoe / 4 - yoe / 100) in
  let mp := (5 * doy + 2) / 153 in
  let day := doy - (153 * mp + 2) / 5 + 1 in
  let month := if mp <? 10 then mp + 3 else mp - 9 in
  let year := yoe + era * 400 + (if month <=? 2 then 1 else 0) in
  if bool_decide (- 2 ^ 31 ≤ year - 1900 < 2 ^ 31)
  then Some {| tm_year := year - 1900; tm_mon := month - 1; tm_mday := day |}
  else None.

(** An image of the QNEW variant: the header starts with "?NEW", and the
    table at 0x1050 has one line. *)
Definition qnew_image : list Z :=
  replicate 0x14 0
  ++ cstr "?NEW" ++ replicate 0x38 0
  ++ replicate 0x1000 0xFF
  ++ pad_to 0x800 (fwup_ptn_line (cstr "os-image") 0x800 3 ++ [0])
  ++ [1; 2; 3].




(** * Properties *)

(** ** Memory lemmas *)

Lemma wrap32_small x : 0 ≤ x < 2 ^ 32 → wrap32 x = x.
Proof. intros H. unfold wrap32. by apply Z.mod_small. Qed.

Lemma wrap8_small x : 0 ≤ x < 256 → wrap8 x = x.
Proof. intros H. unfold wrap8. by apply Z.mod_small. Qed.

Lemma memcpy_frame (a b c d : list Z) (off : nat) :
  off = length a → length b = length d →
  memcpy off d (a ++ b ++ c) = Done (a ++ d ++ c).
Proof.
  intros -> Hlen. unfold memcpy.
  rewrite !length_app, Hlen. rewrite decide_True by lia. f_equal.
  rewrite take_app_length. do 2 f_equal.
  rewrite app_assoc. apply drop_app_length'. rewrite length_app. lia.
Qed.

Lemma memcpy_frame0 (b c d : list Z) :
  length b = length d → memcpy 0 d (b ++ c) = Done (d ++ c).
Proof. intros H. by apply (memcpy_frame [] b c d 0). Qed.

Lemma bind_Done {A B} (a : A) (k : A → outcome B) : (Done a ≫= k) = k a.
Proof. done. Qed.

Lemma bind_Fail {A B} f (k : A → outcome B) : (Fail f ≫= k) = Fail f.
Proof. done. Qed.

Lemma memcpy_length off d buf buf' :
  memcpy off d buf = Done buf' → length buf' = length buf.
Proof.
  unfold memcpy. case_decide; [|done]. intros [= <-].
  rewrite !length_app, length_take, length_drop. lia.
Qed.

(** A buffer splits at any offset inside it. *)
Lemma split_at (n : nat) (l : list Z) :
  (n ≤ length l)%nat → ∃ a b, l = a ++ b ∧ length a = n.
Proof.
  intros H. exists (take n l), (drop n l). split.
  - by rewrite take_drop.
  - rewrite length_take. lia.
Qed.

Lemma length_malloc uninit n : length (malloc uninit n) = Z.to_nat n.
Proof. unfold malloc. by rewrite length_fmap, length_seq. Qed.

Lemma length_be32 v : length (be32 v) = 4%nat.
Proof. done. Qed.

Lemma meta_partition_should_pad_spec pv :
  meta_partition_should_pad pv = bool_decide (0 ≤ pv ≤ 0xFF).
Proof.
  unfold meta_partition_should_pad, PART_TRAIL_MAX.
  case_bool_decide as H.
  - apply andb_true_iff. split; [apply Z.leb_le | apply Z.leb_le]; lia.
  - apply andb_false_iff.
    destruct (decide (0 ≤ pv)); [right | left]; apply Z.leb_gt; lia.
Qed.

(** ** Meta partitions (C5) *)

Lemma init_meta_partition_entry_data uninit name data data_len pv :
  0 ≤ data_len → (Z.to_nat data_len ≤ length data)%nat →
  8 + data_len + Z.of_nat (length (trailer pv)) < 2 ^ 32 →
  init_meta_partition_entry uninit name data data_len pv
  = Done {| ip_name := name;
            ip_data := be32 data_len ++ [0; 0; 0; 0]
                       ++ take (Z.to_nat data_len) data ++ trailer pv |}.
Proof.
  intros Hpos Hdata Hlen. unfold init_meta_partition_entry, trailer in *.
  rewrite meta_partition_should_pad_spec.
  assert (8 + data_len < 2 ^ 32) by (destruct (bool_decide _); simpl in Hlen; lia).
  rewrite (wrap32_small (8 + data_len)) by lia.
  assert (Lp : length (take (Z.to_nat data_len) data) = Z.to_nat data_len).
  { rewrite length_take. lia. }
  case_bool_decide as Hpad; simpl in Hlen.
  - rewrite (wrap32_small (8 + data_len + 1)) by lia.
    destruct (split_at 4 (malloc uninit (8 + data_len + 1))) as (j0 & r0 & E0 & L0).
    { rewrite length_malloc. lia. }
    assert (Lr0 : length r0 = Z.to_nat (4 + data_len + 1)).
    { apply (f_equal length) in E0. rewrite length_malloc, length_app in E0. lia. }
    destruct (split_at 4 r0) as (j1 & r1 & E1 & L1); [lia|].
    assert (Lr1 : length r1 = Z.to_nat (data_len + 1)).
    { apply (f_equal length) in E1. rewrite length_app in E1. lia. }
    destruct (split_at (Z.to_nat data_len) r1) as (j2 & r2 & E2 & L2); [lia|].
    assert (Lr2 : length r2 = 1%nat).
    { apply (f_equal length) in E2. rewrite length_app in E2. lia. }
    destruct r2 as [|j3 [|? ?]]; try discriminate Lr2.
    subst r0 r1. rewrite E0.
    rewrite (memcpy_frame0 j0 _ (be32 data_len)) by done. rewrite bind_Done.
    rewrite (memcpy_frame (be32 data_len) j1 _ [0; 0; 0; 0] 4) by done.
    rewrite bind_Done, (decide_True _ _ Hdata).
    rewrite (app_assoc (be32 data_len)).
    rewrite (memcpy_frame (be32 data_len ++ [0; 0; 0; 0]) j2 [j3] _ 8)
      by (done || lia).
    rewrite bind_Done.
    rewrite (app_assoc _ (take _ data)), <- (app_nil_r [j3]).
    rewrite (memcpy_frame (_ ++ take _ data) [j3] [] [wrap8 pv])
      by (rewrite ?length_app; simpl; lia).
    rewrite bind_Done, wrap8_small by lia.
    by rewrite <- !app_assoc.
  - destruct (split_at 4 (malloc uninit (8 + data_len))) as (j0 & r0 & E0 & L0).
    { rewrite length_malloc. lia. }
    assert (Lr0 : length r0 = Z.to_nat (4 + data_len)).
    { apply (f_equal length) in E0. rewrite length_malloc, length_app in E0. lia. }
    destruct (split_at 4 r0) as (j1 & r1 & E1 & L1); [lia|].
    assert (Lr1 : length r1 = Z.to_nat data_len).
    { apply (f_equal length) in E1. rewrite length_app in E1. lia. }
    subst r0. rewrite E0.
    rewrite (memcpy_frame0 j0 _ (be32 data_len)) by done. rewrite bind_Done.
    rewrite (memcpy_frame (be32 data_len) j1 _ [0; 0; 0; 0] 4) by done.
    rewrite bind_Done, (decide_True _ _ Hdata).
    rewrite (app_assoc (be32 data_len)), <- (app_nil_r r1).
    rewrite (memcpy_frame (be32 data_len ++ [0; 0; 0; 0]) r1 [] _ 8)
      by (done || lia).
    rewrite !bind_Done.
    by rewrite <- !app_assoc.
Qed.

Lemma get32_be32 x : 0 ≤ x < 2 ^ 32 → get32 (be32 x) = x.
Proof.
  intros H. unfold get32, be32, wrap8.
  rewrite !Z.shiftr_div_pow2 by lia.
  change (2 ^ 24) with 16777216. change (2 ^ 16) with 65536.
  change (2 ^ 8) with 256. change (2 ^ 32) with 4294967296 in H.
  Z.div_mod_to_equations. lia.
Qed.

(** C5. For every payload (of a length that, with header and trailer,
    fits the [uint32_t] length) and every trailer policy, the meta
    partition has exactly 8 + len(payload) + (1 if the policy is a pad
    value in [0x00, 0xFF], else 0) bytes: the payload length as a
    big-endian u32, a zero u32, the payload verbatim, and the pad byte as
    the final byte only when the policy designates one.  The 23-byte
    support list of the scenario with trailer 0xFF gives 32 bytes that
    begin 00 00 00 17 00 00 00 00. *)
Theorem init_meta_partition_entry_layout (uninit : nat → Z) (name payload : list Z) (pv : Z) :
  8 + Z.of_nat (length payload) + 1 < 2 ^ 32 →
  (∃ e, init_meta_partition_entry uninit name payload (Z.of_nat (length payload)) pv = Done e
        ∧ ip_name e = name
        ∧ ip_size e = 8 + Z.of_nat (length payload)
                      + (if bool_decide (0 ≤ pv ≤ 0xFF) then 1 else 0)
        ∧ ip_data e = be32 (Z.of_nat (length payload)) ++ [0; 0; 0; 0]
                      ++ payload ++ (if bool_decide (0 ≤ pv ≤ 0xFF) then [pv] else [])
        ∧ get32 (be32 (Z.of_nat (length payload))) = Z.of_nat (length payload))
  ∧ (∃ e, init_meta_partition_entry uninit name scenario_support_list 23 0xFF = Done e
          ∧ ip_size e = 32
          ∧ take 8 (ip_data e) = [0x00; 0x00; 0x00; 0x17; 0x00; 0x00; 0x00; 0x00]).
Proof.
  intros Hlen. split.
  - eexists. split.
    { apply init_meta_partition_entry_data; [lia | lia |].
      unfold trailer. case_bool_decide; simpl; lia. }
    rewrite take_ge by lia. unfold trailer, ip_size. simpl.
    repeat split; try done.
    + rewrite !length_app. case_bool_decide; simpl; lia.
    + apply get32_be32. lia.
  - eexists. split.
    { apply (init_meta_partition_entry_data uninit name scenario_support_list 23 0xFF);
        [lia | simpl; lia | simpl; lia]. }
    split; [done|]. done.
Qed.

Lemma init_meta_partition_entry_layout_witness :
  ∃ e, init_meta_partition_entry (λ _, 0) (cstr "soft-version") [1; 2; 3] 3 PART_TRAIL_NONE
       = Done e ∧ ip_data e = [0; 0; 0; 3; 0; 0; 0; 0; 1; 2; 3].
Proof.
  destruct (init_meta_partition_entry_layout (λ _, 0) (cstr "soft-version") [1; 2; 3]
              PART_TRAIL_NONE) as [(e & He & _ & _ & Hd & _) _].
  { simpl. lia. }
  exists e. split; [exact He | exact Hd].
Defined.

(** ** The split of the firmware partition (C2, C7) *)

Lemma ALIGN_64k x : ALIGN x 0x10000 = 0x10000 * ((x + 0xFFFF) / 0x10000).
Proof.
  unfold ALIGN. change (0x10000 - 1) with (Z.ones 16).
  rewrite <- Z.ldiff_land, Z.ldiff_ones_r by lia.
  rewrite Z.shiftl_mul_pow2, Z.shiftr_div_pow2 by lia.
  replace (x + 0x10000 - 1) with (x + 0xFFFF) by lia.
  change (2 ^ 16) with 0x10000. lia.
Qed.

Lemma find_firmware_none ps k acc :
  (∀ j p, ps !! j = Some p → fp_name p ≠ cstr "firmware") →
  find_firmware ps k acc = acc.
Proof.
  revert k acc. induction ps as [|p ps IH]; intros k acc Hno; [done|].
  simpl. unfold streq. rewrite bool_decide_false by (apply (Hno 0%nat); done).
  apply IH. intros j q Hq. by apply (Hno (S j)).
Qed.

Lemma find_firmware_last ps k acc i firmware :
  ps !! i = Some firmware → fp_name firmware = cstr "firmware" →
  (∀ j p, (i < j)%nat → ps !! j = Some p → fp_name p ≠ cstr "firmware") →
  find_firmware ps k acc = Some (k + i)%nat.
Proof.
  revert k acc i. induction ps as [|p ps IH]; intros k acc i Hi Hname Hlast; [done|].
  destruct i as [|i]; simpl in *.
  - injection Hi as ->. unfold streq. rewrite bool_decide_true by done.
    rewrite find_firmware_none; [f_equal; lia|].
    intros j q Hq. apply (Hlast (S j)); [lia | done].
  - rewrite (IH (S k) _ i); [f_equal; lia | done | done |].
    intros j q Hj Hq. apply (Hlast (S j)); [lia | done].
Qed.

(** C7. With a flash partition named "firmware" (the last of that name is
    the one the code splits), a kernel that fits it and a free slot in
    the table, the split puts the os-image slot at the firmware base and
    the file-system slot right after it, at firmware.base + kernel_size,
    rounded up to the next 64 KiB boundary for factory builds only; the
    base is a [uint32_t], hence the sum modulo 2^32, which is the sum
    itself whenever that fits 32 bits.  In the scenario (firmware at
    0x40000, kernel of 0x150000 bytes, factory build) the os-image slot
    has base 0x40000 and size 0x150000 and the file-system slot has base
    0x40000 + 0x150000 = 0x190000, which is already a multiple of
    64 KiB. *)
Theorem split_firmware_boundary (names : partition_names_set) (sysupgrade : bool)
    (kernel_size : Z) (ps : list flash_partition_entry) (i : nat)
    (firmware : flash_partition_entry) :
  ps !! i = Some firmware → fp_name firmware = cstr "firmware" →
  (∀ j p, (i < j)%nat → ps !! j = Some p → fp_name p ≠ cstr "firmware") →
  0 ≤ fp_base firmware → 0 ≤ kernel_size ≤ fp_size firmware →
  Z.of_nat (length ps) < MAX_PARTITIONS →
  let boundary := fp_base firmware + kernel_size in
  let fs_base :=
    if sysupgrade then boundary else 0x10000 * ((boundary + 0xFFFF) / 0x10000) in
  (∃ ps' os fs,
      split_firmware names sysupgrade kernel_size ps = Done (ps', Some fs)
      ∧ ps' !! i = Some os ∧ ps' !! S i = Some fs
      ∧ fp_name os = n_os_image names ∧ fp_base os = fp_base firmware
      ∧ fp_name fs = n_file_system names
      ∧ fp_base fs = wrap32 fs_base
      ∧ (fs_base < 2 ^ 32 → fp_base fs = fs_base))
  ∧ (∃ ps' fs,
      split_firmware names false 0x150000 scenario_partitions = Done (ps', Some fs)
      ∧ ps' !! 1%nat = Some {| fp_name := n_os_image names; fp_base := 0x40000;
                               fp_size := 0x150000 |}
      ∧ ps' !! 2%nat = Some fs
      ∧ fp_base fs = 0x190000).
Proof.
  intros Hi Hname Hlast Hbase Hk Hroom boundary fs_base. split.
  - unfold split_firmware.
    rewrite (find_firmware_last ps 0 None i firmware Hi Hname Hlast). simpl.
    rewrite Hi.
    destruct (fp_size firmware <? kernel_size) eqn:E; [apply Z.ltb_lt in E; lia|].
    destruct (Z.of_nat (length ps) <? MAX_PARTITIONS) eqn:E2;
      [|apply Z.ltb_ge in E2; lia].
    simpl.
    assert (Hlen : (i < length ps)%nat) by (by eapply lookup_lt_Some).
    assert (Hfs : (if negb sysupgrade
                   then wrap32 (ALIGN (fp_base firmware + kernel_size) 65536)
                   else wrap32 (fp_base firmware + kernel_size)) = wrap32 fs_base).
    { unfold fs_base, boundary. destruct sysupgrade; simpl; [done|].
      by rewrite ALIGN_64k. }
    rewrite Hfs.
    eexists _, _, _. split; [reflexivity|].
    split.
    { rewrite lookup_app_r by (rewrite length_take; lia).
      rewrite length_take. replace (i - i `min` length ps)%nat with 0%nat by lia.
      done. }
    split.
    { rewrite lookup_app_r by (rewrite length_take; lia).
      rewrite length_take. replace (S i - i `min` length ps)%nat with 1%nat by lia.
      done. }
    do 4 (split; [done|]). simpl.
    intros Hfit. apply wrap32_small. split; [|done].
    unfold fs_base, boundary. destruct sysupgrade; [lia|].
    apply Z.mul_nonneg_nonneg; [lia|]. apply Z.div_pos; lia.
  - eexists _, _. split; [vm_compute; reflexivity|]. vm_compute. repeat split.
Qed.

Lemma split_firmware_boundary_witness :
  ∃ ps' fs, split_firmware default_names true 0x150001 scenario_partitions
            = Done (ps', Some fs)
            ∧ fp_base fs = 0x190001.
Proof.
  destruct (split_firmware_boundary default_names true 0x150001 scenario_partitions 1
              (flash_entry "firmware" 0x40000 0x770000))
    as [(ps' & os & fs & Hs & _ & _ & _ & _ & _ & _ & Hb) _].
  - reflexivity.
  - reflexivity.
  - intros j p Hj Hp.
    destruct j as [|[|[|[|j]]]]; try lia; simpl in Hp; try discriminate;
      injection Hp as <-; vm_compute; discriminate.
  - simpl; lia.
  - simpl; lia.
  - vm_compute; reflexivity.
  - exists ps', fs. split; [exact Hs|]. apply Hb. simpl. lia.
Defined.

(** The scenario of C7 as the spec states it fails: the file-system slot
    of the factory build is at 0x190000, not at 0x1a0000. *)
Lemma split_firmware_scenario_base :
  ∃ ps' fs, split_firmware default_names false 0x150000 scenario_partitions
            = Done (ps', Some fs)
            ∧ ps' !! 2%nat = Some fs
            ∧ fp_base fs = 0x190000
            ∧ fp_base fs ≠ 0x1a0000.
Proof.
  eexists _, _. split; [vm_compute; reflexivity|]. vm_compute. repeat split.
  discriminate.
Qed.

(** C2. What the code computes for the scenario of C7: the os-image slot
    gets the kernel size, but the file-system slot gets
    firmware.size - file_system.base = 0x770000 - 0x190000 = 0x5e0000,
    whereas firmware.size - (file_system.base - firmware.base) is
    0x620000: the slot ends at 0x770000, 0x40000 short of the end of the
    firmware partition at 0x7b0000. *)
Theorem split_firmware_file_system_size (names : partition_names_set) :
  ∃ ps' os fs,
    split_firmware names false 0x150000 scenario_partitions = Done (ps', Some fs)
    ∧ ps' !! 1%nat = Some os ∧ ps' !! 2%nat = Some fs
    ∧ fp_size os = 0x150000
    ∧ fp_base fs = 0x190000
    ∧ fp_size fs = 0x5e0000
    ∧ 0x770000 - (fp_base fs - 0x40000) = 0x620000
    ∧ fp_base fs + fp_size fs = 0x770000
    ∧ 0x40000 + 0x770000 = 0x7b0000.
Proof. eexists _, _, _. split; [vm_compute; reflexivity|]. vm_compute. repeat split. Qed.

(** The size of the file-system slot in general: the firmware size minus
    the absolute base of the new slot, as a [uint32_t]. *)
Lemma split_firmware_size_formula names sysupgrade kernel_size ps ps' fs :
  split_firmware names sysupgrade kernel_size ps = Done (ps', Some fs) →
  ∃ firmware, firmware ∈ ps ∧ fp_name firmware = cstr "firmware"
    ∧ fp_size fs = wrap32 (fp_size firmware - fp_base fs).
Proof.
  unfold split_firmware.
  destruct (find_firmware ps 0 None) as [i|] eqn:Ei; [|done].
  destruct (ps !! i) as [firmware|] eqn:Hi; [|done].
  destruct (fp_size firmware <? kernel_size); [done|].
  destruct (negb _); [done|].
  intros [= <- <-]. exists firmware. split; [by eapply list_elem_of_lookup_2|].
  split; [|done].
  clear -Ei Hi.
  assert (G : ∀ ps k acc i f, find_firmware ps k acc = Some i →
            (∀ a, acc = Some a → (a < k)%nat) → (k ≤ i)%nat →
            ps !! (i - k)%nat = Some f → fp_name f = cstr "firmware").
  { clear. induction ps as [|p ps IH]; intros k acc i f Hf Hacc Hk Hl; [done|].
    simpl in Hf.
    destruct (decide (i = k)) as [->|Hne].
    - replace (k - k)%nat with 0%nat in Hl by lia. simpl in Hl. injection Hl as ->.
      unfold streq in Hf. case_bool_decide as Hn; [done|].
      exfalso. clear IH.
      assert (G2 : ∀ ps k acc i, find_firmware ps k acc = Some i →
                (∀ a, acc = Some a → (a < k)%nat) → (i < k)%nat → acc = Some i).
      { clear. induction ps as [|p ps IH]; intros k acc i Hf Hacc Hi; [done|].
        simpl in Hf. apply IH in Hf; [| |lia].
        - destruct (streq _ _); [|done]. injection Hf as <-. lia.
        - intros a Ha. destruct (streq _ _); [injection Ha as <-; lia|].
          apply Hacc in Ha. lia. }
      apply G2 in Hf; [|intros a Ha; apply Hacc in Ha; lia|lia].
      apply Hacc in Hf. lia.
    - apply (IH (S k) _ i f Hf).
      + intros a Ha. destruct (streq _ _); [injection Ha as <-; lia|].
        apply Hacc in Ha. lia.
      + lia.
      + replace (i - k)%nat with (S (i - S k)) in Hl by lia. done. }
  apply (G ps 0%nat None i firmware Ei); [done | lia |].
  by rewrite Nat.sub_0_r.
Qed.

(** ** Variant detection (C4) *)

Lemma safeloader_parse_image_type file info :
  safeloader_parse_image file = Done info →
  ∃ buf, fread_at file 0x14 64 = Some buf ∧ length buf = 64%nat
         ∧ type info = detect_type buf
         ∧ payload_offset info = payload_offset_of (type info).
Proof.
  unfold safeloader_parse_image. change SAFELOADER_PREAMBLE_SIZE with 0x14.
  destruct (fread_at file 20 64) as [buf|] eqn:E; [|done].
  destruct (read_partition_table _ _ _ _ _) as [[r es]|]; [|done].
  rewrite bind_Done. intros [= <-]. exists buf. repeat split; try done.
  unfold fread_at in E. simpl in E.
  by apply sublist_lookup_length in E.
Qed.

(** The variant that [detect_type] finds in a buffer of at least four
    bytes, by the first test that holds. *)
Lemma detect_type_cases (b0 b1 b2 b3 : Z) (rest : list Z) :
  let buf := b0 :: b1 :: b2 :: b3 :: rest in
  let be := ((b0 * 256 + b1) * 256 + b2) * 256 + b3 in
  (detect_type buf = SAFELOADER_TYPE_QNEW ↔ take 4 buf = cstr "?NEW")
  ∧ (detect_type buf = SAFELOADER_TYPE_CLOUD ↔
       take 4 buf ≠ cstr "?NEW" ∧ take 13 buf = cstr "fw-type:Cloud")
  ∧ (detect_type buf = SAFELOADER_TYPE_VENDOR ↔
       take 4 buf ≠ cstr "?NEW" ∧ take 13 buf ≠ cstr "fw-type:Cloud" ∧ be ≤ 0x1000)
  ∧ (detect_type buf = SAFELOADER_TYPE_DEFAULT ↔
       take 4 buf ≠ cstr "?NEW" ∧ take 13 buf ≠ cstr "fw-type:Cloud" ∧ 0x1000 < be).
Proof.
  intros buf be. unfold detect_type, memeq.
  change (length (cstr "?NEW")) with 4%nat.
  change (length (cstr "fw-type:Cloud")) with 13%nat.
  change (take 4 (cstr "?NEW")) with (cstr "?NEW").
  change (take 13 (cstr "fw-type:Cloud")) with (cstr "fw-type:Cloud").
  change (get32 buf) with be.
  assert (Hq : cstr "?NEW" = take 4 buf ↔ take 4 buf = cstr "?NEW") by (split; congruence).
  assert (Hc : cstr "fw-type:Cloud" = take 13 buf ↔ take 13 buf = cstr "fw-type:Cloud")
    by (split; congruence).
  change SAFELOADER_HEADER_SIZE with 0x1000.
  repeat case_bool_decide; destruct (be <=? 0x1000) eqn:E;
    try apply Z.leb_le in E; try apply Z.leb_gt in E;
    repeat split; try done; try tauto; try (intros; exfalso; tauto);
    try (intros (? & ? & ?); lia); try (intros (? & ?); tauto); try (intros; lia).
Qed.

(** ** The image partition table (C3) *)

Lemma bind_Done_inv {A B} (m : outcome A) (k : A → outcome B) b :
  (m ≫= k) = Done b → ∃ a, m = Done a ∧ k a = Done b.
Proof. destruct m as [a|f]; [|done]. intros H. by exists a. Qed.

Lemma memcpy_inv off d buf buf' :
  memcpy off d buf = Done buf' →
  (off + length d ≤ length buf)%nat
  ∧ buf' = take off buf ++ d ++ drop (off + length d) buf.
Proof. unfold memcpy. case_decide; [|done]. by intros [= <-]. Qed.

Lemma memcpy_app_inv (a b d : list Z) off buf' :
  off = length a → memcpy off d (a ++ b) = Done buf' →
  (length d ≤ length b)%nat ∧ buf' = a ++ d ++ drop (length d) b.
Proof.
  intros -> H. apply memcpy_inv in H as [Hle ->].
  rewrite length_app in Hle. split; [lia|].
  rewrite take_app_length. do 2 f_equal.
  by rewrite drop_app_add.
Qed.

Lemma wrap64_small x : 0 ≤ x < 2 ^ 64 → wrap64 x = x.
Proof. intros H. unfold wrap64. by apply Z.mod_small. Qed.

Lemma snprintf_inv off len text buf buf' w :
  0 < len → snprintf off len text buf = Done (buf', w) →
  w = Z.of_nat (length text)
  ∧ memcpy off (take (Z.to_nat (len - 1)) text ++ [0]) buf = Done buf'.
Proof.
  intros Hlen. unfold snprintf.
  destruct (len =? 0) eqn:E; [apply Z.eqb_eq in E; lia|].
  intros H. apply bind_Done_inv in H as (b & Hb & H). by injection H as <- <-.
Qed.

Lemma parts_size_data parts : parts_size parts = Z.of_nat (length (parts_data parts)).
Proof.
  unfold parts_size, parts_data. induction parts as [|p parts IH]; [done|].
  rewrite fmap_cons. simpl. rewrite length_app, IH. unfold ip_size.
  rewrite Nat2Z.inj_add. done.
Qed.

(** The invariant of the loop of [put_partitions]: the buffer is the
    table written so far, the rest of the table region, the partitions
    copied so far and what follows them. *)
Lemma put_partitions_loop_inv flash parts :
  ∀ (tbl tail mid rest buf' : list Z) (image_pt base : Z),
    Z.of_nat (length tbl + length tail) = SAFELOADER_PAYLOAD_TABLE_SIZE →
    tail ≠ [] →
    image_pt = Z.of_nat (length tbl) →
    base = Z.of_nat (length tbl + length tail + length mid) →
    put_partitions_loop flash parts image_pt base (tbl ++ tail ++ mid ++ rest) = Done buf' →
    let text := fwup_table base parts in
    (length text + length (table_end parts) ≤ length tail)%nat
    ∧ (length (parts_data parts) ≤ length rest)%nat
    ∧ buf' = tbl ++ text ++ table_end parts
             ++ drop (length text + length (table_end parts)) tail
             ++ mid ++ parts_data parts ++ drop (length (parts_data parts)) rest
    ∧ Forall (λ p, ∃ fp, find_flash_partition (ip_name p) flash = Some fp
                         ∧ ip_size p ≤ fp_size fp) parts.
Proof.
  induction parts as [|p parts IH];
    intros tbl tail mid rest buf' image_pt base Hreg Htail Hpt Hbase Hrun.
  - simpl in *. injection Hrun as <-.
    split; [lia|]. split; [lia|]. split; [by rewrite drop_0 | constructor].
  - cbv zeta.
    change (fwup_table base (p :: parts))
      with (fwup_ptn_line (ip_name p) base (ip_size p)
            ++ fwup_table (base + ip_size p) parts).
    change (parts_data (p :: parts)) with (ip_data p ++ parts_data parts).
    change (table_end (p :: parts)) with [0].
    cbn [put_partitions_loop] in Hrun.
    remember (fwup_ptn_line (ip_name p) base (ip_size p)) as line eqn:Eline.
    apply bind_Done_inv in Hrun as ([] & Hflash & Hrun).
    destruct (find_flash_partition (ip_name p) flash) as [fp|] eqn:Efp; [|done].
    destruct (fp_size fp <? ip_size p) eqn:Esz; [done|]. apply Z.ltb_ge in Esz.
    apply bind_Done_inv in Hrun as (b1 & Hcpy & Hrun).
    rewrite !app_assoc in Hcpy. rewrite <- (app_assoc tbl tail mid) in Hcpy.
    apply memcpy_app_inv in Hcpy as [Hfit ->];
      [|rewrite !length_app; lia].
    apply bind_Done_inv in Hrun as ([b2 w] & Hprt & Hrun).
    assert (Hlentail : (0 < length tail)%nat) by (destruct tail; [done|simpl; lia]).
    unfold SAFELOADER_PAYLOAD_TABLE_SIZE in *.
    apply snprintf_inv in Hprt as [-> Hprt]; [|lia].
    destruct (wrap64 (2048 - image_pt - 1) <? Z.of_nat (length line)) eqn:Ew; [done|].
    apply Z.ltb_ge in Ew. rewrite wrap64_small in Ew by lia.
    rewrite take_ge in Hprt by lia.
    rewrite <- !app_assoc in Hprt.
    apply memcpy_app_inv in Hprt as [_ ->]; [|lia].
    assert (Hl1 : length (line ++ [0]) = (length line + 1)%nat)
      by (rewrite length_app; done).
    rewrite Hl1 in Hrun.
    rewrite drop_app_le in Hrun by lia.
    specialize (IH (tbl ++ line) (0 :: drop (length line + 1) tail)
                  (mid ++ ip_data p) (drop (length (ip_data p)) rest) buf'
                  (image_pt + Z.of_nat (length line)) (base + ip_size p)).
    rewrite <- !app_assoc in Hrun. cbn [app] in Hrun.
    rewrite <- !app_assoc in IH. cbn [app] in IH.
    assert (Hl2 : length (0 :: drop (length line + 1) tail)
                  = (length tail - length line)%nat).
    { cbn [length]. rewrite length_drop. lia. }
    destruct IH as (IH1 & IH2 & -> & IH4); try done.
    + rewrite length_app, Hl2. lia.
    + rewrite length_app. lia.
    + rewrite !length_app, Hl2. unfold ip_size. lia.
    + rewrite Hl2 in IH1. rewrite length_drop in IH2.
      rewrite !length_app. cbn [length].
      split; [destruct parts; simpl in *; lia|].
      split; [lia|].
      split.
      * rewrite <- !app_assoc. do 2 f_equal.
        rewrite drop_drop.
        destruct parts as [|q parts].
        -- cbn [fwup_table table_end parts_data fmap list_fmap concat app length].
           rewrite drop_0.
           replace (length line + 0 + 1)%nat with (length line + 1)%nat by lia.
           done.
        -- change (table_end (q :: parts)) with [0]. cbn [app length]. f_equal.
           set (t := fwup_table _ _).
           replace (length t + 1)%nat with (S (length t)) by lia.
           cbn [drop]. rewrite drop_drop.
           replace (length line + length t + 1)%nat
             with (length line + 1 + length t)%nat by lia.
           done.
      * constructor; [|done]. exists fp. done.
Qed.

Lemma put_partitions_inv (region rest : list Z) flash parts buf' :
  length region = Z.to_nat SAFELOADER_PAYLOAD_TABLE_SIZE →
  put_partitions (region ++ rest) flash parts = Done buf' →
  let text := fwup_table SAFELOADER_PAYLOAD_TABLE_SIZE parts in
  (length text + length (table_end parts) ≤ length region)%nat
  ∧ (length (parts_data parts) ≤ length rest)%nat
  ∧ buf' = (text ++ table_end parts
            ++ drop (length text + length (table_end parts)) region)
           ++ parts_data parts ++ drop (length (parts_data parts)) rest
  ∧ Forall (λ p, ∃ fp, find_flash_partition (ip_name p) flash = Some fp
                       ∧ ip_size p ≤ fp_size fp) parts.
Proof.
  intros Hreg Hrun. unfold put_partitions in Hrun.
  unfold SAFELOADER_PAYLOAD_TABLE_SIZE in *.
  assert (Hne : region ≠ []) by (intros ->; simpl in Hreg; lia).
  destruct (put_partitions_loop_inv flash parts [] region [] rest buf' 0 2048)
    as (H1 & H2 & -> & H4);
    [unfold SAFELOADER_PAYLOAD_TABLE_SIZE; simpl; lia | done | done
    | simpl; lia | exact Hrun |].
  cbn [app]. repeat split; try done. by rewrite <- !app_assoc.
Qed.

(** C3 (as amended). The image-table encoder writes into the first 0x800
    bytes of its buffer, from the first byte on and with no magic header,
    one line "fwup-ptn <name> base 0x<hex> size 0x<hex>\t\r\n" per
    partition in the order supplied, each base being where the partition
    is copied (0x800 plus the sizes before it); one NUL follows the last
    line; the rest of the region is left as the caller filled it, 0xFF
    throughout when the region was; the partitions follow the region back
    to back; and the run fails when text and NUL would exceed the
    region. *)
Theorem put_partitions_table (region rest : list Z)
    (flash : list flash_partition_entry) (parts : list image_partition_entry) :
  length region = 0x800%nat →
  let text := fwup_table 0x800 parts in
  (∀ buf', put_partitions (region ++ rest) flash parts = Done buf' →
     (length text + length (table_end parts) ≤ 0x800)%nat
     ∧ take 0x800 buf' = text ++ table_end parts
                         ++ drop (length text + length (table_end parts)) region
     ∧ (region = replicate 0x800 0xFF →
        take 0x800 buf' = text ++ table_end parts
          ++ replicate (0x800 - (length text + length (table_end parts))) 0xFF)
     ∧ drop 0x800 buf' = parts_data parts ++ drop (length (parts_data parts)) rest)
  ∧ ((0x800 < length text + length (table_end parts))%nat →
     ∃ f, put_partitions (region ++ rest) flash parts = Fail f).
Proof.
  intros Hreg text. split.
  - intros buf' Hrun.
    apply put_partitions_inv in Hrun as (H1 & H2 & -> & H4); [|done].
    change (fwup_table SAFELOADER_PAYLOAD_TABLE_SIZE parts) with text in *.
    assert (Hl : length (text ++ table_end parts
                   ++ drop (length text + length (table_end parts)) region) = 0x800%nat).
    { rewrite !length_app, length_drop. lia. }
    split; [lia|].
    split; [by rewrite take_app_length' by done|].
    split; [|by rewrite drop_app_length' by done].
    intros ->. rewrite take_app_length' by done.
    by rewrite drop_replicate.
  - intros Hbig.
    destruct (put_partitions (region ++ rest) flash parts) as [buf'|f] eqn:E;
      [|by exists f].
    apply put_partitions_inv in E as (H1 & _); [|done].
    change (fwup_table SAFELOADER_PAYLOAD_TABLE_SIZE parts) with text in *. lia.
Qed.

Lemma put_partitions_table_witness :
  ∃ buf', put_partitions (replicate 0x800 0xFF ++ [0xFF; 0xFF]) [flash_entry "os-image" 0 2]
            [{| ip_name := cstr "os-image"; ip_data := [7; 8] |}] = Done buf'
          ∧ take 0x800 buf'
            = cstr "fwup-ptn os-image base 0x00800 size 0x00002" ++ [9; 13; 10; 0]
              ++ replicate 2001 0xFF.
Proof.
  destruct (put_partitions (replicate 0x800 0xFF ++ [0xFF; 0xFF])
              [flash_entry "os-image" 0 2]
              [{| ip_name := cstr "os-image"; ip_data := [7; 8] |}]) as [buf'|f] eqn:E;
    [|vm_compute in E; discriminate E].
  exists buf'. split; [reflexivity|].
  destruct (put_partitions_table (replicate 0x800 0xFF) [0xFF; 0xFF]
              [flash_entry "os-image" 0 2]
              [{| ip_name := cstr "os-image"; ip_data := [7; 8] |}] eq_refl)
    as [H _].
  destruct (H buf' E) as (_ & _ & H3 & _).
  rewrite (H3 eq_refl). vm_compute. reflexivity.
Defined.

(** C3 as the spec states it fails: the table that the image-table
    encoder writes starts with the text of the first line, not with the
    bytes 00 04 00 00. *)
Lemma put_partitions_no_magic :
  ∃ buf', put_partitions (replicate 0x800 0xFF ++ [0xFF; 0xFF]) [flash_entry "os-image" 0 2]
            [{| ip_name := cstr "os-image"; ip_data := [7; 8] |}] = Done buf'
          ∧ take 4 buf' = cstr "fwup"
          ∧ take 4 buf' ≠ [0x00; 0x04; 0x00; 0x00].
Proof.
  eexists. split; [vm_compute; reflexivity|]. split; [done|]. discriminate.
Qed.

(** ** The factory image (C1) *)

Lemma memcpy_lookup_out off d buf buf' i :
  memcpy off d buf = Done buf' → (i < off ∨ off + length d ≤ i)%nat →
  buf' !! i = buf !! i.
Proof.
  intros H Hi. apply memcpy_inv in H as [Hle ->].
  assert (Ht : length (take off buf) = off) by (rewrite length_take; lia).
  destruct Hi as [Hi|Hi].
  - rewrite lookup_app_l by lia. by apply lookup_take_lt.
  - rewrite lookup_app_r by lia. rewrite lookup_app_r by lia.
    rewrite lookup_drop. f_equal. lia.
Qed.

Lemma memcpy_take off d buf buf' n :
  memcpy off d buf = Done buf' → (n ≤ off)%nat → take n buf' = take n buf.
Proof.
  intros H Hn. apply memcpy_inv in H as [Hle ->].
  rewrite take_app_le by (rewrite length_take; lia).
  rewrite take_take. f_equal. lia.
Qed.

Lemma memcpy_drop off d buf buf' n :
  memcpy off d buf = Done buf' → (off + length d ≤ n)%nat → drop n buf' = drop n buf.
Proof.
  intros H Hn. apply memcpy_inv in H as [Hle ->].
  rewrite app_assoc.
  rewrite drop_app_ge by (rewrite length_app, length_take; lia).
  rewrite length_app, length_take, drop_drop. f_equal. lia.
Qed.

Lemma at_offset_inv off f buf buf' :
  at_offset off f buf = Done buf' →
  ∃ tail', (Z.to_nat off ≤ length buf)%nat
           ∧ f (drop (Z.to_nat off) buf) = Done tail'
           ∧ buf' = take (Z.to_nat off) buf ++ tail'.
Proof.
  unfold at_offset. destruct (decide _) as [Hd|]; [|done]. intros Hb.
  apply bind_Done_inv in Hb as (t & Ht & Hb). injection Hb as <-. by exists t.
Qed.

Lemma memset_malloc uninit len c :
  memset 0 c (Z.to_nat len) (malloc uninit len) = Done (replicate (Z.to_nat len) c).
Proof.
  unfold memset, memcpy.
  rewrite length_replicate, length_malloc, decide_True by lia.
  rewrite take_0, drop_ge by (rewrite length_malloc; lia).
  by rewrite app_nil_r.
Qed.

(** The vendor block of [generate_factory_image] leaves everything
    outside [0x14, 0x18 + strlen(vendor)) alone. *)
Lemma vendor_block_inv (v : option (list Z)) (image image' : list Z) :
  match v with
  | Some v =>
      image ← put32 (Z.to_nat SAFELOADER_PREAMBLE_SIZE) (Z.of_nat (length v)) image;
      memcpy (Z.to_nat (SAFELOADER_PREAMBLE_SIZE + 0x4)) v image
  | None => Done image
  end = Done image' →
  length image' = length image
  ∧ take 0x14 image' = take 0x14 image
  ∧ ∀ i, outside_vendor v i → image' !! i = image !! i.
Proof.
  destruct v as [v|]; [|by intros [= <-]].
  intros H. apply bind_Done_inv in H as (b & H1 & H2).
  unfold put32 in H1.
  change (Z.to_nat SAFELOADER_PREAMBLE_SIZE) with 0x14%nat in *.
  change (Z.to_nat (SAFELOADER_PREAMBLE_SIZE + 4)) with 0x18%nat in *.
  split; [|split].
  - apply memcpy_length in H1, H2. congruence.
  - rewrite (memcpy_take _ _ _ _ 0x14 H2) by lia.
    by rewrite (memcpy_take _ _ _ _ 0x14 H1) by lia.
  - intros i Hi. simpl in Hi.
    rewrite (memcpy_lookup_out _ _ _ _ i H2) by lia.
    rewrite (memcpy_lookup_out _ _ _ _ i H1); [done|].
    rewrite length_be32. lia.
Qed.

Section Factory.

Variable uninit : nat → Z.
Variable MD5 : list Z → list Z.
Hypothesis MD5_length : ∀ m, length (MD5 m) = 16%nat.

Lemma generate_factory_image_inv info parts image :
  generate_factory_image uninit MD5 info parts = Done image →
  let len := SAFELOADER_PAYLOAD_OFFSET + SAFELOADER_PAYLOAD_TABLE_SIZE + parts_size parts in
  let text := fwup_table SAFELOADER_PAYLOAD_TABLE_SIZE parts in
  let used := (length text + length (table_end parts))%nat in
  Z.of_nat (length image) = len
  ∧ take 4 image = be32 (wrap32 len)
  ∧ take 16 (drop 4 image)
    = MD5 (md5_salt ++ take (Z.to_nat (wrap32 (len - 0x14))) (drop 0x14 image))
  ∧ (used ≤ 0x800)%nat
  ∧ take used (drop 0x1014 image) = text ++ table_end parts
  ∧ drop 0x1814 image = parts_data parts
  ∧ (∀ i, (0x14 ≤ i < 0x1814)%nat → outside_vendor (vendor info) i →
          ¬ (0x1014 ≤ i < 0x1014 + used)%nat → image !! i = Some 0xFF)
  ∧ Forall (λ p, ∃ fp, find_flash_partition (ip_name p) (partitions info) = Some fp
                       ∧ ip_size p ≤ fp_size fp) parts.
Proof.
  intros H len text used. unfold generate_factory_image in H.
  change (SAFELOADER_PAYLOAD_OFFSET + SAFELOADER_PAYLOAD_TABLE_SIZE + parts_size parts)
    with len in H.
  assert (Hlen : len = 0x1814 + Z.of_nat (length (parts_data parts))).
  { unfold len. rewrite parts_size_data. done. }
  rewrite memset_malloc, bind_Done in H.
  set (image1 := replicate (Z.to_nat len) 0xff) in *.
  assert (L1 : length image1 = Z.to_nat len) by apply length_replicate.
  apply bind_Done_inv in H as (image2 & H2 & H).
  apply bind_Done_inv in H as (image3 & H3 & H).
  apply bind_Done_inv in H as (image4 & H4 & H5).
  unfold put32 in H2.
  pose proof (memcpy_length _ _ _ _ H2) as L2.
  apply vendor_block_inv in H3 as (L3 & T3 & O3).
  apply at_offset_inv in H4 as (tail' & Hoff & Hput & ->).
  change (Z.to_nat SAFELOADER_PAYLOAD_OFFSET) with 0x1014%nat in *.
  change (Z.to_nat SAFELOADER_PREAMBLE_SIZE) with 0x14%nat in *.
  assert (Hsplit : drop 0x1014 image3
                   = take 0x800 (drop 0x1014 image3) ++ drop 0x800 (drop 0x1014 image3))
    by (by rewrite take_drop).
  assert (Lreg : length (take 0x800 (drop 0x1014 image3)) = 0x800%nat).
  { rewrite length_take, length_drop. lia. }
  rewrite Hsplit in Hput.
  apply put_partitions_inv in Hput as (U1 & U2 & -> & U4); [|done].
  fold text in U1 |- *. fold used in U1 |- *.
  set (region := take 0x800 (drop 0x1014 image3)) in *.
  set (rest := drop 0x800 (drop 0x1014 image3)) in *.
  assert (Lrest : length rest = length (parts_data parts)).
  { unfold rest. rewrite !length_drop. lia. }
  rewrite (drop_ge rest) in * by lia. rewrite app_nil_r in *.
  set (table := text ++ table_end parts ++ drop used region) in *.
  assert (Ltab : length table = 0x800%nat).
  { unfold table. rewrite !length_app, length_drop. unfold used in *. lia. }
  set (image4 := take 0x1014 image3 ++ table ++ parts_data parts) in *.
  assert (Lh : length (take 0x1014 image3) = 0x1014%nat) by (rewrite length_take; lia).
  assert (L4 : length image4 = Z.to_nat len).
  { unfold image4. rewrite !length_app. lia. }
  assert (H5' : memcpy 4 (put_md5 MD5 (drop 0x14 image4) (len - 0x14)) image4 = Done image)
    by exact H5.
  clear H5. rename H5' into H5.
  pose proof (memcpy_length _ _ _ _ H5) as L5.
  assert (T4 : take 4 image4 = be32 (wrap32 len)).
  { unfold image4. rewrite take_app_le by lia. rewrite take_take.
    change (4 `min` 0x1014)%nat with (4 `min` 0x14)%nat.
    rewrite <- take_take, T3, take_take. simpl.
    apply memcpy_inv in H2 as [_ ->]. done. }
  pose proof H5 as H5'. apply memcpy_inv in H5' as [_ E5].
  change (put_md5 MD5 (drop 0x14 image4) (len - 0x14))
    with (MD5 (md5_salt ++ take (Z.to_nat (wrap32 (len - 0x14))) (drop 0x14 image4)))
    in E5.
  rewrite MD5_length in E5.
  assert (D5 : drop 0x14 image = drop 0x14 image4).
  { unfold put_md5, MD5_Final in H5.
    apply (memcpy_drop _ _ _ _ 0x14) in H5; [done|]. rewrite MD5_length. lia. }
  split; [lia|].
  split; [by rewrite (memcpy_take _ _ _ _ 4 H5) by lia|].
  split.
  { rewrite D5. rewrite E5 at 1.
    rewrite drop_app_length' by (rewrite length_take; lia).
    by rewrite take_app_length' by (by rewrite MD5_length). }
  split; [unfold used in *; lia|].
  assert (D4 : drop 0x1014 image = table ++ parts_data parts).
  { replace 0x1014%nat with (0x14 + 0x1000)%nat by done.
    rewrite <- drop_drop, D5, drop_drop. unfold image4.
    by rewrite drop_app_length' by done. }
  split.
  { rewrite D4. unfold table. rewrite !app_assoc.
    rewrite <- (app_assoc _ (drop used region)).
    apply take_app_length'. rewrite length_app. done. }
  split.
  { replace 0x1814%nat with (0x1014 + 0x800)%nat by done.
    rewrite <- drop_drop, D4. by rewrite drop_app_length' by done. }
  split; [|done].
  intros i Hi Hv Ht.
  assert (E : image !! i = image4 !! i).
  { apply (memcpy_lookup_out _ _ _ _ i H5). unfold put_md5, MD5_Final.
    rewrite MD5_length. lia. }
  rewrite E.
  assert (E3 : image3 !! i = Some 0xFF).
  { rewrite O3 by done.
    rewrite (memcpy_lookup_out _ _ _ _ i H2) by (rewrite length_be32; lia).
    apply lookup_replicate_2. lia. }
  unfold image4.
  destruct (decide (i < 0x1014)%nat) as [Hlt|Hge].
  - rewrite lookup_app_l by lia. rewrite lookup_take_lt by lia. done.
  - rewrite lookup_app_r by lia. rewrite Lh.
    rewrite lookup_app_l by lia. unfold table.
    rewrite app_assoc, lookup_app_r by (rewrite length_app; unfold used in *; lia).
    rewrite length_app. fold used.
    rewrite lookup_drop. unfold region.
    rewrite lookup_take_lt by lia. rewrite lookup_drop.
    rewrite <- E3. f_equal. lia.
Qed.

End Factory.

Lemma build_image_inv uninit gmtime MD5 kernel rootfs rev jffs2 sysupgrade epoch now
    info image :
  build_image uninit gmtime MD5 kernel rootfs rev jffs2 sysupgrade epoch now info
  = Done image →
  ∃ info' parts,
    build_partitions uninit gmtime kernel rootfs rev jffs2 sysupgrade epoch now info
    = Done (info', parts)
    ∧ vendor info' = vendor info
    ∧ (if sysupgrade then generate_sysupgrade_image uninit info' parts
       else generate_factory_image uninit MD5 info' parts) = Done image
    ∧ (Z.of_nat (length image) =? 0) = false.
Proof.
  unfold build_image. intros H.
  apply bind_Done_inv in H as ([info' parts] & Hp & H).
  apply bind_Done_inv in H as (img & Hi & H).
  destruct (Z.of_nat (length img) =? 0) eqn:E0; [done|]. injection H as <-.
  exists info', parts. split; [done|]. split; [|done].
  unfold build_partitions in Hp.
  apply bind_Done_inv in Hp as ([ps fsp] & _ & Hp).
  repeat (apply bind_Done_inv in Hp as (? & _ & Hp)).
  by injection Hp as <- _.
Qed.



(** ** The sysupgrade image (C8) *)

Lemma memcpy_lookup_in off d buf buf' j :
  memcpy off d buf = Done buf' → (j < length d)%nat →
  buf' !! (off + j)%nat = d !! j.
Proof.
  intros H Hj. apply memcpy_inv in H as [Hle ->].
  rewrite lookup_app_r by (rewrite length_take; lia).
  rewrite length_take. rewrite lookup_app_l by lia. f_equal. lia.
Qed.

Lemma memcpy_to_inv off d buf buf' :
  memcpy_to off d buf = Done buf' →
  0 ≤ off ∧ memcpy (Z.to_nat off) d buf = Done buf'.
Proof.
  unfold memcpy_to. destruct (off <? 0) eqn:E; [done|].
  apply Z.ltb_ge in E. done.
Qed.

Lemma sysupgrade_copy_inv first_base image_parts range :
  ∀ image image',
    sysupgrade_copy range first_base image_parts image = Done image' →
    length image' = length image
    ∧ Forall (λ fp, ∀ ip, find_image_partition (fp_name fp) image_parts = Some ip →
                ip_size ip ≤ fp_size fp
                ∧ 0 ≤ fp_base fp - first_base
                ∧ fp_base fp - first_base + ip_size ip ≤ Z.of_nat (length image)) range
    ∧ (∀ pos, (∀ fp, fp ∈ range → ¬ in_dest first_base image_parts fp pos) →
              image' !! pos = image !! pos)
    ∧ (∀ k fp off data j,
         range !! k = Some fp →
         sysupgrade_dest first_base image_parts fp = Some (off, data) →
         (j < length data)%nat →
         (∀ k' fp', (k < k')%nat → range !! k' = Some fp' →
                    ¬ in_dest first_base image_parts fp' (Z.to_nat off + j)) →
         image' !! (Z.to_nat off + j)%nat = data !! j).
Proof.
  induction range as [|fp range IH]; intros image image' H.
  - injection H as <-. split; [done|]. split; [constructor|]. split; [done|].
    intros k fp off data j Hk. done.
  - cbn [sysupgrade_copy] in H.
    apply bind_Done_inv in H as (image1 & H1 & H).
    apply IH in H as (L & F & O & I). clear IH.
    destruct (find_image_partition (fp_name fp) image_parts) as [ip|] eqn:Eip.
    + destruct (fp_size fp <? ip_size ip) eqn:Esz; [done|]. apply Z.ltb_ge in Esz.
      apply memcpy_to_inv in H1 as [Hoff H1].
      pose proof (memcpy_length _ _ _ _ H1) as L1.
      pose proof (memcpy_inv _ _ _ _ H1) as [Hfit _].
      assert (Hdest : sysupgrade_dest first_base image_parts fp
                      = Some (fp_base fp - first_base, ip_data ip)).
      { unfold sysupgrade_dest. by rewrite Eip. }
      split; [congruence|]. split; [|split].
      * constructor.
        -- intros ip' Heq. rewrite Eip in Heq. injection Heq as Heq. subst ip'.
           unfold ip_size in *. lia.
        -- eapply Forall_impl; [exact F|]. intros fp' Hfp' ip' Hip'.
           specialize (Hfp' ip' Hip'). lia.
      * intros pos Hpos. rewrite O.
        -- apply (memcpy_lookup_out _ _ _ _ pos H1).
           destruct (decide (pos < Z.to_nat (fp_base fp - first_base))%nat); [by left|].
           destruct (decide (Z.to_nat (fp_base fp - first_base) + length (ip_data ip)
                             ≤ pos)%nat); [by right|].
           exfalso. apply (Hpos fp); [by left|].
           exists (fp_base fp - first_base), (ip_data ip). split; [done|]. lia.
        -- intros fp' Hfp'. apply Hpos. by right.
      * intros k fp' off data j Hk Hd Hj Hlater.
        destruct k as [|k].
        -- injection Hk as <-. rewrite Hdest in Hd. injection Hd as <- <-.
           rewrite O; [exact (memcpy_lookup_in _ _ _ _ j H1 Hj)|].
           intros fp' Hfp'. apply list_elem_of_lookup in Hfp' as [k' Hk'].
           apply (Hlater (S k') fp'); [lia | done].
        -- apply (I k fp' off data j Hk Hd Hj).
           intros k' fp'' Hlt Hk'. apply (Hlater (S k') fp''); [lia | done].
    + injection H1 as ->.
      split; [done|]. split; [|split].
      * constructor; [|done]. intros ip' Heq. by rewrite Eip in Heq.
      * intros pos Hpos. apply O. intros fp' Hfp'. apply Hpos. by right.
      * intros k fp' off data j Hk Hd Hj Hlater.
        destruct k as [|k].
        -- injection Hk as <-. unfold sysupgrade_dest in Hd. by rewrite Eip in Hd.
        -- apply (I k fp' off data j Hk Hd Hj).
           intros k' fp'' Hlt Hk'. apply (Hlater (S k') fp''); [lia | done].
Qed.

(** A built partition larger than its flash slot stops the copy loop. *)
Lemma sysupgrade_copy_too_big first_base image_parts range image fp ip :
  fp ∈ range → find_image_partition (fp_name fp) image_parts = Some ip →
  fp_size fp < ip_size ip →
  ∃ f, sysupgrade_copy range first_base image_parts image = Fail f.
Proof.
  intros Hin Hip Hbig.
  destruct (sysupgrade_copy range first_base image_parts image) as [image'|f] eqn:E;
    [|by exists f].
  apply sysupgrade_copy_inv in E as (_ & F & _).
  rewrite Forall_forall in F. specialize (F fp Hin ip Hip). lia.
Qed.

Lemma find_first_last_inv first last ps :
  ∀ i acc r,
    find_first_last first last ps i acc = r →
    (∀ j p, acc.1 = Some (j, p) → (j < i)%nat) →
    (∀ j p, acc.2 = Some (j, p) → (j < i)%nat) →
    (∀ j p, r.1 = Some (j, p) →
       acc.1 = Some (j, p) ∨ ((i ≤ j)%nat ∧ ps !! (j - i)%nat = Some p ∧ fp_name p = first))
    ∧ (∀ j p, r.2 = Some (j, p) →
       acc.2 = Some (j, p) ∨ ((i ≤ j)%nat ∧ ps !! (j - i)%nat = Some p ∧ fp_name p = last)).
Proof.
  induction ps as [|q ps IH]; intros i acc r H H1 H2.
  - simpl in H. subst r. split; intros j p Hj; by left.
  - cbn [find_first_last] in H. unfold streq in H.
    case_bool_decide as Ef.
    + apply IH in H as [R1 R2]; simpl.
      * split; intros j p Hj.
        -- apply R1 in Hj as [[= <- <-]|(Hle & Hl & Hn)].
           ++ right. rewrite Nat.sub_diag. done.
           ++ right. split; [lia|]. split; [|done].
              replace (j - i)%nat with (S (j - S i)) by lia. done.
        -- apply R2 in Hj as [Hj|(Hle & Hl & Hn)]; [by left|].
           right. split; [lia|]. split; [|done].
           replace (j - i)%nat with (S (j - S i)) by lia. done.
      * intros j p [= <- <-]. lia.
      * intros j p Hj. apply H2 in Hj. lia.
    + case_bool_decide as El.
      * apply IH in H as [R1 R2]; simpl.
        -- split; intros j p Hj.
           ++ apply R1 in Hj as [Hj|(Hle & Hl & Hn)]; [by left|].
              right. split; [lia|]. split; [|done].
              replace (j - i)%nat with (S (j - S i)) by lia. done.
           ++ apply R2 in Hj as [[= <- <-]|(Hle & Hl & Hn)].
              ** right. rewrite Nat.sub_diag. done.
              ** right. split; [lia|]. split; [|done].
                 replace (j - i)%nat with (S (j - S i)) by lia. done.
        -- intros j p Hj. apply H1 in Hj. lia.
        -- intros j p [= <- <-]. lia.
      * apply IH in H as [R1 R2].
        -- split; intros j p Hj.
           ++ apply R1 in Hj as [Hj|(Hle & Hl & Hn)]; [by left|].
              right. split; [lia|]. split; [|done].
              replace (j - i)%nat with (S (j - S i)) by lia. done.
           ++ apply R2 in Hj as [Hj|(Hle & Hl & Hn)]; [by left|].
              right. split; [lia|]. split; [|done].
              replace (j - i)%nat with (S (j - S i)) by lia. done.
        -- intros j p Hj. apply H1 in Hj. lia.
        -- intros j p Hj. apply H2 in Hj. lia.
Qed.

Lemma range_lookup (ps : list flash_partition_entry) (fi li k : nat) fp :
  (fi ≤ k ≤ li)%nat → ps !! k = Some fp →
  take (S li - fi) (drop fi ps) !! (k - fi)%nat = Some fp.
Proof.
  intros Hk Hl. rewrite lookup_take_lt by lia. rewrite lookup_drop.
  replace (fi + (k - fi))%nat with k by lia. done.
Qed.

Lemma range_lookup_inv (ps : list flash_partition_entry) (fi li k' : nat) fp :
  take (S li - fi) (drop fi ps) !! k' = Some fp →
  (fi ≤ fi + k' ≤ li)%nat ∧ ps !! (fi + k')%nat = Some fp.
Proof.
  intros H. apply lookup_take_Some in H as [H Hlt].
  rewrite lookup_drop in H. split; [lia | done].
Qed.

(** C8. When sysupgrade assembly produces an output, its length is
    last.base - first.base (a u32 difference) + the size of the built
    partition named like the last one; for every flash partition index
    between first and last inclusive whose name matches a built
    partition, the built content is no larger than the flash slot and its
    bytes are in the output at offset flash_partition.base - first.base
    (wherever no partition of a later index is copied over them); and
    every output byte outside the copied ranges is 0xFF.  A built
    partition in that range that exceeds its flash slot makes the run
    fail. *)
Theorem sysupgrade_image_layout (uninit : nat → Z) (info : device_info)
    (image_parts : list image_partition_entry) :
  (∀ image, generate_sysupgrade_image uninit info image_parts = Done image →
     ∃ fi ff li fl image_last,
       partitions info !! fi = Some ff
       ∧ fp_name ff = first_sysupgrade_partition info
       ∧ partitions info !! li = Some fl
       ∧ fp_name fl = last_sysupgrade_partition info
       ∧ (fi < li)%nat
       ∧ find_image_partition (last_sysupgrade_partition info) image_parts = Some image_last
       ∧ Z.of_nat (length image)
         = wrap32 (fp_base fl - fp_base ff) + ip_size image_last
       ∧ (0 ≤ fp_base fl - fp_base ff < 2 ^ 32 →
          Z.of_nat (length image) = fp_base fl - fp_base ff + ip_size image_last)
       ∧ (∀ k fp ip, (fi ≤ k ≤ li)%nat → partitions info !! k = Some fp →
            find_image_partition (fp_name fp) image_parts = Some ip →
            ip_size ip ≤ fp_size fp
            ∧ 0 ≤ fp_base fp - fp_base ff
            ∧ fp_base fp - fp_base ff + ip_size ip ≤ Z.of_nat (length image)
            ∧ ∀ j, (j < length (ip_data ip))%nat →
                (∀ k' fp', (k < k' ≤ li)%nat → partitions info !! k' = Some fp' →
                   ¬ in_dest (fp_base ff) image_parts fp'
                       (Z.to_nat (fp_base fp - fp_base ff) + j)) →
                image !! (Z.to_nat (fp_base fp - fp_base ff) + j)%nat = ip_data ip !! j)
       ∧ (∀ pos, (pos < length image)%nat →
            (∀ k fp, (fi ≤ k ≤ li)%nat → partitions info !! k = Some fp →
               ¬ in_dest (fp_base ff) image_parts fp pos) →
            image !! pos = Some 0xFF))
  ∧ (∀ fi ff li fl k fp ip,
       find_first_last (first_sysupgrade_partition info) (last_sysupgrade_partition info)
         (partitions info) 0 (None, None) = (Some (fi, ff), Some (li, fl)) →
       (fi ≤ k ≤ li)%nat → partitions info !! k = Some fp →
       find_image_partition (fp_name fp) image_parts = Some ip →
       fp_size fp < ip_size ip →
       ∃ f, generate_sysupgrade_image uninit info image_parts = Fail f).
Proof.
  split.
  - intros image H. unfold generate_sysupgrade_image in H.
    destruct (find_first_last _ _ _ _ _) as [[[fi ff]|] [[li fl]|]] eqn:Efl; try done.
    case_bool_decide as Hlt; [|done]. simpl in H.
    destruct (find_image_partition (last_sysupgrade_partition info) image_parts)
      as [image_last|] eqn:Elast; [|done].
    rewrite memset_malloc, bind_Done in H.
    set (len := wrap32 (fp_base fl - fp_base ff) + ip_size image_last) in *.
    assert (Hlen : 0 ≤ len).
    { unfold len, wrap32, ip_size.
      pose proof (Z.mod_pos_bound (fp_base fl - fp_base ff) (2 ^ 32)). lia. }
    apply sysupgrade_copy_inv in H as (L & F & O & I).
    rewrite length_replicate in L, F.
    apply find_first_last_inv in Efl as [R1 R2]; [|done|done].
    destruct (R1 fi ff eq_refl) as [?|(_ & Hfi & Hfn)]; [done|].
    destruct (R2 li fl eq_refl) as [?|(_ & Hli & Hln)]; [done|].
    rewrite Nat.sub_0_r in Hfi, Hli.
    exists fi, ff, li, fl, image_last.
    do 6 (split; [done|]).
    split; [rewrite L, Z2Nat.id by done; done|].
    split; [intros Hb; rewrite L, Z2Nat.id by done; unfold len;
            by rewrite wrap32_small by done|].
    split.
    + intros k fp ip Hk Hfp Hip.
      pose proof (range_lookup _ fi li k fp Hk Hfp) as Hr.
      rewrite Forall_lookup in F. destruct (F _ _ Hr ip Hip) as (F1 & F2 & F3).
      split; [done|]. split; [done|]. split; [lia|].
      intros j Hj Hlater.
      apply (I (k - fi)%nat fp (fp_base fp - fp_base ff) (ip_data ip) j Hr); [|done|].
      * unfold sysupgrade_dest. by rewrite Hip.
      * intros k' fp' Hk' Hr'. apply range_lookup_inv in Hr' as [Hb Hr'].
        apply (Hlater (fi + k')%nat fp'); [lia | done].
    + intros pos Hpos Hout. rewrite O.
      * apply lookup_replicate_2. lia.
      * intros fp Hfp. apply list_elem_of_lookup in Hfp as [k' Hr'].
        apply range_lookup_inv in Hr' as [Hb Hr'].
        apply (Hout (fi + k')%nat fp); [lia | done].
  - intros fi ff li fl k fp ip Efl Hk Hfp Hip Hbig.
    unfold generate_sysupgrade_image. rewrite Efl.
    case_bool_decide as Hlt; [|by eexists]. simpl.
    destruct (find_image_partition (last_sysupgrade_partition info) image_parts)
      as [image_last|]; [|by eexists].
    rewrite memset_malloc, bind_Done.
    apply (sysupgrade_copy_too_big _ _ _ _ fp ip); [|done|done].
    apply list_elem_of_lookup. exists (k - fi)%nat. by apply range_lookup.
Qed.

(** ** Reproducible builds (C9) *)

Lemma wrap32_range x : 0 ≤ wrap32 x < 2 ^ 32.
Proof. unfold wrap32. apply Z.mod_pos_bound. lia. Qed.

(** A successful [init_meta_partition_entry] had room for header,
    payload and trailer. *)
Lemma init_meta_partition_entry_inv uninit name data data_len pv e :
  0 ≤ data_len < 2 ^ 32 →
  init_meta_partition_entry uninit name data data_len pv = Done e →
  (Z.to_nat data_len ≤ length data)%nat
  ∧ 8 + data_len + Z.of_nat (length (trailer pv)) < 2 ^ 32.
Proof.
  intros Hdl H. unfold init_meta_partition_entry in H.
  rewrite meta_partition_should_pad_spec in H. unfold trailer.
  apply bind_Done_inv in H as (b1 & H1 & H).
  apply bind_Done_inv in H as (b2 & H2 & H).
  apply bind_Done_inv in H as (b3 & H3 & H).
  destruct (decide (Z.to_nat data_len ≤ length data)%nat) as [Hd|]; [|done].
  split; [done|].
  apply memcpy_length in H1, H2. rewrite length_malloc in H1.
  apply memcpy_inv in H3 as [H3 _]. rewrite length_take in H3.
  change (2 ^ 32) with 4294967296 in *.
  destruct (bool_decide (0 ≤ pv ≤ 255)); simpl;
    unfold wrap32 in *; change (2 ^ 32) with 4294967296 in *;
    Z.div_mod_to_equations; lia.
Qed.

Lemma init_meta_partition_entry_det u1 u2 name data data_len pv e :
  0 ≤ data_len < 2 ^ 32 →
  init_meta_partition_entry u1 name data data_len pv = Done e →
  init_meta_partition_entry u2 name data data_len pv = Done e.
Proof.
  intros Hdl H.
  destruct (init_meta_partition_entry_inv _ _ _ _ _ _ Hdl H) as [Hd Hl].
  rewrite init_meta_partition_entry_data in H by (done || lia).
  rewrite init_meta_partition_entry_data by (done || lia). done.
Qed.

Lemma ALIGN_ge x : x ≤ ALIGN x 0x10000.
Proof. rewrite ALIGN_64k. Z.div_mod_to_equations. lia. Qed.

Lemma memcpy_app (a b d : list Z) off :
  off = length a → (length d ≤ length b)%nat →
  memcpy off d (a ++ b) = Done (a ++ d ++ drop (length d) b).
Proof.
  intros -> Hd. unfold memcpy. rewrite length_app, decide_True by lia.
  rewrite take_app_length, drop_app_add. done.
Qed.

(** [read_file] does not depend on what the allocation held. *)
Lemma read_file_det u1 u2 name file jffs2 fsp e :
  read_file u1 name file jffs2 fsp = Done e →
  read_file u2 name file jffs2 fsp = Done e.
Proof.
  unfold read_file, alloc_image_partition. cbn [ip_data].
  set (st := Z.of_nat (length file)).
  set (len := if jffs2 then _ else st).
  assert (Hlen : if jffs2 then st + 4 ≤ len else len = st).
  { unfold len. destruct jffs2; [|done]. destruct fsp as [fsp|].
    - pose proof (ALIGN_ge (st + fp_base fsp)). lia.
    - pose proof (ALIGN_ge st). lia. }
  clearbody len.
  destruct (st =? 0) eqn:Est; [done|]. apply Z.eqb_neq in Est.
  assert (G : ∀ u, (memcpy 0 file (malloc u len) ≫= λ buf,
              (if jffs2 then
                 memset (Z.to_nat st) 255 (Z.to_nat (len - st - 4)) buf ≫= λ buf,
                 memcpy (Z.to_nat (len - 4)) jffs2_eof_mark buf
               else Done buf) ≫= λ buf, Done {| ip_name := name; ip_data := buf |})
            = Done {| ip_name := name;
                      ip_data := file ++ (if jffs2
                                          then replicate (Z.to_nat (len - st - 4)) 255
                                               ++ jffs2_eof_mark
                                          else []) |}).
  { intros u.
    destruct (split_at (length file) (malloc u len)) as (j0 & r0 & E0 & L0).
    { rewrite length_malloc. destruct jffs2; lia. }
    assert (Lr0 : length r0 = Z.to_nat (len - st)).
    { apply (f_equal length) in E0. rewrite length_malloc, length_app in E0. lia. }
    rewrite E0. rewrite (memcpy_frame0 j0 r0 file) by done. rewrite bind_Done.
    destruct jffs2.
    - destruct (split_at (Z.to_nat (len - st - 4)) r0) as (j1 & r1 & E1 & L1); [lia|].
      assert (Lr1 : length r1 = 4%nat).
      { apply (f_equal length) in E1. rewrite length_app in E1. lia. }
      subst r0. unfold memset.
      rewrite (memcpy_frame file j1 r1 _ (Z.to_nat st))
        by (rewrite ?length_replicate; lia).
      rewrite bind_Done. rewrite app_assoc, <- (app_nil_r r1).
      rewrite (memcpy_frame _ r1 [] jffs2_eof_mark)
        by (rewrite ?length_app, ?length_replicate; simpl; lia).
      rewrite bind_Done. by rewrite <- !app_assoc.
    - rewrite bind_Done. destruct r0; [|simpl in Lr0; lia]. done. }
  intros H. rewrite G in H. rewrite G. done.
Qed.

Lemma snprintf_app (a b text : list Z) off len :
  off = length a → 0 < len → Z.of_nat (length text) ≤ len - 1 →
  (length text + 1 ≤ length b)%nat →
  snprintf off len text (a ++ b)
  = Done (a ++ text ++ 0 :: drop (length text + 1) b, Z.of_nat (length text)).
Proof.
  intros Hoff Hlen Hfit Hb. unfold snprintf.
  destruct (len =? 0) eqn:E; [apply Z.eqb_eq in E; lia|].
  rewrite take_ge by lia.
  rewrite (memcpy_app a b (text ++ [0]) off Hoff) by (rewrite length_app; simpl; lia).
  rewrite bind_Done, length_app. simpl. by rewrite <- !app_assoc.
Qed.

(** The loop of [make_partition_table] on two buffers that agree on the
    table written so far: it writes the same text into both. *)
Lemma make_partition_table_lines_inv ps :
  ∀ (tbl tail tail2 buf' : list Z) (s s' : Z),
    Z.of_nat (length tbl + length tail) = SAFELOADER_PAYLOAD_TABLE_SIZE →
    tail ≠ [] → length tail2 = length tail →
    s = Z.of_nat (length tbl) →
    make_partition_table_lines ps s (tbl ++ tail) = Done (buf', s') →
    let used := (length (flash_table ps) + length (table_end ps))%nat in
    s' = s + Z.of_nat (length (flash_table ps))
    ∧ (used ≤ length tail)%nat
    ∧ buf' = tbl ++ flash_table ps ++ table_end ps ++ drop used tail
    ∧ make_partition_table_lines ps s (tbl ++ tail2)
      = Done (tbl ++ flash_table ps ++ table_end ps ++ drop used tail2, s').
Proof.
  unfold SAFELOADER_PAYLOAD_TABLE_SIZE.
  induction ps as [|p ps IH]; intros tbl tail tail2 buf' s s' Hreg Htail Hl2 Hs Hrun.
  - cbn in Hrun. injection Hrun as <- <-. cbn.
    split; [lia|]. split; [lia|]. by rewrite !drop_0.
  - cbv zeta.
    change (flash_table (p :: ps))
      with (partition_line (fp_name p) (fp_base p) (fp_size p) ++ flash_table ps).
    change (table_end (p :: ps)) with [0].
    cbn [make_partition_table_lines] in Hrun |- *.
    unfold SAFELOADER_PAYLOAD_TABLE_SIZE in *.
    remember (partition_line (fp_name p) (fp_base p) (fp_size p)) as line eqn:Eline.
    apply bind_Done_inv in Hrun as ([b1 w] & Hprt & Hrun).
    assert (Hlentail : (0 < length tail)%nat) by (destruct tail; [done|simpl; lia]).
    apply snprintf_inv in Hprt as [-> Hprt]; [|lia].
    destruct (wrap64 (2048 - s - 1) <? Z.of_nat (length line)) eqn:Ew'; [done|].
    pose proof Ew' as Ew.
    apply Z.ltb_ge in Ew. rewrite wrap64_small in Ew by lia.
    rewrite take_ge in Hprt by lia.
    apply memcpy_app_inv in Hprt as [Hfit ->]; [|lia].
    rewrite length_app in Hfit. cbn [length] in Hfit.
    rewrite (snprintf_app tbl tail2 line) by lia.
    rewrite bind_Done, Ew'.
    assert (Hl1 : length (line ++ [0]) = (length line + 1)%nat)
      by (rewrite length_app; done).
    rewrite Hl1 in Hrun. rewrite <- !app_assoc in Hrun. cbn [app] in Hrun.
    specialize (IH (tbl ++ line) (0 :: drop (length line + 1) tail)
                  (0 :: drop (length line + 1) tail2) buf'
                  (s + Z.of_nat (length line)) s').
    rewrite <- !app_assoc in IH.
    assert (Hl3 : length (0 :: drop (length line + 1) tail)
                  = (length tail - length line)%nat).
    { cbn [length]. rewrite length_drop. lia. }
    destruct IH as (IH1 & IH2 & -> & IH4); try done.
    + rewrite length_app, Hl3. lia.
    + cbn [length]. rewrite !length_drop. lia.
    + rewrite length_app. lia.
    + rewrite Hl3 in IH2. rewrite IH4. rewrite !length_app. cbn [length].
      split; [lia|]. split; [destruct ps; simpl in *; lia|].
      assert (Hdrop : ∀ t : list Z,
                flash_table ps ++ table_end ps
                ++ drop (length (flash_table ps) + length (table_end ps))
                     (0 :: drop (length line + 1) t)
                = flash_table ps ++ [0]
                  ++ drop (length line + length (flash_table ps) + 1) t).
      { intros t. f_equal. destruct ps as [|q ps].
        - cbn [flash_table fmap list_fmap concat table_end app length].
          rewrite drop_0.
          replace (length line + 0 + 1)%nat with (length line + 1)%nat by lia. done.
        - change (table_end (q :: ps)) with [0]. cbn [app length]. f_equal.
          set (t' := flash_table _).
          replace (length t' + 1)%nat with (S (length t')) by lia.
          cbn [drop]. rewrite drop_drop. f_equal. lia. }
      rewrite !Hdrop. by rewrite <- !app_assoc.
Qed.

(** The partition-table partition: the magic 00 04 00 00, one line per
    flash partition, the byte that the code skips (the NUL of the last
    line, or an indeterminate byte when there is no line), then 0xFF. *)
Lemma make_partition_table_inv u1 u2 names info e :
  make_partition_table u1 names info = Done e →
  let text := flash_table (partitions info) in
  let skipped u := match partitions info with [] => u 4%nat | _ => 0 end in
  (length text + 5 ≤ 0x800)%nat
  ∧ e = {| ip_name := n_partition_table names;
           ip_data := [0x00; 0x04; 0x00; 0x00] ++ text ++ [skipped u1]
                      ++ replicate (0x800 - 5 - length text) 0xFF |}
  ∧ make_partition_table u2 names info
    = Done {| ip_name := n_partition_table names;
              ip_data := [0x00; 0x04; 0x00; 0x00] ++ text ++ [skipped u2]
                         ++ replicate (0x800 - 5 - length text) 0xFF |}.
Proof.
  intros H text skipped. unfold make_partition_table, alloc_image_partition in *.
  cbn [ip_data ip_name] in *. unfold SAFELOADER_PAYLOAD_TABLE_SIZE in *.
  assert (S : ∀ u, ∃ j t, malloc u 2048 = j ++ u 4%nat :: t ∧ length j = 4%nat
                          ∧ length t = 2043%nat).
  { intros u.
    destruct (split_at 4 (malloc u 2048)) as (j & r & E & Lj);
      [rewrite length_malloc; lia|].
    assert (Lr : length r = 2044%nat).
    { apply (f_equal length) in E. rewrite length_malloc, length_app in E. lia. }
    destruct r as [|x t]; [done|]. exists j, t.
    assert (x = u 4%nat) as ->.
    { assert (Hx : malloc u 2048 !! 4%nat = Some x).
      { rewrite E, lookup_app_r by lia. by rewrite Lj. }
      unfold malloc in Hx. rewrite list_lookup_fmap in Hx.
      rewrite lookup_seq_lt in Hx by lia. by injection Hx as <-. }
    split; [done|]. split; [done|]. simpl in Lr. lia. }
  destruct (S u1) as (j1 & t1 & E1 & Lj1 & Lt1).
  destruct (S u2) as (j2 & t2 & E2 & Lj2 & Lt2).
  rewrite E1 in H. rewrite E2.
  rewrite (memcpy_frame0 j1 _ [0; 4; 0; 0]) in H by done.
  rewrite (memcpy_frame0 j2 _ [0; 4; 0; 0]) by done.
  rewrite bind_Done in H. rewrite bind_Done.
  apply bind_Done_inv in H as ([b s'] & Hl & H).
  apply (make_partition_table_lines_inv _ [0; 4; 0; 0] (u1 4%nat :: t1)
           (u2 4%nat :: t2)) in Hl as (-> & Hu & -> & Hl2);
    [|cbn [length]; unfold SAFELOADER_PAYLOAD_TABLE_SIZE; lia | done
     | cbn [length]; lia | done].
  fold text in Hu, H, Hl2 |- *.
  rewrite Hl2, bind_Done. clear Hl2.
  cbn [length] in Hu.
  assert (Hfit : (length text + 5 ≤ 0x800)%nat).
  { destruct (partitions info); cbn [table_end length] in Hu; simpl in *; lia. }
  split; [done|].
  assert (G : ∀ u t, length t = 2043%nat →
    memset (Z.to_nat (4 + Z.of_nat (length text) + 1)) 255
      (Z.to_nat (2048 - (4 + Z.of_nat (length text) + 1)))
      ([0; 4; 0; 0] ++ text ++ table_end (partitions info)
       ++ drop (length text + length (table_end (partitions info))) (u :: t))
    = Done ([0; 4; 0; 0] ++ text
            ++ [match partitions info with [] => u | _ => 0 end]
            ++ replicate (0x800 - 5 - length text) 255)).
  { intros u t Lt. unfold memset.
    assert (E : table_end (partitions info)
                ++ drop (length text + length (table_end (partitions info))) (u :: t)
                = [match partitions info with [] => u | _ => 0 end]
                  ++ drop (length text + 1) (u :: t)).
    { destruct (partitions info) as [|q ps] eqn:Ep; cbn [table_end app length].
      - assert (Et : text = []) by (unfold text; try rewrite Ep; done).
        rewrite Et. cbn [length Nat.add drop]. done.
      - done. }
    rewrite E.
    rewrite (app_assoc text), (app_assoc [0; 4; 0; 0]).
    rewrite <- (app_nil_r (drop _ (u :: t))).
    rewrite (memcpy_frame _ (drop (length text + 1) (u :: t)) []).
    - rewrite app_nil_r, <- !app_assoc.
      replace (Z.to_nat (2048 - (4 + Z.of_nat (length text) + 1)))
        with (0x800 - 5 - length text)%nat by lia.
      done.
    - rewrite !length_app. cbn [length]. lia.
    - rewrite length_drop, length_replicate. cbn [length]. lia. }
  rewrite G in H by done. rewrite G by done.
  rewrite bind_Done in H. injection H as <-. done.
Qed.

Lemma make_soft_version_det u1 u2 gmtime names info rev epoch now1 now2 e :
  epoch ≠ -1 →
  make_soft_version u1 gmtime names info rev epoch now1 = Done e →
  make_soft_version u2 gmtime names info rev epoch now2 = Done e.
Proof.
  intros Hepoch. unfold make_soft_version.
  destruct (soft_version_spec info) as [major minor patch|text].
  - assert (E : (epoch =? -1) = false) by (by apply Z.eqb_neq).
    rewrite E. cbn [negb]. rewrite !bind_Done.
    destruct (gmtime epoch) as [t|]; [|done].
    destruct (soft_ver_compat_level info =? 0);
      apply init_meta_partition_entry_det; lia.
  - apply init_meta_partition_entry_det, wrap32_range.
Qed.

(** The partitions that [build_image] makes depend neither on what
    freshly allocated memory holds nor, with the clock override, on the
    time of the run. *)
Lemma build_partitions_det u1 u2 gmtime kernel rootfs rev jffs2 sysupgrade
    epoch now1 now2 info info' parts :
  epoch ≠ -1 →
  build_partitions u1 gmtime kernel rootfs rev jffs2 sysupgrade epoch now1 info
  = Done (info', parts) →
  partitions info' ≠ [] →
  build_partitions u2 gmtime kernel rootfs rev jffs2 sysupgrade epoch now2 info
  = Done (info', parts).
Proof.
  intros Hepoch H Hne. unfold build_partitions in *.
  destruct (split_firmware _ _ _ _) as [[ps fsp]|]; [|done].
  rewrite bind_Done in *.
  apply bind_Done_inv in H as (p0 & H0 & H).
  apply bind_Done_inv in H as (p1 & H1 & H).
  apply bind_Done_inv in H as (p2 & H2 & H).
  apply bind_Done_inv in H as (p3 & H3 & H).
  apply bind_Done_inv in H as (p4 & H4 & H).
  apply bind_Done_inv in H as (p5 & H5 & H).
  injection H as <- <-. cbn [partitions with_partitions] in Hne.
  apply (make_partition_table_inv u1 u2) in H0 as (_ & -> & ->).
  rewrite bind_Done.
  rewrite (make_soft_version_det u1 u2 _ _ _ _ _ now1 now2 p1 Hepoch H1), bind_Done.
  unfold make_support_list in *.
  rewrite (init_meta_partition_entry_det u1 u2 _ _ _ _ p2 (wrap32_range _) H2), bind_Done.
  rewrite (read_file_det u1 u2 _ _ _ _ p3 H3), bind_Done.
  rewrite (read_file_det u1 u2 _ _ _ _ p4 H4), bind_Done.
  assert (E5 : match extra_para_for (id (with_partitions info ps)) with
               | Some extra_para =>
                   p ← make_extra_para u2 (set_partition_names info)
                         (with_partitions info ps) extra_para 2; Done [p]
               | None => Done []
               end = Done p5).
  { destruct (extra_para_for _) as [x|]; [|done].
    apply bind_Done_inv in H5 as (p & Hp & H5). unfold make_extra_para in *.
    by rewrite (init_meta_partition_entry_det u1 u2 _ _ _ _ p (wrap32_range _) Hp). }
  rewrite E5, bind_Done. cbn [partitions with_partitions].
  destruct ps; done.
Qed.

Lemma generate_factory_image_uninit u1 u2 MD5 info parts :
  generate_factory_image u1 MD5 info parts = generate_factory_image u2 MD5 info parts.
Proof. unfold generate_factory_image. by rewrite !memset_malloc. Qed.

Lemma generate_sysupgrade_image_uninit u1 u2 info parts :
  generate_sysupgrade_image u1 info parts = generate_sysupgrade_image u2 info parts.
Proof.
  unfold generate_sysupgrade_image.
  destruct (find_first_last _ _ _ _ _) as [[[fi ff]|] [[li fl]|]]; try done.
  destruct (negb _); [done|].
  destruct (find_image_partition _ _); [|done].
  by rewrite !memset_malloc.
Qed.

Lemma bcd_digits v : 0 ≤ v ≤ 99 → bcd v = 16 * (v / 10) + v `mod` 10.
Proof.
  intros H. unfold bcd. rewrite (wrap8_small v) by lia.
  apply wrap8_small. Z.div_mod_to_equations. lia.
Qed.

Lemma generate_factory_image_no_flash u MD5 info p parts image :
  partitions info = [] →
  generate_factory_image u MD5 info (p :: parts) = Done image → False.
Proof.
  intros Hnil H. unfold generate_factory_image in H.
  rewrite memset_malloc, bind_Done in H.
  apply bind_Done_inv in H as (i2 & _ & H).
  apply bind_Done_inv in H as (i3 & _ & H).
  apply bind_Done_inv in H as (i4 & H4 & _).
  apply at_offset_inv in H4 as (t & _ & Hput & _).
  rewrite Hnil in Hput. unfold put_partitions in Hput.
  cbn [put_partitions_loop] in Hput. unfold find_flash_partition in Hput.
  cbn [list_find fmap option_fmap option_map] in Hput. done.
Qed.

(** ** Round trip of the image partition table (C6) *)

Lemma hex_digits_nibbles fuel n : hex_digits fuel n = hex_digit <$> nibbles fuel n.
Proof.
  revert n. induction fuel as [|fuel IH]; intros n; [done|].
  cbn [hex_digits nibbles]. rewrite fmap_app. cbn [fmap list_fmap].
  destruct (n <? 16); [done|]. by rewrite IH.
Qed.

Lemma nibbles_range fuel n : 0 ≤ n → Forall (λ d, 0 ≤ d < 16) (nibbles fuel n).
Proof.
  revert n. induction fuel as [|fuel IH]; intros n Hn; [constructor|].
  cbn [nibbles]. apply Forall_app. split.
  - destruct (n <? 16); [constructor|]. apply IH. apply Z.div_pos; lia.
  - constructor; [|constructor]. apply Z.mod_pos_bound. lia.
Qed.

Lemma nibbles_value_app acc a b :
  nibbles_value acc (a ++ b) = nibbles_value (nibbles_value acc a) b.
Proof. unfold nibbles_value. apply foldl_app. Qed.

Lemma nibbles_value_nibbles fuel n :
  0 ≤ n < 16 ^ Z.of_nat fuel → nibbles_value 0 (nibbles fuel n) = n.
Proof.
  revert n. induction fuel as [|fuel IH]; intros n Hn.
  - simpl in Hn. cbn. lia.
  - cbn [nibbles]. rewrite nibbles_value_app.
    rewrite Nat2Z.inj_succ, Z.pow_succ_r in Hn by lia.
    destruct (n <? 16) eqn:E.
    + apply Z.ltb_lt in E. cbn. rewrite Z.mod_small by lia. lia.
    + apply Z.ltb_ge in E. rewrite IH.
      * cbn. Z.div_mod_to_equations. lia.
      * split; [apply Z.div_pos; lia|]. apply Z.div_lt_upper_bound; lia.
Qed.

Lemma nibbles_value_zeros k ds :
  nibbles_value 0 (replicate k 0 ++ ds) = nibbles_value 0 ds.
Proof.
  rewrite nibbles_value_app. f_equal.
  induction k as [|k IH]; [done|]. cbn. apply IH.
Qed.

Lemma nibbles_value_bound ds acc :
  Forall (λ d, 0 ≤ d < 16) ds → 0 ≤ acc →
  acc ≤ nibbles_value acc ds.
Proof.
  revert acc. induction ds as [|d ds IH]; intros acc Hds Hacc; [cbn; lia|].
  apply Forall_cons_1 in Hds as [Hd Hds]. cbn.
  etrans; [|apply IH; [done|lia]]. lia.
Qed.

Lemma fmt_05x_nibbles v : fmt_05x v = hex_digit <$> fmt_nibbles v.
Proof.
  unfold fmt_05x, fmt_nibbles. rewrite hex_digits_nibbles, fmap_app, length_fmap.
  f_equal. by rewrite fmap_replicate.
Qed.

Lemma fmt_nibbles_range v : Forall (λ d, 0 ≤ d < 16) (fmt_nibbles v).
Proof.
  unfold fmt_nibbles. apply Forall_app. split.
  - apply Forall_replicate. lia.
  - apply nibbles_range. apply wrap32_range.
Qed.

Lemma fmt_nibbles_value v : nibbles_value 0 (fmt_nibbles v) = wrap32 v.
Proof.
  unfold fmt_nibbles. rewrite nibbles_value_zeros.
  apply nibbles_value_nibbles. pose proof (wrap32_range v).
  change (16 ^ Z.of_nat 8) with (2 ^ 32). lia.
Qed.

Lemma digit_value_hex_digit d : 0 ≤ d < 16 → digit_value (hex_digit d) = Some d.
Proof.
  intros H. unfold hex_digit, digit_value.
  destruct (d <? 10) eqn:E.
  - apply Z.ltb_lt in E.
    replace ((48 <=? 48 + d) && (48 + d <=? 57)) with true; [f_equal; lia|].
    symmetry. apply andb_true_iff. split; apply Z.leb_le; lia.
  - apply Z.ltb_ge in E.
    replace ((48 <=? 87 + d) && (87 + d <=? 57)) with false.
    + replace ((97 <=? 87 + d) && (87 + d <=? 122)) with true; [f_equal; lia|].
      symmetry. apply andb_true_iff. split; apply Z.leb_le; lia.
    + symmetry. apply andb_false_iff. right. apply Z.leb_gt. lia.
Qed.

Lemma hex_digit_char d :
  0 ≤ d < 16 → hex_digit d ≠ 0 ∧ hex_digit d ≠ 0x20 ∧ hex_digit d ≠ 0x0A.
Proof. intros H. unfold hex_digit. destruct (d <? 10); lia. Qed.

(** [strtoul_digits] reads a run of hexadecimal digits up to the first
    byte that is not a digit. *)
Lemma strtoul_digits_hex ds : ∀ acc c rest,
  Forall (λ d, 0 ≤ d < 16) ds → 0 ≤ acc →
  nibbles_value acc ds ≤ ULONG_MAX →
  digit_value c = None →
  strtoul_digits 16 ((hex_digit <$> ds) ++ c :: rest) acc false
  = (nibbles_value acc ds, false).
Proof.
  induction ds as [|d ds IH]; intros acc c rest Hds Hacc Hmax Hc.
  - cbn. by rewrite Hc.
  - apply Forall_cons_1 in Hds as [Hd Hds].
    cbn [fmap list_fmap app strtoul_digits].
    rewrite digit_value_hex_digit by done.
    destruct (d <? 16) eqn:E; [|apply Z.ltb_ge in E; lia].
    change (nibbles_value acc (d :: ds))
      with (nibbles_value (acc * 16 + d) ds) in Hmax.
    pose proof (nibbles_value_bound ds (acc * 16 + d) Hds ltac:(lia)).
    destruct (ULONG_MAX <? acc * 16 + d) eqn:E2; [apply Z.ltb_lt in E2; lia|].
    rewrite IH; try done. lia.
Qed.

Lemma strtoul_0x s :
  strtoul (48 :: 120 :: s) 16
  = (let '(v, overflow) := strtoul_digits 16 s 0 false in
     if overflow then ULONG_MAX else v).
Proof. reflexivity. Qed.

(** [strtoul] reads back what ["0x%05x"] printed. *)
Lemma strtoul_fmt v c rest :
  digit_value c = None →
  strtoul (cstr "0x" ++ fmt_05x v ++ c :: rest) 16 = wrap32 v.
Proof.
  intros Hc.
  change (cstr "0x" ++ fmt_05x v ++ c :: rest) with (48 :: 120 :: (fmt_05x v ++ c :: rest)).
  rewrite strtoul_0x, fmt_05x_nibbles.
  pose proof (wrap32_range v) as Hr.
  rewrite (strtoul_digits_hex (fmt_nibbles v) 0 c rest);
    [by rewrite fmt_nibbles_value | apply fmt_nibbles_range | lia | | done].
  rewrite fmt_nibbles_value. unfold ULONG_MAX.
  change (2 ^ 32) with 4294967296 in Hr. lia.
Qed.

Lemma memchr_token (tok rest : list Z) (c : Z) (n : nat) :
  Forall (λ x, x ≠ c) tok → (length tok < n)%nat →
  memchr (tok ++ c :: rest) c n = Some (length tok).
Proof.
  unfold memchr. revert n. induction tok as [|x tok IH]; intros n Htok Hn.
  - destruct n; [simpl in Hn; lia|]. cbn. by rewrite decide_True.
  - apply Forall_cons_1 in Htok as [Hx Htok].
    destruct n; [simpl in Hn; lia|]. cbn [app take list_find].
    rewrite decide_False by done.
    specialize (IH n Htok ltac:(simpl in Hn; lia)).
    destruct (list_find _ _) as [[i y]|]; [|done].
    cbn in IH |- *. injection IH as ->. done.
Qed.

Lemma strz_no_nul s : Forall (λ c, c ≠ 0) s → strz s = s.
Proof.
  induction 1 as [|c s Hc Hs IH]; [done|]. cbn.
  destruct (c =? 0) eqn:E; [apply Z.eqb_eq in E; done|]. by rewrite IH.
Qed.

(** One iteration of the [for] loop on a line whose next element is
    [tok], followed by a space. *)
Lemma read_elements_step i steps max_entries st (tok rest : list Z) (m : nat) :
  ls_ptr st = tok ++ 0x20 :: rest →
  Forall (λ x, x ≠ 0x20) tok →
  ls_to_end_part st = (length tok + S m)%nat →
  read_elements (i :: steps) max_entries st
  = match i with
    | 1%nat =>
        read_elements steps max_entries
          {| ls_ptr := rest; ls_to_end_part := m;
             ls_name := strz (take (if bool_decide (31 < length tok)%nat
                                    then 31%nat else length tok) (ls_ptr st));
             ls_base := ls_base st; ls_entries := ls_entries st |}
    | 3%nat =>
        read_elements steps max_entries
          {| ls_ptr := rest; ls_to_end_part := m; ls_name := ls_name st;
             ls_base := strtoul (ls_ptr st) 16; ls_entries := ls_entries st |}
    | 4%nat =>
        entries ← add_flash_partition (ls_entries st) max_entries
                    (ls_name st) (ls_base st) (strtoul rest 16);
        read_elements steps max_entries
          {| ls_ptr := drop (S (ls_to_end_part st)) (ls_ptr st); ls_to_end_part := 0;
             ls_name := ls_name st; ls_base := ls_base st; ls_entries := entries |}
    | _ =>
        read_elements steps max_entries
          {| ls_ptr := rest; ls_to_end_part := m; ls_name := ls_name st;
             ls_base := ls_base st; ls_entries := ls_entries st |}
    end.
Proof.
  intros Hptr Htok Hn. cbn [read_elements].
  rewrite bool_decide_false by lia.
  rewrite Hptr at 1. rewrite (memchr_token tok rest 0x20) by (done || lia).
  assert (Hd : drop (S (length tok)) (ls_ptr st) = rest).
  { rewrite Hptr. change (tok ++ 32 :: rest) with (tok ++ [32] ++ rest).
    rewrite app_assoc. apply drop_app_length'. rewrite length_app. simpl. lia. }
  rewrite Hd.
  replace (ls_to_end_part st - S (length tok))%nat with m by lia.
  done.
Qed.

(** The [for] loop on one well-formed line: [hdr name "base" b "size" s]
    and the line feed. *)
Lemma read_elements_line max_entries (hdr name bs ss tl : list Z) (name0 : list Z)
    (base0 : Z) (entries : list flash_partition_entry) (n : nat) :
  Forall (λ x, x ≠ 0x20) hdr → table_name name → Forall (λ x, x ≠ 0x20) bs →
  n = length (hdr ++ 0x20 :: name ++ 0x20 :: cstr "base" ++ 0x20 :: bs
              ++ 0x20 :: cstr "size" ++ 0x20 :: ss) →
  read_elements [0; 1; 2; 3; 4]%nat max_entries
    {| ls_ptr := hdr ++ 0x20 :: name ++ 0x20 :: cstr "base" ++ 0x20 :: bs
                 ++ 0x20 :: cstr "size" ++ 0x20 :: ss ++ 10 :: tl;
       ls_to_end_part := n; ls_name := name0; ls_base := base0;
       ls_entries := entries |}
  = (entries ← add_flash_partition entries max_entries name
                 (strtoul (bs ++ 0x20 :: cstr "size" ++ 0x20 :: ss ++ 10 :: tl) 16)
                 (strtoul (ss ++ 10 :: tl) 16);
     Done {| ls_ptr := tl; ls_to_end_part := 0; ls_name := name;
             ls_base := strtoul (bs ++ 0x20 :: cstr "size" ++ 0x20 :: ss ++ 10 :: tl) 16;
             ls_entries := entries |}).
Proof.
  intros Hhdr [Hlen Hname] Hbs ->.
  assert (Hn1 : Forall (λ x, x ≠ 0x20) name).
  { eapply Forall_impl; [exact Hname|]. by intros c (_ & ? & _). }
  assert (Hn0 : Forall (λ x, x ≠ 0) name).
  { eapply Forall_impl; [exact Hname|]. by intros c (? & _). }
  assert (Hk : Forall (λ x : Z, x ≠ 0x20) (cstr "base")).
  { repeat constructor; discriminate. }
  assert (Hk2 : Forall (λ x : Z, x ≠ 0x20) (cstr "size")).
  { repeat constructor; discriminate. }
  erewrite (read_elements_step 0 _ _ _ hdr); [|reflexivity|done|].
  2:{ cbn [ls_to_end_part]. rewrite length_app. cbn [length]. reflexivity. }
  erewrite (read_elements_step 1 _ _ _ name); [|reflexivity|done|].
  2:{ cbn [ls_to_end_part]. rewrite length_app. cbn [length]. reflexivity. }
  cbn [ls_ptr ls_name ls_base ls_entries].
  rewrite bool_decide_false by lia. rewrite take_app_length, strz_no_nul by done.
  erewrite (read_elements_step 2 _ _ _ (cstr "base")); [|reflexivity|done|].
  2:{ cbn [ls_to_end_part]. rewrite length_app. cbn [length]. reflexivity. }
  cbn [ls_ptr ls_name ls_base ls_entries].
  erewrite (read_elements_step 3 _ _ _ bs); [|reflexivity|done|].
  2:{ cbn [ls_to_end_part]. rewrite length_app. cbn [length]. reflexivity. }
  cbn [ls_ptr ls_name ls_base ls_entries].
  erewrite (read_elements_step 4 _ _ _ (cstr "size")); [|reflexivity|done|].
  2:{ cbn [ls_to_end_part]. rewrite length_app. cbn [length]. reflexivity. }
  cbn [ls_ptr ls_name ls_base ls_entries ls_to_end_part].
  destruct (add_flash_partition _ _ _ _ _) as [es|f]; [|done].
  rewrite !bind_Done. cbn [read_elements]. do 2 f_equal.
  change (cstr "size" ++ 32 :: ss ++ 10 :: tl)
    with ((cstr "size" ++ [32]) ++ ss ++ [10] ++ tl).
  rewrite (app_assoc _ ss), (app_assoc _ [10]).
  apply drop_app_length'. rewrite !length_app. simpl. lia.
Qed.

Lemma fwup_line_tokens name base size tl :
  fwup_ptn_line name base size ++ tl
  = cstr "fwup-ptn" ++ 0x20 :: name ++ 0x20 :: cstr "base" ++ 0x20
    :: (cstr "0x" ++ fmt_05x base) ++ 0x20 :: cstr "size" ++ 0x20
    :: (cstr "0x" ++ fmt_05x size ++ [9; 13]) ++ 10 :: tl.
Proof. unfold fwup_ptn_line. rewrite <- !app_assoc. reflexivity. Qed.

Lemma fmt_05x_chars v :
  Forall (λ c, c ≠ 0 ∧ c ≠ 0x20 ∧ c ≠ 0x0A) (fmt_05x v).
Proof.
  rewrite fmt_05x_nibbles. apply Forall_fmap.
  eapply Forall_impl; [apply fmt_nibbles_range|].
  intros d Hd. by apply hex_digit_char.
Qed.

Lemma wrap32_idemp x : wrap32 (wrap32 x) = wrap32 x.
Proof. apply wrap32_small, wrap32_range. Qed.

(** The [while] loop reads back the lines that the encoder wrote, up to
    whatever follows them, provided that does not look like a line. *)
Lemma read_lines_fwup parts :
  ∀ fuel base entries sfx,
    Forall (λ p, table_name (ip_name p)) parts →
    Z.of_nat (length entries + length parts) ≤ MAX_PARTITIONS →
    (length parts < fuel)%nat →
    bool_decide (length (cstr "fwup-ptn") < length sfx)%nat
    && bool_decide (take (length (cstr "fwup-ptn")) sfx = cstr "fwup-ptn") = false →
    read_lines fuel (cstr "fwup-ptn") MAX_PARTITIONS (fwup_table base parts ++ sfx) entries
    = Done (entries ++ fwup_entries base parts).
Proof.
  induction parts as [|p parts IH]; intros fuel base entries sfx Hnames Hroom Hfuel Hsfx.
  - destruct fuel; [simpl in Hfuel; lia|]. cbn [fwup_table app read_lines fwup_entries].
    rewrite Hsfx. by rewrite app_nil_r.
  - apply Forall_cons_1 in Hnames as [Hname Hnames].
    destruct fuel; [simpl in Hfuel; lia|].
    cbn [fwup_table fwup_entries]. rewrite <- app_assoc.
    set (tl := fwup_table (base + ip_size p) parts ++ sfx).
    rewrite fwup_line_tokens.
    set (bs := cstr "0x" ++ fmt_05x base).
    set (ss := cstr "0x" ++ fmt_05x (ip_size p) ++ [9; 13]).
    set (body := cstr "fwup-ptn" ++ 0x20 :: ip_name p ++ 0x20 :: cstr "base" ++ 0x20
                 :: bs ++ 0x20 :: cstr "size" ++ 0x20 :: ss).
    assert (Hbody : cstr "fwup-ptn" ++ 0x20 :: ip_name p ++ 0x20 :: cstr "base" ++ 0x20
                    :: bs ++ 0x20 :: cstr "size" ++ 0x20 :: ss ++ 10 :: tl
                    = body ++ 10 :: tl).
    { unfold body. repeat first [rewrite <- app_assoc | progress (cbn [app])].
      reflexivity. }
    destruct Hname as [Hnlen Hnchars].
    assert (Hbs : Forall (λ c, c ≠ 0 ∧ c ≠ 0x20 ∧ c ≠ 0x0A) bs).
    { unfold bs. apply Forall_app. split; [|apply fmt_05x_chars].
      repeat constructor; discriminate. }
    assert (Hss : Forall (λ c, c ≠ 0x0A) ss).
    { unfold ss. apply Forall_app. split; [repeat constructor; discriminate|].
      apply Forall_app. split; [|repeat constructor; discriminate].
      eapply Forall_impl; [apply fmt_05x_chars|]. by intros c (_ & _ & ?). }
    assert (Hlf : Forall (λ c, c ≠ 10) body).
    { unfold body.
      apply Forall_app; split; [repeat constructor; discriminate|].
      apply Forall_cons; split; [discriminate|].
      apply Forall_app; split.
      { eapply Forall_impl; [exact Hnchars|]. by intros c (_ & _ & ?). }
      apply Forall_cons; split; [discriminate|].
      apply Forall_app; split; [repeat constructor; discriminate|].
      apply Forall_cons; split; [discriminate|].
      apply Forall_app; split.
      { eapply Forall_impl; [exact Hbs|]. by intros c (_ & _ & ?). }
      apply Forall_cons; split; [discriminate|].
      apply Forall_app; split; [repeat constructor; discriminate|].
      apply Forall_cons; split; [discriminate|]. exact Hss. }
    rewrite Hbody. cbn [read_lines].
    assert (C1 : (length (cstr "fwup-ptn") < length (body ++ 10%Z :: tl))%nat).
    { unfold body. rewrite !length_app. cbn [length]. lia. }
    assert (C2 : take (length (cstr "fwup-ptn")) (body ++ 10 :: tl) = cstr "fwup-ptn").
    { unfold body. rewrite <- app_assoc. apply take_app_length. }
    rewrite (bool_decide_true _ C1), (bool_decide_true _ C2). cbn [andb].
    rewrite (memchr_token body tl 10) by (done || rewrite length_app; cbn [length]; lia).
    rewrite <- Hbody.
    rewrite (read_elements_line MAX_PARTITIONS (cstr "fwup-ptn") (ip_name p) bs ss tl);
      [|repeat constructor; discriminate | done
       |eapply Forall_impl; [exact Hbs|]; by intros c (_ & ? & _) | done].
    unfold bs at 1 2. rewrite <- !app_assoc.
    rewrite (strtoul_fmt base 0x20) by done.
    unfold ss at 1. rewrite <- !app_assoc. cbn [app].
    rewrite (strtoul_fmt (ip_size p) 9) by done.
    unfold add_flash_partition.
    destruct (Z.of_nat (length entries) <? MAX_PARTITIONS) eqn:E.
    2:{ apply Z.ltb_ge in E. rewrite length_cons in Hroom. lia. }
    cbn [negb]. rewrite !bind_Done. cbn [ls_ptr ls_entries].
    rewrite !wrap32_idemp. unfold tl.
    rewrite (IH fuel (base + ip_size p)); try done.
    + by rewrite <- app_assoc.
    + rewrite length_app. cbn [length] in *. lia.
    + cbn [length] in Hfuel. lia.
Qed.

(** With an offset that [fseek] accepts, [read_partition_table] goes on
    to the read. *)
Lemma read_partition_table_seek (file : list Z) (offset : Z)
    (entries : list flash_partition_entry) (max_entries : Z)
    (type : PARTITION_TABLE_TYPE) :
  0 ≤ offset →
  read_partition_table file offset entries max_entries type
  = match fread_at file offset (Z.to_nat SAFELOADER_PAYLOAD_TABLE_SIZE) with
    | None => Fail (Exit "Can not read fwup-ptn from the firmware")
    | Some buf =>
        let buf := <[Z.to_nat (SAFELOADER_PAYLOAD_TABLE_SIZE - 1) := 0]> buf in
        if negb (bool_decide (take (length (parthdr_of type)) buf = parthdr_of type))
        then Done (1, entries)
        else
          entries ← read_lines (length buf) (parthdr_of type) max_entries buf entries;
          Done (0, entries)
    end.
Proof.
  intros H. unfold read_partition_table.
  destruct (Z.ltb_spec offset 0); [lia|done].
Qed.

Lemma fread_at_start (file : list Z) (n : nat) :
  (n ≤ length file)%nat → fread_at file 0 n = Some (take n file).
Proof.
  intros H. unfold fread_at. simpl. rewrite sublist_lookup_Some by (simpl; lia).
  by rewrite drop_0.
Qed.

(** On a region that was filled with 0xFF, the table text and its NUL
    are followed by 0xFF up to the end of the region. *)
Lemma put_partitions_ff (rest : list Z) (flash : list flash_partition_entry)
    (parts : list image_partition_entry) (buf' : list Z) :
  put_partitions (replicate 0x800 0xFF ++ rest) flash parts = Done buf' →
  let text := fwup_table 0x800 parts in
  (length text + length (table_end parts) ≤ 0x800)%nat
  ∧ take 0x800 buf' = text ++ table_end parts
      ++ replicate (0x800 - (length text + length (table_end parts))) 0xFF.
Proof.
  intros Hrun text.
  apply put_partitions_inv in Hrun as (H1 & H2 & -> & H4);
    [|apply length_replicate].
  change (fwup_table SAFELOADER_PAYLOAD_TABLE_SIZE parts) with text in *.
  rewrite length_replicate in H1.
  split; [done|].
  rewrite take_app_length'; [by rewrite drop_replicate|].
  rewrite !length_app, length_drop, length_replicate. lia.
Qed.

(** C6 (as amended). For every partition sequence that the image-table
    encoder accepts, with names of at most 31 bytes that contain neither
    space nor line feed, with at most 32 partitions, and with the table
    region filled with 0xFF beforehand as factory assembly does, decoding
    the table that it wrote yields the (name, base, size) sequence of the
    table, in the same order: the names, the bases where the partitions
    were put and their sizes, as the u32 values that were printed. *)
Theorem fwup_table_round_trip (rest : list Z) (flash : list flash_partition_entry)
    (parts : list image_partition_entry) (buf' : list Z) :
  put_partitions (replicate 0x800 0xFF ++ rest) flash parts = Done buf' →
  Forall (λ p, table_name (ip_name p)) parts →
  Z.of_nat (length parts) ≤ MAX_PARTITIONS →
  ∃ r, read_partition_table buf' 0 [] MAX_PARTITIONS PARTITION_TABLE_FWUP
       = Done (r, fwup_entries 0x800 parts)
       ∧ (parts ≠ [] → r = 0).
Proof.
  intros Hput Hnames Hcount.
  destruct (put_partitions_ff rest flash parts buf' Hput) as (Hused & Htake).
  assert (Hlen : (0x800 ≤ length buf')%nat).
  { apply (f_equal length) in Htake. rewrite length_take in Htake.
    rewrite !length_app, length_replicate in Htake. lia. }
  rewrite read_partition_table_seek by done. cbv zeta.
  change (Z.to_nat SAFELOADER_PAYLOAD_TABLE_SIZE) with 0x800%nat.
  rewrite fread_at_start by done. rewrite Htake.
  change (Z.to_nat (SAFELOADER_PAYLOAD_TABLE_SIZE - 1)) with 0x7ff%nat.
  change (parthdr_of PARTITION_TABLE_FWUP) with (cstr "fwup-ptn").
  destruct parts as [|p parts].
  - exists 1. split; [|done].
    cbn [fwup_table table_end app length fwup_entries].
    rewrite take_insert_ge by (simpl; lia).
    rewrite take_replicate. done.
  - exists 0. split; [|done].
    set (text := fwup_table 0x800 (p :: parts)) in *.
    change (table_end (p :: parts)) with [0] in *.
    set (k := (0x800 - (length text + length [0]))%nat).
    cbn [length] in Hused.
    rewrite insert_app_r_alt by lia.
    match goal with
    | |- context [<[?i := 0]> ?l] => set (X := <[i := 0]> l)
    end.
    assert (LX : length X = S k).
    { unfold X. rewrite length_insert, length_app, length_replicate. done. }
    assert (HX : ∃ Y, X = 0 :: Y).
    { unfold X. destruct (0x7ff - length text)%nat; by eexists. }
    destruct HX as [Y HY]. rewrite HY in *. clear X HY.
    assert (Hhdr : take (length (cstr "fwup-ptn")) (text ++ 0 :: Y) = cstr "fwup-ptn").
    { unfold text. cbn [fwup_table]. rewrite <- app_assoc, fwup_line_tokens.
      apply take_app_length. }
    rewrite (bool_decide_true _ Hhdr). cbn [negb].
    rewrite (read_lines_fwup (p :: parts) _ 0x800 [] (0 :: Y)); [done|done| | |].
    + cbn [length Nat.add]. done.
    + rewrite length_app, LX. unfold k. cbn [length].
      unfold MAX_PARTITIONS in Hcount. cbn [length] in Hcount. lia.
    + apply andb_false_iff. right. apply bool_decide_eq_false.
      cbn [length take]. discriminate.
Qed.

Lemma fwup_table_round_trip_witness :
  ∃ buf' r,
    put_partitions (replicate 0x800 0xFF ++ replicate 5 0xFF) example_flash example_parts
    = Done buf'
    ∧ read_partition_table buf' 0 [] MAX_PARTITIONS PARTITION_TABLE_FWUP
      = Done (r, [{| fp_name := cstr "os-image"; fp_base := 0x800; fp_size := 2 |};
                  {| fp_name := cstr "file-system"; fp_base := 0x802; fp_size := 3 |}]).
Proof.
  destruct (put_partitions (replicate 0x800 0xFF ++ replicate 5 0xFF) example_flash
              example_parts) as [buf'|f] eqn:E; [|vm_compute in E; discriminate E].
  destruct (fwup_table_round_trip (replicate 5 0xFF) example_flash example_parts buf' E)
    as (r & Hr & _).
  - repeat constructor; try (simpl; lia); discriminate.
  - vm_compute. discriminate.
  - exists buf', r. split; [reflexivity | exact Hr].
Defined.

(** C6 as the spec states it fails: a name of three bytes without a
    space, but with a line feed, is accepted by the encoder and makes the
    decoder exit on the table. *)
Lemma fwup_table_line_feed :
  ∃ buf',
    put_partitions (replicate 0x800 0xFF ++ [0xFF])
      [{| fp_name := [97; 10; 98]; fp_base := 0; fp_size := 1 |}]
      [{| ip_name := [97; 10; 98]; ip_data := [7] |}] = Done buf'
    ∧ (length [97; 10; 98] ≤ 31)%nat
    ∧ (0x20 ∉ [97; 10; 98])
    ∧ read_partition_table buf' 0 [] MAX_PARTITIONS PARTITION_TABLE_FWUP
      = Fail (Exit "Ignoring the rest of the partition entries.").
Proof.
  eexists. split; [vm_compute; reflexivity|].
  split; [simpl; lia|]. split; [|vm_compute; reflexivity].
  intros H. repeat (apply elem_of_cons in H as [H|H]; [discriminate H|]).
  by apply elem_of_nil in H.
Qed.

Lemma sysupgrade_image_layout_witness :
  ∃ image fi ff li fl image_last,
    generate_sysupgrade_image (λ _, 0)
      (with_partitions example_profile example_flash) example_parts = Done image
    ∧ (fi < li)%nat
    ∧ Z.of_nat (length image)
      = wrap32 (fp_base fl - fp_base ff) + ip_size image_last.
Proof.
  destruct (generate_sysupgrade_image (λ _, 0)
              (with_partitions example_profile example_flash) example_parts)
    as [image|f] eqn:E; [|vm_compute in E; discriminate E].
  destruct (proj1 (sysupgrade_image_layout (λ _, 0)
                     (with_partitions example_profile example_flash) example_parts)
              image E)
    as (fi & ff & li & fl & image_last & _ & _ & _ & _ & Hlt & _ & Hlen & _).
  exists image, fi, ff, li, fl, image_last. split; [reflexivity|]. split; assumption.
Defined.


(** ** The converter (C10) *)

Lemma fwrite_fwrite (a b : list Z) (f : stream) :
  fwrite b (fwrite a f) = fwrite (a ++ b) f.
Proof.
  unfold fwrite. cbn [content position].
  set (c := content f ++ replicate (position f - length (content f)) 0).
  assert (Lc : (position f ≤ length c)%nat).
  { unfold c. rewrite length_app, length_replicate. lia. }
  assert (Lt : length (take (position f) c) = position f)
    by (rewrite length_take; lia).
  set (c1 := take (position f) c ++ a ++ drop (position f + length a) c).
  assert (L1 : (position f + length a ≤ length c1)%nat).
  { unfold c1. rewrite !length_app, length_drop. lia. }
  replace (position f + length a - length c1)%nat with 0%nat by lia.
  cbn [replicate]. rewrite app_nil_r, length_app, Nat.add_assoc.
  assert (T : take (position f + length a) c1 = take (position f) c ++ a).
  { unfold c1. rewrite app_assoc. apply take_app_length'. rewrite length_app. lia. }
  assert (D : drop (position f + length a + length b) c1
              = drop (position f + length a + length b) c).
  { unfold c1. rewrite app_assoc.
    rewrite drop_app_ge by (rewrite length_app; lia).
    rewrite length_app, drop_drop. f_equal. lia. }
  rewrite T, D, <- !app_assoc. done.
Qed.

(** [write_ff] writes [size] bytes 0xFF, whatever their number. *)
Lemma write_ff_chunks_all fuel : ∀ offset size out,
  0 ≤ offset < size → (size - offset) / 4096 < Z.of_nat fuel →
  write_ff_chunks fuel offset size out
  = Done (fwrite (replicate (Z.to_nat (size - offset)) 0xff) out).
Proof.
  induction fuel as [|fuel IH]; intros offset size out Ho Hf.
  - pose proof (Z.div_pos (size - offset) 4096). lia.
  - cbn [write_ff_chunks].
    destruct (offset + 4096 <? size) eqn:E.
    + apply Z.ltb_lt in E. rewrite IH.
      * rewrite fwrite_fwrite. do 2 f_equal.
        rewrite <- replicate_add. f_equal. lia.
      * lia.
      * assert ((size - offset) / 4096 = (size - (offset + 4096)) / 4096 + 1).
        { replace (size - offset) with (size - (offset + 4096) + 1 * 4096) by lia.
          by rewrite Z.div_add by lia. }
        lia.
    + destruct (offset <? size) eqn:E2; [done|]. apply Z.ltb_ge in E2. lia.
Qed.

Lemma write_ff_all out size :
  write_ff out size
  = Done (if 0 <? size then fwrite (replicate (Z.to_nat size) 0xff) out else out).
Proof.
  unfold write_ff. destruct (0 <? size) eqn:E.
  - apply Z.ltb_lt in E. rewrite write_ff_chunks_all.
    + by rewrite Z.sub_0_r.
    + lia.
    + rewrite Z.sub_0_r.
      pose proof (Z.div_pos size 4096). lia.
  - apply Z.ltb_ge in E. cbn [write_ff_chunks].
    destruct (0 + 4096 <? size) eqn:E1; [apply Z.ltb_lt in E1; lia|].
    destruct (0 <? size) eqn:E2; [apply Z.ltb_lt in E2; lia|]. done.
Qed.

Lemma fread_at_slice (input data : list Z) (start off : Z) (n total : nat) :
  0 ≤ start → 0 ≤ off → (Z.to_nat off + n ≤ total)%nat →
  fread_at input start total = Some data →
  fread_at input (start + off) n = Some (take n (drop (Z.to_nat off) data)).
Proof.
  intros Hs Ho Hn. unfold fread_at.
  destruct (start <? 0) eqn:E; [apply Z.ltb_lt in E; lia|].
  destruct (start + off <? 0) eqn:E2; [apply Z.ltb_lt in E2; lia|].
  intros H. apply sublist_lookup_Some' in H as [-> Hlen].
  rewrite sublist_lookup_Some by lia. f_equal.
  apply list_eq. intros i. rewrite !lookup_take.
  destruct (decide (i < n)%nat); [|done].
  rewrite !lookup_drop, lookup_take, decide_True by lia.
  rewrite lookup_drop. f_equal. lia.
Qed.

(** [write_partition] copies the bytes of the partition to the output,
    whatever their number. *)
Lemma write_partition_chunks_all input data start size fuel : ∀ offset out,
  0 ≤ start → 0 ≤ offset < size →
  fread_at input start (Z.to_nat size) = Some data →
  (size - offset) / 4096 < Z.of_nat fuel →
  write_partition_chunks fuel input start offset size out
  = Done (fwrite (drop (Z.to_nat offset) data) out).
Proof.
  intros offset out Hs Ho Hd. revert offset out Ho.
  assert (Ld : length data = Z.to_nat size).
  { unfold fread_at in Hd. destruct (start <? 0); [done|].
    by apply sublist_lookup_length in Hd. }
  induction fuel as [|fuel IH]; intros offset out Ho Hf.
  - pose proof (Z.div_pos (size - offset) 4096). lia.
  - cbn [write_partition_chunks].
    destruct (4096 + offset <=? size) eqn:E.
    + apply Z.leb_le in E.
      rewrite (fread_at_slice input data start offset 4096 (Z.to_nat size)) by (done || lia).
      destruct (decide (offset + 4096 = size)) as [Heq|Hne].
      * destruct fuel as [|fuel'].
        -- exfalso.
           assert ((size - offset) / 4096 = 1)
             by (replace (size - offset) with (1 * 4096) by lia; apply Z.div_mul; lia).
           lia.
        -- cbn [write_partition_chunks].
           destruct (4096 + (offset + 4096) <=? size) eqn:E1;
             [apply Z.leb_le in E1; lia|].
           destruct (offset + 4096 <? size) eqn:E2; [apply Z.ltb_lt in E2; lia|].
           do 2 f_equal. apply take_ge. rewrite length_drop. lia.
      * rewrite IH.
        -- rewrite fwrite_fwrite. do 2 f_equal.
           replace (Z.to_nat (offset + 4096)) with (Z.to_nat offset + 4096)%nat by lia.
           rewrite <- drop_drop. apply take_drop.
        -- lia.
        -- assert ((size - offset) / 4096 = (size - (offset + 4096)) / 4096 + 1).
           { replace (size - offset) with (size - (offset + 4096) + 1 * 4096) by lia.
             by rewrite Z.div_add by lia. }
           lia.
    + apply Z.leb_gt in E.
      destruct (offset <? size) eqn:E2; [|apply Z.ltb_ge in E2; lia].
      rewrite (fread_at_slice input data start offset _ (Z.to_nat size)) by (done || lia).
      do 2 f_equal. apply take_ge. rewrite length_drop. lia.
Qed.

Lemma write_partition_all input firmware_offset entry data out :
  0 ≤ fp_base entry + firmware_offset → 0 < fp_size entry →
  fread_at input (fp_base entry + firmware_offset) (Z.to_nat (fp_size entry)) = Some data →
  write_partition input firmware_offset entry out = Done (fwrite data out).
Proof.
  intros Hs Hsz Hd. unfold write_partition.
  rewrite (write_partition_chunks_all input data) by
    (done || lia || (rewrite Z.sub_0_r; pose proof (Z.div_pos (fp_size entry) 4096); lia)).
  done.
Qed.

Lemma fread_at_nonneg input start n data :
  fread_at input start n = Some data → 0 ≤ start.
Proof.
  unfold fread_at. destruct (start <? 0) eqn:E; [done|]. apply Z.ltb_ge in E. done.
Qed.

(** C10. The converter compares no size of the image table with the flash
    table: on an image whose tables are found and whose partitions are
    present, and whose image-table os-image entry is larger than the
    os-image slot of the flash table, it runs to the end; the 0xFF padding
    written after the os-image bytes has length
    (flash_os_image.size - fwup_os_image.size) modulo 2^32, that is
    2^32 minus the excess, and the file-system bytes are then written at
    flash_file_system.base - flash_os_image.base. *)
Theorem convert_firmware_padding (input : list Z) (info : safeloader_image_info)
    (fwup_os_image fwup_file_system fwup_partition_table : flash_partition_entry)
    (flash : list flash_partition_entry)
    (flash_os_image flash_file_system : flash_partition_entry)
    (os_data fs_data : list Z) :
  safeloader_parse_image input = Done info →
  find_partition_or_exit (image_entries info) MAX_PARTITIONS (cstr "os-image")
    "Error can not find os-image partition (fwup)" = Done fwup_os_image →
  find_partition_or_exit (image_entries info) MAX_PARTITIONS (cstr "file-system")
    "Error can not find file-system partition (fwup)" = Done fwup_file_system →
  find_partition_or_exit (image_entries info) MAX_PARTITIONS (cstr "partition-table")
    "Error can not find partition-table partition" = Done fwup_partition_table →
  read_partition_table input (payload_offset info + fp_base fwup_partition_table + 4)
    [] MAX_PARTITIONS PARTITION_TABLE_FLASH = Done (0, flash) →
  find_partition_or_exit flash MAX_PARTITIONS (cstr "os-image")
    "Error can not find os-image partition (flash)" = Done flash_os_image →
  find_partition_or_exit flash MAX_PARTITIONS (cstr "file-system")
    "Error can not find file-system partition (flash)" = Done flash_file_system →
  fread_at input (fp_base fwup_os_image + payload_offset info)
    (Z.to_nat (fp_size fwup_os_image)) = Some os_data →
  fread_at input (fp_base fwup_file_system + payload_offset info)
    (Z.to_nat (fp_size fwup_file_system)) = Some fs_data →
  0 < fp_size fwup_file_system →
  0 ≤ fp_size flash_os_image → fp_size fwup_os_image < 2 ^ 32 →
  fp_size flash_os_image < fp_size fwup_os_image →
  let padding := wrap32 (fp_size flash_os_image - fp_size fwup_os_image) in
  padding = 2 ^ 32 - (fp_size fwup_os_image - fp_size flash_os_image)
  ∧ convert_firmware input
    = Done (content
              (fwrite fs_data
                 (fseek (wrap32 (fp_base flash_file_system - fp_base flash_os_image))
                    (fwrite (replicate (Z.to_nat padding) 0xFF)
                       (fwrite os_data {| content := []; position := 0 |}))))).
Proof.
  intros Hparse Hos Hfs Hpt Hflash Hfos Hffs Hdos Hdfs Hfs0 Hf0 Hmax Hbig padding.
  assert (Hpad : padding = 2 ^ 32 - (fp_size fwup_os_image - fp_size flash_os_image)).
  { unfold padding, wrap32.
    replace (fp_size flash_os_image - fp_size fwup_os_image)
      with (2 ^ 32 - (fp_size fwup_os_image - fp_size flash_os_image) + (-1) * 2 ^ 32)
      by lia.
    rewrite Z.mod_add by lia. apply Z.mod_small. lia. }
  split; [done|].
  unfold convert_firmware.
  rewrite Hparse, bind_Done, Hos, bind_Done, Hfs, bind_Done, Hpt, bind_Done.
  rewrite Hflash, bind_Done. cbn [Z.eqb negb].
  rewrite Hfos, bind_Done, Hffs, bind_Done.
  rewrite (write_partition_all input (payload_offset info) fwup_os_image os_data)
    by (done || lia || by eapply fread_at_nonneg).
  rewrite bind_Done, write_ff_all, bind_Done.
  fold padding.
  destruct (0 <? padding) eqn:E; [|apply Z.ltb_ge in E; lia].
  rewrite (write_partition_all input (payload_offset info) fwup_file_system fs_data)
    by (done || lia || by eapply fread_at_nonneg).
  by rewrite bind_Done.
Qed.

Lemma convert_firmware_padding_witness :
  wrap32 (2 - 4) = 4294967294
  ∧ ∃ output, convert_firmware oversized_image = Done output.
Proof.
  pose proof (convert_firmware_padding oversized_image
              {| type := SAFELOADER_TYPE_DEFAULT; payload_offset := 0x1014;
                 image_entries :=
                   [{| fp_name := cstr "partition-table"; fp_base := 0x800;
                       fp_size := 0x800 |};
                    {| fp_name := cstr "os-image"; fp_base := 0x1000; fp_size := 4 |};
                    {| fp_name := cstr "file-system"; fp_base := 0x1004; fp_size := 3 |}] |}
              {| fp_name := cstr "os-image"; fp_base := 0x1000; fp_size := 4 |}
              {| fp_name := cstr "file-system"; fp_base := 0x1004; fp_size := 3 |}
              {| fp_name := cstr "partition-table"; fp_base := 0x800; fp_size := 0x800 |}
              [{| fp_name := cstr "os-image"; fp_base := 0x40000; fp_size := 2 |};
               {| fp_name := cstr "file-system"; fp_base := 0x40010; fp_size := 0x100 |}]
              {| fp_name := cstr "os-image"; fp_base := 0x40000; fp_size := 2 |}
              {| fp_name := cstr "file-system"; fp_base := 0x40010; fp_size := 0x100 |}
              [1; 2; 3; 4] [5; 6; 7]) as H.
  assert (H1 : safeloader_parse_image oversized_image
               = Done {| type := SAFELOADER_TYPE_DEFAULT; payload_offset := 0x1014;
                         image_entries :=
                           [{| fp_name := cstr "partition-table"; fp_base := 0x800;
                               fp_size := 0x800 |};
                            {| fp_name := cstr "os-image"; fp_base := 0x1000;
                               fp_size := 4 |};
                            {| fp_name := cstr "file-system"; fp_base := 0x1004;
                               fp_size := 3 |}] |})
    by (vm_compute; reflexivity).
  specialize (H H1).
  specialize (H ltac:(vm_compute; reflexivity)).
  specialize (H ltac:(vm_compute; reflexivity)).
  specialize (H ltac:(vm_compute; reflexivity)).
  specialize (H ltac:(vm_compute; reflexivity)).
  specialize (H ltac:(vm_compute; reflexivity)).
  specialize (H ltac:(vm_compute; reflexivity)).
  specialize (H ltac:(vm_compute; reflexivity)).
  specialize (H ltac:(vm_compute; reflexivity)).
  specialize (H ltac:(simpl; lia)).
  specialize (H ltac:(simpl; lia)).
  specialize (H ltac:(simpl; lia)).
  specialize (H ltac:(simpl; lia)).
  destruct H as [Hp Hc].
  split; [exact Hp|]. eexists. exact Hc.
Defined.
Lemma ALIGN_64k_bounds (x : Z) :
  ALIGN x 0x10000 `mod` 0x10000 = 0
  ∧ x ≤ ALIGN x 0x10000 ∧ ALIGN x 0x10000 < x + 0x10000.
Proof.
  rewrite ALIGN_64k. split.
  - rewrite Z.mul_comm. apply Z_mod_mult.
  - Z.div_mod_to_equations. lia.
Qed.

(** X1. [put32] stores the value modulo 2^32 as four big-endian bytes:
    reading them back gives that value, the buffer keeps its length, and
    no byte outside the four is changed. *)
Theorem put32_get32 (off : nat) (val : Z) (buf : list Z) :
  (off + 4 ≤ length buf)%nat →
  ∃ buf', put32 off val buf = Done buf'
    ∧ get32 (drop off buf') = wrap32 val
    ∧ length buf' = length buf
    ∧ ∀ i, (i < off ∨ off + 4 ≤ i)%nat → buf' !! i = buf !! i.
Proof.
  intros Hlen. unfold put32.
  destruct (memcpy off (be32 (wrap32 val)) buf) as [buf'|f] eqn:E.
  - exists buf'. split; [done|].
    pose proof (memcpy_length _ _ _ _ E) as Hl.
    split; [|split; [done|]].
    + apply memcpy_inv in E as [_ ->].
      rewrite drop_app_length' by (rewrite length_take; lia).
      change (get32 (be32 (wrap32 val) ++ ?l)) with (get32 (be32 (wrap32 val))).
      apply get32_be32, wrap32_range.
    + intros i Hi. eapply memcpy_lookup_out; [exact E|].
      rewrite length_be32. lia.
  - unfold memcpy in E. rewrite length_be32 in E.
    rewrite decide_True in E by lia. done.
Qed.

Lemma put32_get32_witness :
  ∃ buf', put32 1 0x100000102 [9; 9; 9; 9; 9; 9] = Done buf'
    ∧ get32 (drop 1 buf') = wrap32 0x100000102
    ∧ length buf' = length [9; 9; 9; 9; 9; 9]
    ∧ ∀ i, (i < 1 ∨ 1 + 4 ≤ i)%nat → buf' !! i = [9; 9; 9; 9; 9; 9] !! i.
Proof. apply (put32_get32 1 0x100000102 [9; 9; 9; 9; 9; 9]). simpl. lia. Defined.

(** X2. [ALIGN(x, 0x10000)] is the least multiple of 0x10000 that is not
    below [x]. *)
Theorem ALIGN_erase_block (x : Z) :
  ALIGN x 0x10000 `mod` 0x10000 = 0
  ∧ x ≤ ALIGN x 0x10000 < x + 0x10000.
Proof. destruct (ALIGN_64k_bounds x) as (H1 & H2 & H3). done. Qed.

(** X3. For a value in [0, 99], [bcd] puts the tens in the high nibble
    and the units in the low nibble, so the two nibbles read as decimal
    digits give the value back. *)
Theorem bcd_two_digits (v : Z) :
  0 ≤ v ≤ 99 →
  bcd v / 16 = v / 10 ∧ bcd v `mod` 16 = v `mod` 10
  ∧ 10 * (bcd v / 16) + bcd v `mod` 16 = v.
Proof.
  intros H. rewrite bcd_digits by done.
  Z.div_mod_to_equations. lia.
Qed.

Lemma bcd_two_digits_witness :
  bcd 24 / 16 = 24 / 10 ∧ bcd 24 `mod` 16 = 24 `mod` 10
  ∧ 10 * (bcd 24 / 16) + bcd 24 `mod` 16 = 24.
Proof. apply (bcd_two_digits 24). lia. Defined.

(** The result of [read_file] on a file that is not empty. *)
Lemma read_file_data u name file jffs2 fsp :
  file ≠ [] →
  let st := Z.of_nat (length file) in
  let len :=
    match fsp with
    | Some fsp => ALIGN (st + fp_base fsp) 0x10000 + 4 - fp_base fsp
    | None => ALIGN st 0x10000 + 4
    end in
  read_file u name file jffs2 fsp
  = Done {| ip_name := name;
            ip_data := file ++ (if jffs2
                                then replicate (Z.to_nat (len - st - 4)) 255
                                     ++ jffs2_eof_mark
                                else []) |}.
Proof.
  intros Hne st len0. unfold read_file, alloc_image_partition. cbn [ip_data].
  fold st. fold len0.
  set (len := if jffs2 then len0 else st).
  assert (Hlen : if jffs2 then st + 4 ≤ len0 else len = st).
  { unfold len, len0. destruct jffs2; [|done]. destruct fsp as [fsp|].
    - pose proof (ALIGN_ge (st + fp_base fsp)). lia.
    - pose proof (ALIGN_ge st). lia. }
  assert (Est : (st =? 0) = false).
  { apply Z.eqb_neq. unfold st. destruct file; [done|]. simpl. lia. }
  rewrite Est. apply Z.eqb_neq in Est.
  destruct (split_at (length file) (malloc u len)) as (j0 & r0 & E0 & L0).
  { rewrite length_malloc. unfold len. destruct jffs2; lia. }
  assert (Lr0 : length r0 = Z.to_nat (len - st)).
  { apply (f_equal length) in E0. rewrite length_malloc, length_app in E0. lia. }
  rewrite E0. rewrite (memcpy_frame0 j0 r0 file) by done. rewrite bind_Done.
  destruct jffs2.
  - unfold len in *.
    destruct (split_at (Z.to_nat (len0 - st - 4)) r0) as (j1 & r1 & E1 & L1); [lia|].
    assert (Lr1 : length r1 = 4%nat).
    { apply (f_equal length) in E1. rewrite length_app in E1. lia. }
    subst r0. unfold memset.
    rewrite (memcpy_frame file j1 r1 _ (Z.to_nat st))
      by (rewrite ?length_replicate; lia).
    rewrite bind_Done. rewrite app_assoc, <- (app_nil_r r1).
    rewrite (memcpy_frame _ r1 [] jffs2_eof_mark)
      by (rewrite ?length_app, ?length_replicate; simpl; lia).
    rewrite bind_Done. by rewrite <- !app_assoc.
  - rewrite bind_Done. destruct r0; [|simpl in Lr0; lia]. by rewrite !app_nil_r.
Qed.

(** X4. With the JFFS2 marker requested, [read_file] returns the file,
    then fewer than 0x10000 bytes of 0xFF, then the marker DE AD C0 DE,
    such that the marker starts on a multiple of 0x10000 counted from the
    base of the file-system partition (from 0 without one). *)
Theorem read_file_jffs2_boundary (uninit : nat → Z) (name : list Z) (c : Z)
    (file : list Z) (fsp : option flash_partition_entry) :
  let base := match fsp with Some p => fp_base p | None => 0 end in
  ∃ pad : nat,
    read_file uninit name (c :: file) true fsp
    = Done {| ip_name := name;
              ip_data := (c :: file) ++ replicate pad 0xFF ++ [0xde; 0xad; 0xc0; 0xde] |}
    ∧ (base + Z.of_nat (length (c :: file) + pad)) `mod` 0x10000 = 0
    ∧ Z.of_nat pad < 0x10000.
Proof.
  intros base.
  remember (Z.of_nat (length (c :: file))) as st eqn:Hst.
  pose proof (ALIGN_64k_bounds (st + base)) as (Hm & Hlo & Hhi).
  remember (ALIGN (st + base) 65536) as A eqn:HA.
  exists (Z.to_nat (A - (st + base))).
  split; [|split].
  - rewrite read_file_data by done. cbv zeta. rewrite <- Hst.
    match goal with
    | |- context [replicate (Z.to_nat ?e) 255] =>
        replace e with (A - (st + base))
    end; [reflexivity|].
    subst A. unfold base. destruct fsp; [ring|]. rewrite Z.add_0_r. ring.
  - rewrite Nat2Z.inj_add, <- Hst, Z2Nat.id by lia.
    replace (base + (st + (A - (st + base)))) with A by ring. done.
  - lia.
Qed.

(** X5. Without the marker, [read_file] returns the bytes of a file that
    is not empty and nothing else; an empty file is a fatal error, with
    or without the marker. *)
Theorem read_file_verbatim (uninit : nat → Z) (name : list Z)
    (fsp : option flash_partition_entry) :
  (∀ c file, read_file uninit name (c :: file) false fsp
             = Done {| ip_name := name; ip_data := c :: file |})
  ∧ (∀ jffs2, read_file uninit name [] jffs2 fsp = Fail (Exit "unable to read file")).
Proof.
  split.
  - intros c file. rewrite read_file_data by done. by rewrite app_nil_r.
  - intros jffs2. done.
Qed.

(** X6. The partition-table partition is 0x800 bytes: the four bytes
    00 04 00 00, one line "partition <name> base 0x<hex> size 0x<hex>\n"
    per flash partition in table order, one byte after the text (the NUL
    of the last line; with no flash partition, a byte that was never
    written), and 0xFF up to the end.  A text that leaves no room for
    that byte within the 0x800 bytes is a fatal error. *)
Theorem make_partition_table_layout (uninit : nat → Z) (names : partition_names_set)
    (info : device_info) :
  let text := flash_table (partitions info) in
  let after := match partitions info with [] => uninit 4%nat | _ => 0 end in
  (∀ e, make_partition_table uninit names info = Done e →
     ip_name e = n_partition_table names
     ∧ ip_data e = [0x00; 0x04; 0x00; 0x00] ++ text ++ [after]
                   ++ replicate (0x800 - 5 - length text) 0xFF
     ∧ length (ip_data e) = 0x800%nat)
  ∧ ((0x800 < length text + 5)%nat →
     ∃ f, make_partition_table uninit names info = Fail f).
Proof.
  intros text after. split.
  - intros e He.
    apply (make_partition_table_inv uninit uninit) in He as (Hfit & -> & _).
    fold text in Hfit |- *. cbn [ip_name ip_data].
    split; [done|]. split; [done|].
    rewrite !length_app, length_replicate. cbn [length]. lia.
  - intros Hbig.
    destruct (make_partition_table uninit names info) as [e|f] eqn:E; [|by exists f].
    apply (make_partition_table_inv uninit uninit) in E as (Hfit & _).
    fold text in Hfit. lia.
Qed.

Lemma make_partition_table_layout_witness :
  ∃ e, make_partition_table (λ _, 0x55) default_names example_profile = Done e
       ∧ take 14 (ip_data e) = [0x00; 0x04; 0x00; 0x00] ++ cstr "partition "
       ∧ length (ip_data e) = 0x800%nat.
Proof.
  destruct (make_partition_table (λ _, 0x55) default_names example_profile)
    as [e|f] eqn:E; [|by vm_compute in E].
  exists e. split; [done|].
  destruct (make_partition_table_layout (λ _, 0x55) default_names example_profile)
    as [H _].
  destruct (H e E) as (_ & Hd & Hl). split; [|exact Hl].
  rewrite Hd. reflexivity.
Defined.

(** X7. [write_ff] writes exactly [size] bytes of 0xFF at the file
    position, however the size splits into chunks of 4096, and nothing
    for a size of zero; on a stream positioned at its end the bytes are
    appended. *)
Theorem write_ff_exact (out : stream) (size : Z) :
  0 ≤ size →
  write_ff out size
  = Done (if size =? 0 then out else fwrite (replicate (Z.to_nat size) 0xFF) out)
  ∧ (position out = length (content out) →
     ∃ out', write_ff out size = Done out'
       ∧ content out' = content out ++ replicate (Z.to_nat size) 0xFF
       ∧ position out' = length (content out')).
Proof.
  intros Hsize. rewrite write_ff_all.
  destruct (Z.eqb_spec size 0) as [->|Hne].
  - split; [done|]. intros Hpos. exists out. by rewrite app_nil_r.
  - rewrite (proj2 (Z.ltb_lt 0 size)) by lia. split; [done|].
    intros Hpos. eexists. split; [done|].
    unfold fwrite. cbn [content position]. rewrite Hpos, Nat.sub_diag.
    cbn [replicate]. rewrite app_nil_r, take_ge, drop_ge by lia.
    rewrite app_nil_r, length_app. done.
Qed.

Lemma write_ff_exact_witness :
  write_ff {| content := [1; 2]; position := 2 |} 5000
  = Done (fwrite (replicate 5000 0xFF) {| content := [1; 2]; position := 2 |}).
Proof.
  destruct (write_ff_exact {| content := [1; 2]; position := 2 |} 5000) as [H _];
    [lia|].
  exact H.
Defined.

Lemma fread_at_None (input : list Z) (start : Z) (n : nat) :
  0 ≤ start → fread_at input start n = None →
  Z.of_nat (length input) < start + Z.of_nat n.
Proof.
  intros Hs H. unfold fread_at in H.
  rewrite (proj2 (Z.ltb_ge start 0)) in H by lia.
  unfold sublist_lookup in H. case_guard as Hg; [done|]. lia.
Qed.

Lemma fread_at_Some (input data : list Z) (start : Z) (n : nat) :
  fread_at input start n = Some data →
  0 ≤ start ∧ start + Z.of_nat n ≤ Z.of_nat (length input)
  ∧ data = take n (drop (Z.to_nat start) input).
Proof.
  intros H. unfold fread_at in H.
  destruct (Z.ltb_spec start 0) as [|Hs]; [done|].
  apply sublist_lookup_Some' in H as [-> Hl]. split; [done|]. split; [lia|done].
Qed.

(** The loops of [write_partition] stop with the read error when the
    input ends before the partition does. *)
Lemma write_partition_chunks_short input start size fuel : ∀ offset out,
  0 ≤ start → 0 ≤ offset < size →
  Z.of_nat (length input) < start + size →
  (size - offset) / 4096 < Z.of_nat fuel →
  write_partition_chunks fuel input start offset size out
  = Fail (Exit "Can not read partition from input_file").
Proof.
  induction fuel as [|fuel IH]; intros offset out Hs Ho Hshort Hfuel.
  - assert (0 ≤ (size - offset) / 4096) by (apply Z.div_pos; lia). lia.
  - cbn [write_partition_chunks].
    destruct (Z.leb_spec (4096 + offset) size) as [Hle|Hgt].
    + destruct (fread_at input (start + offset) 4096) as [buf|] eqn:E; [|done].
      apply fread_at_Some in E as (_ & Hin & _).
      apply IH; [done|lia|done|].
      replace (size - (offset + 4096)) with ((size - offset) + (-1) * 4096) by lia.
      rewrite Z.div_add by lia. lia.
    + rewrite (proj2 (Z.ltb_lt offset size)) by lia.
      destruct (fread_at input (start + offset) (Z.to_nat (size - offset)))
        as [buf|] eqn:E; [|done].
      apply fread_at_Some in E as (_ & Hin & _). lia.
Qed.

(** X8. [write_partition] copies to the output position exactly the
    [size] bytes of the input that start at [base + firmware_offset],
    however the size splits into chunks of 4096; it writes nothing for a
    size of zero, and it stops with the read error when the input ends
    before the partition does. *)
Theorem write_partition_exact (input_file : list Z) (firmware_offset : Z)
    (entry : flash_partition_entry) (out : stream) :
  0 ≤ fp_base entry + firmware_offset → 0 ≤ fp_size entry →
  write_partition input_file firmware_offset entry out
  = if fp_size entry =? 0 then Done out
    else match fread_at input_file (fp_base entry + firmware_offset)
                 (Z.to_nat (fp_size entry)) with
         | Some data => Done (fwrite data out)
         | None => Fail (Exit "Can not read partition from input_file")
         end.
Proof.
  intros Hb Hs. destruct (Z.eqb_spec (fp_size entry) 0) as [E0|Hne].
  - unfold write_partition. rewrite E0. reflexivity.
  - destruct (fread_at _ _ _) as [data|] eqn:E.
    + apply write_partition_all; [done|lia|done].
    + apply fread_at_None in E; [|done].
      unfold write_partition. apply write_partition_chunks_short; [done|lia|lia|].
      rewrite Z.sub_0_r.
      assert (0 ≤ fp_size entry / 4096) by (apply Z.div_pos; lia). lia.
Qed.

Lemma write_partition_exact_witness :
  write_partition [1; 2; 3; 4; 5; 6] 1
    {| fp_name := cstr "os-image"; fp_base := 2; fp_size := 3 |}
    {| content := [9]; position := 1 |}
  = Done {| content := [9; 4; 5; 6]; position := 4 |}
  ∧ write_partition [1; 2; 3; 4; 5; 6] 1
      {| fp_name := cstr "os-image"; fp_base := 2; fp_size := 5000 |}
      {| content := [9]; position := 1 |}
    = Fail (Exit "Can not read partition from input_file").
Proof.
  split.
  - rewrite (write_partition_exact [1; 2; 3; 4; 5; 6] 1
      {| fp_name := cstr "os-image"; fp_base := 2; fp_size := 3 |}
      {| content := [9]; position := 1 |}); [reflexivity|simpl; lia|simpl; lia].
  - rewrite (write_partition_exact [1; 2; 3; 4; 5; 6] 1
      {| fp_name := cstr "os-image"; fp_base := 2; fp_size := 5000 |}
      {| content := [9]; position := 1 |}); [reflexivity|simpl; lia|simpl; lia].
Defined.

(** X9. [find_partition] returns an entry exactly when that entry is the
    first one of the given name among the first [max_entries] slots; it
    returns NULL to its caller only from a table with all [max_entries]
    slots in use (an unused slot has a NULL name, which the comparison
    dereferences) and only without an error message, and with a message
    a full table without the name ends the run with that message. *)
Theorem find_partition_first (entries : list flash_partition_entry) (max_entries : Z)
    (name : list Z) (error_msg : option string) :
  (∀ e, find_partition entries max_entries name error_msg = Done (Some e)
        ↔ ∃ i : nat, Z.of_nat i < max_entries ∧ entries !! i = Some e
            ∧ fp_name e = name
            ∧ ∀ j e', (j < i)%nat → entries !! j = Some e' → fp_name e' ≠ name)
  ∧ (find_partition entries max_entries name error_msg = Done None
     ↔ error_msg = None ∧ max_entries ≤ Z.of_nat (length entries)
       ∧ ∀ j e', Z.of_nat j < max_entries → entries !! j = Some e' → fp_name e' ≠ name)
  ∧ (∀ msg, error_msg = Some msg → max_entries ≤ Z.of_nat (length entries) →
       (∀ j e', Z.of_nat j < max_entries → entries !! j = Some e' → fp_name e' ≠ name) →
       find_partition entries max_entries name error_msg = Fail (Exit msg)).
Proof.
  unfold find_partition.
  destruct (list_find _ _) as [[i e0]|] eqn:E.
  - apply list_find_Some in E as (Hi & Hn & Hfirst).
    apply lookup_take_Some in Hi as [Hi Hlt].
    split; [|split].
    + intros e. split.
      * intros [= <-]. exists i. split; [lia|]. split; [done|]. split; [done|].
        intros j e' Hj He'. apply (Hfirst j e'); [|done].
        rewrite lookup_take_lt by lia. done.
      * intros (i' & Hi' & He & Hname & Hbefore).
        destruct (Nat.lt_trichotomy i i') as [Hlt'|[->|Hgt]].
        -- exfalso. by apply (Hbefore i e0).
        -- congruence.
        -- exfalso. apply (Hfirst i' e); [|done|done].
           rewrite lookup_take_lt by lia. done.
    + split; [done|]. intros (_ & _ & Hno). exfalso. apply (Hno i e0); [lia|done|done].
    + intros msg _ _ Hno. exfalso. apply (Hno i e0); [lia|done|done].
  - apply list_find_None in E.
    assert (Hno : ∀ j e', Z.of_nat j < max_entries → entries !! j = Some e' →
                          fp_name e' ≠ name).
    { intros j e' Hj He'. apply (Forall_lookup_1 _ _ j e' E).
      rewrite lookup_take_lt by lia. done. }
    split; [|split].
    + intros e. split.
      * destruct (_ <? _); [done|]. by destruct error_msg.
      * intros (i & Hi & He & Hname & _). exfalso. by apply (Hno i e).
    + destruct (Z.ltb_spec (Z.of_nat (length entries)) max_entries) as [Hlt|Hge].
      * split; [done|]. intros (_ & Hfull & _). lia.
      * destruct error_msg as [msg|]; [split; [done|by intros [? _]]|].
        split; [|done]. intros _. done.
    + intros msg -> Hfull _. by rewrite (proj2 (Z.ltb_ge _ _)) by lia.
Qed.

Lemma find_partition_first_witness :
  find_partition example_flash 2 (cstr "file-system") None
  = Done (Some (flash_entry "file-system" 0x40100 0x200))
  ∧ find_partition example_flash 2 (cstr "soft-version") (Some "missing"%string)
    = Fail (Exit "missing").
Proof.
  destruct (find_partition_first example_flash 2 (cstr "file-system") None)
    as (Hsome & _ & _).
  destruct (find_partition_first example_flash 2 (cstr "soft-version")
              (Some "missing"%string)) as (_ & _ & Hexit).
  split.
  - apply Hsome. exists 1%nat. split; [lia|]. split; [reflexivity|].
    split; [reflexivity|]. intros j e' Hj He'.
    destruct j as [|j]; [|lia]. injection He' as <-. by vm_compute.
  - apply (Hexit "missing"%string); [reflexivity|simpl; lia|].
    intros j e' Hj He'.
    destruct j as [|[|j]]; [| |simpl in Hj; lia]; injection He' as <-; by vm_compute.
Defined.




Lemma put_partitions_loop_fits flash parts : ∀ image_pt base buffer buf',
  put_partitions_loop flash parts image_pt base buffer = Done buf' →
  Forall (λ p, ∃ fp, find_flash_partition (ip_name p) flash = Some fp
                     ∧ ip_size p ≤ fp_size fp) parts.
Proof.
  induction parts as [|p parts IH]; intros image_pt base buffer buf' H; [done|].
  cbn [put_partitions_loop] in H.
  apply bind_Done_inv in H as ([] & Hchk & H).
  apply bind_Done_inv in H as (b1 & _ & H).
  apply bind_Done_inv in H as ([b2 w] & _ & H).
  destruct (wrap64 _ <? w); [done|].
  constructor; [|by eapply IH].
  destruct (find_flash_partition (ip_name p) flash) as [fp|]; [|done].
  exists fp. split; [done|].
  destruct (Z.ltb_spec (fp_size fp) (ip_size p)); [done|lia].
Qed.

(** X11. [put_partitions] finishes only if every partition has a flash
    partition of its name and is no larger than the first such flash
    partition: a partition without a slot, or larger than its slot, ends
    the run in failure. *)
Theorem put_partitions_fits (buffer : list Z) (flash : list flash_partition_entry)
    (parts : list image_partition_entry) :
  (∀ buf', put_partitions buffer flash parts = Done buf' →
     Forall (λ p, ∃ fp, find_flash_partition (ip_name p) flash = Some fp
                        ∧ ip_size p ≤ fp_size fp) parts)
  ∧ (∀ p, p ∈ parts →
       match find_flash_partition (ip_name p) flash with
       | Some fp => fp_size fp < ip_size p
       | None => True
       end →
       ∃ f, put_partitions buffer flash parts = Fail f).
Proof.
  split.
  - intros buf' H. by eapply put_partitions_loop_fits.
  - intros p Hp Hbad.
    destruct (put_partitions buffer flash parts) as [buf'|f] eqn:E; [|by exists f].
    exfalso. apply put_partitions_loop_fits in E.
    rewrite Forall_forall in E. destruct (E p Hp) as (fp & Hfp & Hle).
    rewrite Hfp in Hbad. lia.
Qed.

Lemma put_partitions_fits_witness :
  ∃ f, put_partitions (replicate 0x900 0xFF)
         [flash_entry "os-image" 0x40000 1] example_parts = Fail f.
Proof.
  destruct (put_partitions_fits (replicate 0x900 0xFF)
              [flash_entry "os-image" 0x40000 1] example_parts) as [_ H].
  apply (H {| ip_name := cstr "os-image"; ip_data := [7; 8] |}).
  - apply list_elem_of_here.
  - vm_compute. reflexivity.
Defined.

Lemma length_trailer pv : (length (trailer pv) ≤ 1)%nat.
Proof. unfold trailer. case_bool_decide; simpl; lia. Qed.

(** X12. The numeric soft-version partition is a meta partition whose
    payload is the byte 0xFF, the three version numbers, the century,
    the year in the century, the month and the day of the build instant
    in BCD, and the revision as a big-endian u32, followed by the
    compatibility level as a big-endian u32 only when that level is not
    zero (length field 12 or 16).  The build instant is the override
    when one is in force and the wall clock otherwise; a wall clock that
    fails is a fatal error. *)
Theorem make_soft_version_numeric (uninit : nat → Z) (gmtime : Z → option tm)
    (names : partition_names_set) (info : device_info) (rev : Z)
    (source_date_epoch now : Z) (major minor patch : Z) :
  soft_version_spec info = SOFT_VER_NUMERIC major minor patch →
  make_soft_version uninit gmtime names info rev source_date_epoch now
  = if (source_date_epoch =? -1) && (now =? -1) then Fail (Exit "time")
    else match gmtime (if source_date_epoch =? -1 then now else source_date_epoch) with
         | None => Fail (Undefined "gmtime returned NULL")
         | Some t =>
             let compat := soft_ver_compat_level info in
             Done {| ip_name := n_soft_ver names;
                     ip_data :=
                       be32 (if compat =? 0 then 12 else 16) ++ [0; 0; 0; 0]
                       ++ [0xFF; wrap8 major; wrap8 minor; wrap8 patch;
                           bcd ((1900 + tm_year t) `quot` 100);
                           bcd (tm_year t `rem` 100);
                           bcd (tm_mon t + 1); bcd (tm_mday t)]
                       ++ be32 (wrap32 rev)
                       ++ (if compat =? 0 then [] else be32 (wrap32 compat))
                       ++ trailer (part_trail info) |}
         end.
Proof.
  intros Hspec. unfold make_soft_version. rewrite Hspec.
  destruct (source_date_epoch =? -1) eqn:Ee; cbn [negb andb].
  - destruct (now =? -1); [done|]. rewrite bind_Done.
    destruct (gmtime now) as [t|]; [|done].
    pose proof (length_trailer (part_trail info)).
    destruct (soft_ver_compat_level info =? 0);
      (rewrite init_meta_partition_entry_data; [done|lia|simpl; lia|lia]).
  - rewrite bind_Done.
    destruct (gmtime source_date_epoch) as [t|]; [|done].
    pose proof (length_trailer (part_trail info)).
    destruct (soft_ver_compat_level info =? 0);
      (rewrite init_meta_partition_entry_data; [done|lia|simpl; lia|lia]).
Qed.

Lemma make_soft_version_numeric_witness :
  make_soft_version (λ _, 0x55) example_gmtime default_names example_profile
    0x1234 1715904000 (-1)
  = Done {| ip_name := cstr "soft-version";
            ip_data := [0; 0; 0; 12; 0; 0; 0; 0;
                        0xFF; 1; 2; 3; 0x20; 0x24; 0x05; 0x17;
                        0; 0; 0x12; 0x34; 0xFF] |}.
Proof.
  rewrite (make_soft_version_numeric (λ _, 0x55) example_gmtime default_names
             example_profile 0x1234 1715904000 (-1) 1 2 3); reflexivity.
Defined.

(** X13. A textual soft-version partition is a meta partition whose
    payload is the text with its terminating NUL, so the length field is
    the length of the text plus one. *)
Theorem make_soft_version_text (uninit : nat → Z) (gmtime : Z → option tm)
    (names : partition_names_set) (info : device_info) (rev : Z)
    (source_date_epoch now : Z) (text : list Z) :
  soft_version_spec info = SOFT_VER_TEXT text →
  Z.of_nat (length text) + 10 < 2 ^ 32 →
  make_soft_version uninit gmtime names info rev source_date_epoch now
  = Done {| ip_name := n_soft_ver names;
            ip_data := be32 (Z.of_nat (length text) + 1) ++ [0; 0; 0; 0]
                       ++ text ++ [0] ++ trailer (part_trail info) |}.
Proof.
  intros Hspec Hfit. unfold make_soft_version. rewrite Hspec.
  pose proof (length_trailer (part_trail info)).
  rewrite wrap32_small by lia.
  rewrite init_meta_partition_entry_data;
    [|lia|rewrite length_app; simpl; lia|lia].
  rewrite take_ge by (rewrite length_app; simpl; lia).
  by rewrite <- app_assoc.
Qed.

Lemma make_soft_version_text_witness :
  make_soft_version (λ _, 0x55) example_gmtime default_names
    {| id := cstr "EXAMPLE"; vendor := None; support_list := [];
       part_trail := PART_TRAIL_NONE;
       soft_version_spec := SOFT_VER_TEXT (cstr "soft_ver:1.0");
       soft_ver_compat_level := 0; partitions := [];
       first_sysupgrade_partition := cstr "os-image";
       last_sysupgrade_partition := cstr "file-system";
       partition_names := partition_names example_profile |} 0 (-1) (-1)
  = Done {| ip_name := cstr "soft-version";
            ip_data := [0; 0; 0; 13; 0; 0; 0; 0] ++ cstr "soft_ver:1.0" ++ [0] |}.
Proof.
  rewrite (make_soft_version_text (λ _, 0x55) example_gmtime default_names _ 0 (-1) (-1)
             (cstr "soft_ver:1.0")); [reflexivity|reflexivity|simpl; lia].
Defined.

Lemma memchr_Some s c n k :
  memchr s c n = Some k → (k < n)%nat ∧ s !! k = Some c.
Proof.
  unfold memchr. intros H. apply fmap_Some in H as ([k' x] & H & ->).
  apply list_find_Some in H as (Hk & -> & _). simpl.
  apply lookup_take_Some in Hk as [Hk Hlt]. done.
Qed.

Lemma fread_at_length (input data : list Z) (start : Z) (n : nat) :
  fread_at input start n = Some data → length data = n.
Proof.
  intros H. apply fread_at_Some in H as (Hs & Hl & ->).
  rewrite length_take, length_drop. lia.
Qed.

Lemma appended_refl max_entries es : appended max_entries es es.
Proof. exists []. by rewrite app_nil_r. Qed.

Lemma appended_trans max_entries a b c :
  appended max_entries a b → appended max_entries b c → appended max_entries a c.
Proof.
  intros (n1 & -> & H1) (n2 & -> & H2). exists (n1 ++ n2).
  split; [by rewrite app_assoc|]. intros Hne.
  destruct n2 as [|x n2]; [|by apply H2].
  rewrite !app_nil_r in *. by apply H1.
Qed.

Lemma add_flash_partition_appended part_list max_entries name base size :
  match add_flash_partition part_list max_entries name base size with
  | Done es => appended max_entries part_list es
  | Fail f => line_failure f
  end.
Proof.
  unfold add_flash_partition.
  destruct (Z.ltb_spec (Z.of_nat (length part_list)) max_entries) as [Hlt|Hge];
    cbn [negb].
  - eexists. split; [done|]. intros _. rewrite length_app. simpl. lia.
  - by right.
Qed.

(** One line of the table: the pointer never moves back, it moves
    forward when the line is not empty, the table is appended to, and
    the only failures are the two messages. *)
Lemma read_elements_inv max_entries steps : ∀ st,
  match read_elements steps max_entries st with
  | Done st' =>
      (length (ls_ptr st') ≤ length (ls_ptr st))%nat
      ∧ (steps ≠ [] → ls_to_end_part st ≠ 0%nat →
         (length (ls_ptr st') < length (ls_ptr st))%nat)
      ∧ appended max_entries (ls_entries st) (ls_entries st')
  | Fail f => line_failure f
  end.
Proof.
  induction steps as [|i steps IH]; intros st.
  - simpl. split; [done|]. split; [done|]. apply appended_refl.
  - cbn [read_elements]. case_bool_decide as Hz.
    { split; [done|]. split; [done|]. apply appended_refl. }
    destruct (memchr (ls_ptr st) 32 (ls_to_end_part st)) as [k|] eqn:Ek;
      [|by left].
    apply memchr_Some in Ek as [Hk Hptr]. apply lookup_lt_Some in Hptr.
    assert (Hgo : ∀ nm bs, match read_elements steps max_entries
                {| ls_ptr := drop (S k) (ls_ptr st);
                   ls_to_end_part := (ls_to_end_part st - S k)%nat;
                   ls_name := nm; ls_base := bs; ls_entries := ls_entries st |} with
              | Done st' =>
                  (length (ls_ptr st') ≤ length (ls_ptr st))%nat
                  ∧ (i :: steps ≠ [] → ls_to_end_part st ≠ 0%nat →
                     (length (ls_ptr st') < length (ls_ptr st))%nat)
                  ∧ appended max_entries (ls_entries st) (ls_entries st')
              | Fail f => line_failure f
              end).
    { intros nm bs. specialize (IH {| ls_ptr := drop (S k) (ls_ptr st);
                   ls_to_end_part := (ls_to_end_part st - S k)%nat;
                   ls_name := nm; ls_base := bs; ls_entries := ls_entries st |}).
      destruct (read_elements steps max_entries _) as [st'|f]; [|done].
      cbn [ls_ptr ls_entries] in IH. destruct IH as (Hle & _ & Happ).
      rewrite length_drop in Hle. split; [lia|]. split; [lia|done]. }
    destruct i as [|[|[|[|[|i]]]]]; try apply Hgo.
    pose proof (add_flash_partition_appended (ls_entries st) max_entries (ls_name st)
                  (ls_base st) (strtoul (drop (S k) (ls_ptr st)) 16)) as Hadd.
    destruct (add_flash_partition _ _ _ _ _) as [es|f]; [|done].
    rewrite bind_Done.
    specialize (IH {| ls_ptr := drop (S (ls_to_end_part st)) (ls_ptr st);
                      ls_to_end_part := 0; ls_name := ls_name st;
                      ls_base := ls_base st; ls_entries := es |}).
    destruct (read_elements steps max_entries _) as [st'|f]; [|done].
    cbn [ls_ptr ls_entries] in IH. destruct IH as (Hle & _ & Happ).
    rewrite length_drop in Hle. split; [lia|]. split; [lia|].
    by eapply appended_trans.
Qed.

(** The loop over the lines ends before the fuel does. *)
Lemma read_lines_inv max_entries parthdr c h :
  parthdr = c :: h → c ≠ 10 →
  ∀ fuel ptr entries, (length ptr ≤ fuel)%nat → (0 < fuel)%nat →
    match read_lines fuel parthdr max_entries ptr entries with
    | Done es => appended max_entries entries es
    | Fail f => line_failure f
    end.
Proof.
  intros Hhdr Hc. induction fuel as [|fuel IH]; intros ptr entries Hfuel Hpos; [lia|].
  cbn [read_lines].
  destruct (bool_decide (length parthdr < length ptr)%nat) eqn:Hlen;
    [|apply appended_refl].
  destruct (bool_decide (take (length parthdr) ptr = parthdr)) eqn:Htake;
    [|apply appended_refl].
  cbn [andb]. apply bool_decide_eq_true in Hlen, Htake.
  destruct (memchr ptr 10 (length ptr)) as [n|] eqn:En; [|apply appended_refl].
  apply memchr_Some in En as [_ Hn].
  assert (Hn0 : n ≠ 0%nat).
  { intros ->. subst parthdr. destruct ptr as [|x ptr]; [done|].
    simpl in Htake, Hn. congruence. }
  pose proof (read_elements_inv max_entries [0; 1; 2; 3; 4]%nat
                {| ls_ptr := ptr; ls_to_end_part := n; ls_name := []; ls_base := 0;
                   ls_entries := entries |}) as Hline.
  destruct (read_elements _ _ _) as [st|f]; [|done].
  rewrite bind_Done. cbn [ls_ptr ls_to_end_part ls_entries] in Hline.
  destruct Hline as (_ & Hlt & Happ). specialize (Hlt ltac:(done) Hn0).
  assert (Hlp : (2 ≤ length ptr)%nat).
  { subst parthdr. simpl in Hlen. lia. }
  specialize (IH (ls_ptr st) (ls_entries st) ltac:(lia) ltac:(lia)).
  destruct (read_lines fuel parthdr max_entries _ _) as [es|f]; [|done].
  by eapply appended_trans.
Qed.

(** The table reader as a whole. *)
Lemma read_partition_table_inv (file : list Z) (offset : Z)
    (entries : list flash_partition_entry) (max_entries : Z)
    (type : PARTITION_TABLE_TYPE) :
  match read_partition_table file offset entries max_entries type with
  | Done (r, es) =>
      (r = 0 ∨ (r = 1 ∧ es = entries))
      ∧ appended max_entries entries es
      ∧ 0 ≤ offset ∧ offset + 0x800 ≤ Z.of_nat (length file)
  | Fail f =>
      (offset < 0 ∧ f = Exit "Can not seek in the firmware")
      ∨ (0 ≤ offset ∧ Z.of_nat (length file) < offset + 0x800
         ∧ f = Exit "Can not read fwup-ptn from the firmware")
      ∨ (0 ≤ offset ∧ offset + 0x800 ≤ Z.of_nat (length file) ∧ line_failure f)
  end.
Proof.
  unfold read_partition_table.
  destruct (Z.ltb_spec offset 0) as [Hneg|Hseek]; [by left|].
  destruct (fread_at file offset _) as [buf|] eqn:Eb.
  2:{ right; left. apply fread_at_None in Eb; [|done].
      change (Z.of_nat (Z.to_nat SAFELOADER_PAYLOAD_TABLE_SIZE)) with 0x800 in Eb.
      done. }
  pose proof (fread_at_Some _ _ _ _ Eb) as (Ho & Hl & _).
  change (Z.of_nat (Z.to_nat SAFELOADER_PAYLOAD_TABLE_SIZE)) with 0x800 in Hl.
  destruct (negb _).
  { split; [by right|]. split; [apply appended_refl|done]. }
  apply fread_at_length in Eb.
  remember (<[Z.to_nat (SAFELOADER_PAYLOAD_TABLE_SIZE - 1):=0]> buf) as b eqn:Hb.
  assert (Hpos : (0 < length b)%nat).
  { subst b. rewrite length_insert, Eb. unfold SAFELOADER_PAYLOAD_TABLE_SIZE. lia. }
  pose proof (read_lines_inv max_entries (parthdr_of type)
                (hd 0 (parthdr_of type)) (tl (parthdr_of type))
                ltac:(by destruct type) ltac:(by destruct type) (length b) b entries
                ltac:(done) Hpos) as Hl'.
  destruct (read_lines _ _ _ _ _) as [es|f].
  - rewrite bind_Done. split; [by left|done].
  - right; right. done.
Qed.

(** X14. [read_partition_table] always comes to an end: with the table
    and the value 0; with the value 1 and the table untouched, when the
    0x800 bytes do not start with the keyword; or with one of four fatal
    errors: the seek fails, which it does exactly for a negative offset;
    the file ends before the 0x800 bytes at the offset do; a line misses
    one of its spaces; the table is full. *)
Theorem read_partition_table_outcome (file : list Z) (offset : Z)
    (entries : list flash_partition_entry) (max_entries : Z)
    (type : PARTITION_TABLE_TYPE) :
  (offset < 0 ↔ read_partition_table file offset entries max_entries type
                = Fail (Exit "Can not seek in the firmware"))
  ∧ (0 ≤ offset ∧ Z.of_nat (length file) < offset + 0x800
     ↔ read_partition_table file offset entries max_entries type
       = Fail (Exit "Can not read fwup-ptn from the firmware"))
  ∧ match read_partition_table file offset entries max_entries type with
    | Done (r, es) => r = 0 ∨ (r = 1 ∧ es = entries)
    | Fail f =>
        f = Exit "Can not seek in the firmware"
        ∨ f = Exit "Can not read fwup-ptn from the firmware"
        ∨ f = Exit "Ignoring the rest of the partition entries."
        ∨ f = Exit "No free flash part entry available."
    end.
Proof.
  pose proof (read_partition_table_inv file offset entries max_entries type) as H.
  destruct (read_partition_table _ _ _ _ _) as [[r es]|f].
  - destruct H as (H & _ & Ho & Hl).
    split; [split; [lia|done]|]. split; [split; [lia|done]|done].
  - destruct H as [[Ho ->]|[(Ho & Hl & ->)|(Ho & Hl & Hf)]].
    + split; [done|]. split; [split; [lia|done]|by left].
    + split; [split; [lia|done]|]. split; [done|right; by left].
    + destruct Hf as [-> | ->].
      * split; [split; [lia|done]|]. split; [split; [lia|done]|right; right; by left].
      * split; [split; [lia|done]|]. split; [split; [lia|done]|right; right; by right].
Qed.

(** X15. [read_partition_table] only appends to the table it is given,
    and it never stores an entry beyond [max_entries] slots. *)
Theorem read_partition_table_capacity (file : list Z) (offset : Z)
    (entries : list flash_partition_entry) (max_entries : Z)
    (type : PARTITION_TABLE_TYPE) (r : Z) (es : list flash_partition_entry) :
  read_partition_table file offset entries max_entries type = Done (r, es) →
  ∃ new, es = entries ++ new
         ∧ (new ≠ [] → Z.of_nat (length es) ≤ max_entries)
         ∧ (Z.of_nat (length entries) ≤ max_entries →
            Z.of_nat (length es) ≤ max_entries).
Proof.
  intros H.
  pose proof (read_partition_table_inv file offset entries max_entries type) as Hinv.
  rewrite H in Hinv. destruct Hinv as (_ & (new & -> & Hcap) & _).
  exists new. split; [done|]. split; [done|].
  intros Hle. destruct new as [|x new]; [by rewrite app_nil_r|]. by apply Hcap.
Qed.

Lemma table_line_tokens hdr ending name base size tl :
  table_line hdr ending (name, base, size) ++ tl
  = hdr ++ 0x20 :: name ++ 0x20 :: cstr "base" ++ 0x20
    :: (cstr "0x" ++ fmt_05x base) ++ 0x20 :: cstr "size" ++ 0x20
    :: (cstr "0x" ++ fmt_05x size ++ ending) ++ 10 :: tl.
Proof. unfold table_line. cbn [fst snd]. rewrite <- !app_assoc. reflexivity. Qed.

(** The [while] loop reads back the lines of a table in either form, up
    to whatever follows them, provided that does not look like a line. *)
Lemma read_lines_table (hdr ending : list Z) (max_entries : Z) (rows : list table_row) :
  Forall (λ c, c ≠ 0x20 ∧ c ≠ 0x0A) hdr →
  Forall (λ c, c ≠ 0x0A) ending →
  digit_value (hd 10 ending) = None →
  ∀ fuel entries sfx,
    Forall (λ r, table_name r.1.1) rows →
    Z.of_nat (length entries + length rows) ≤ max_entries →
    (length rows < fuel)%nat →
    bool_decide (length hdr < length sfx)%nat
    && bool_decide (take (length hdr) sfx = hdr) = false →
    read_lines fuel hdr max_entries (table_text hdr ending rows ++ sfx) entries
    = Done (entries ++ (row_entry <$> rows)).
Proof.
  intros Hhdr Hend Hdig.
  induction rows as [|[[name base] size] rows IH];
    intros fuel entries sfx Hnames Hroom Hfuel Hsfx.
  - destruct fuel; [simpl in Hfuel; lia|]. cbn [table_text fmap list_fmap concat app read_lines].
    rewrite Hsfx. by rewrite app_nil_r.
  - apply Forall_cons_1 in Hnames as [Hname Hnames]. cbn [fst] in Hname.
    destruct fuel; [simpl in Hfuel; lia|].
    unfold table_text. rewrite fmap_cons. cbn [concat]. rewrite <- app_assoc.
    fold (table_text hdr ending rows).
    set (tl := table_text hdr ending rows ++ sfx).
    rewrite table_line_tokens.
    set (bs := cstr "0x" ++ fmt_05x base).
    set (ss := cstr "0x" ++ fmt_05x size ++ ending).
    set (body := hdr ++ 0x20 :: name ++ 0x20 :: cstr "base" ++ 0x20
                 :: bs ++ 0x20 :: cstr "size" ++ 0x20 :: ss).
    assert (Hbody : hdr ++ 0x20 :: name ++ 0x20 :: cstr "base" ++ 0x20
                    :: bs ++ 0x20 :: cstr "size" ++ 0x20 :: ss ++ 10 :: tl
                    = body ++ 10 :: tl).
    { unfold body. repeat first [rewrite <- app_assoc | progress (cbn [app])].
      reflexivity. }
    destruct Hname as [Hnlen Hnchars].
    assert (Hbs : Forall (λ c, c ≠ 0 ∧ c ≠ 0x20 ∧ c ≠ 0x0A) bs).
    { unfold bs. apply Forall_app. split; [|apply fmt_05x_chars].
      repeat constructor; discriminate. }
    assert (Hss : Forall (λ c, c ≠ 0x0A) ss).
    { unfold ss. apply Forall_app. split; [repeat constructor; discriminate|].
      apply Forall_app. split; [|done].
      eapply Forall_impl; [apply fmt_05x_chars|]. by intros c (_ & _ & ?). }
    assert (Hlf : Forall (λ c, c ≠ 10) body).
    { unfold body.
      apply Forall_app; split.
      { eapply Forall_impl; [exact Hhdr|]. by intros c (_ & ?). }
      apply Forall_cons; split; [discriminate|].
      apply Forall_app; split.
      { eapply Forall_impl; [exact Hnchars|]. by intros c (_ & _ & ?). }
      apply Forall_cons; split; [discriminate|].
      apply Forall_app; split; [repeat constructor; discriminate|].
      apply Forall_cons; split; [discriminate|].
      apply Forall_app; split.
      { eapply Forall_impl; [exact Hbs|]. by intros c (_ & _ & ?). }
      apply Forall_cons; split; [discriminate|].
      apply Forall_app; split; [repeat constructor; discriminate|].
      apply Forall_cons; split; [discriminate|]. exact Hss. }
    rewrite Hbody. cbn [read_lines].
    assert (C1 : (length hdr < length (body ++ 10%Z :: tl))%nat).
    { unfold body. rewrite !length_app. cbn [length]. lia. }
    assert (C2 : take (length hdr) (body ++ 10 :: tl) = hdr).
    { unfold body. rewrite <- app_assoc. apply take_app_length. }
    rewrite (bool_decide_true _ C1), (bool_decide_true _ C2). cbn [andb].
    rewrite (memchr_token body tl 10) by (done || rewrite length_app; cbn [length]; lia).
    rewrite <- Hbody.
    rewrite (read_elements_line max_entries hdr name bs ss tl);
      [|eapply Forall_impl; [exact Hhdr|]; by intros c (? & _) | done
       |eapply Forall_impl; [exact Hbs|]; by intros c (_ & ? & _) | done].
    unfold bs at 1 2. rewrite <- !app_assoc.
    rewrite (strtoul_fmt base 0x20) by done.
    unfold ss at 1. rewrite <- !app_assoc.
    assert (Hsize : strtoul (cstr "0x" ++ fmt_05x size ++ ending ++ 10 :: tl) 16
                    = wrap32 size).
    { destruct ending as [|c ending']; [by apply strtoul_fmt|].
      rewrite <- app_comm_cons. by apply strtoul_fmt. }
    rewrite Hsize.
    unfold add_flash_partition.
    destruct (Z.of_nat (length entries) <? max_entries) eqn:E.
    2:{ apply Z.ltb_ge in E. rewrite length_cons in Hroom. lia. }
    cbn [negb]. rewrite !bind_Done. cbn [ls_ptr ls_entries].
    rewrite !wrap32_idemp. unfold tl.
    rewrite IH; try done.
    + rewrite fmap_cons, <- app_assoc. done.
    + rewrite length_app. cbn [length] in *. lia.
    + cbn [length] in Hfuel. lia.
Qed.

(** The table reader on 0x800 bytes that hold the lines of a table, a
    NUL, and anything after it. *)
Lemma read_partition_table_rows (type : PARTITION_TABLE_TYPE) (ending : list Z)
    (rows : list table_row) (file : list Z) (offset : Z) (junk : list Z)
    (entries : list flash_partition_entry) (max_entries : Z) :
  Forall (λ c, c ≠ 0x0A) ending →
  digit_value (hd 10 ending) = None →
  rows ≠ [] →
  Forall (λ r, table_name r.1.1) rows →
  Z.of_nat (length entries + length rows) ≤ max_entries →
  fread_at file offset 0x800
  = Some (table_text (parthdr_of type) ending rows ++ 0 :: junk) →
  read_partition_table file offset entries max_entries type
  = Done (0, entries ++ (row_entry <$> rows)).
Proof.
  intros Hend Hdig Hne Hnames Hroom Hread.
  pose proof (fread_at_length _ _ _ _ Hread) as Hlen.
  pose proof (fread_at_Some _ _ _ _ Hread) as (Hseek & _).
  rewrite read_partition_table_seek by done. cbv zeta.
  change (Z.to_nat SAFELOADER_PAYLOAD_TABLE_SIZE) with 0x800%nat.
  rewrite Hread.
  change (Z.to_nat (SAFELOADER_PAYLOAD_TABLE_SIZE - 1)) with 0x7ff%nat.
  set (hdr := parthdr_of type) in *.
  set (text := table_text hdr ending rows) in *.
  rewrite length_app in Hlen. cbn [length] in Hlen.
  rewrite insert_app_r_alt by lia.
  assert (HX : ∃ Y, <[(0x7ff - length text)%nat := 0]> (0 :: junk) = 0 :: Y
                    ∧ length Y = length junk).
  { destruct (0x7ff - length text)%nat as [|i]; [by eexists|].
    exists (<[i := 0]> junk). split; [done|]. apply length_insert. }
  destruct HX as (Y & -> & HY).
  assert (Hhdr : Forall (λ c, c ≠ 0x20 ∧ c ≠ 0x0A) hdr).
  { unfold hdr. destruct type; repeat constructor; discriminate. }
  assert (Htake : take (length hdr) (text ++ 0 :: Y) = hdr).
  { unfold text. destruct rows as [|[[name base] size] rows]; [done|].
    unfold table_text. rewrite fmap_cons. cbn [concat].
    rewrite <- !app_assoc, table_line_tokens. apply take_app_length. }
  rewrite (bool_decide_true _ Htake). cbn [negb].
  rewrite (read_lines_table hdr ending max_entries rows); [done|done|done|done|done|done| |].
  - rewrite length_app. cbn [length].
    assert (length rows ≤ length text)%nat; [|lia].
    unfold text, table_text. clear. induction rows as [|r rows IH]; [done|].
    rewrite fmap_cons. cbn [concat length]. rewrite length_app.
    assert (1 ≤ length (table_line hdr ending r))%nat; [|lia].
    unfold table_line. rewrite !length_app. cbn [length]. lia.
  - apply andb_false_iff. right. apply bool_decide_eq_false.
    unfold hdr. destruct type; cbn [length take]; discriminate.
Qed.

Lemma fwup_table_rows parts : ∀ base,
  fwup_table base parts = table_text (cstr "fwup-ptn") [9; 13] (fwup_rows base parts).
Proof.
  induction parts as [|p parts IH]; intros base; [done|].
  cbn [fwup_table fwup_rows]. unfold table_text. rewrite fmap_cons. cbn [concat].
  f_equal. apply IH.
Qed.

Lemma fwup_entries_rows parts : ∀ base,
  fwup_entries base parts = row_entry <$> fwup_rows base parts.
Proof.
  induction parts as [|p parts IH]; intros base; [done|].
  cbn [fwup_entries fwup_rows]. rewrite fmap_cons. f_equal. apply IH.
Qed.

Lemma fwup_rows_names parts : ∀ base,
  Forall (λ p, table_name (ip_name p)) parts →
  Forall (λ r : table_row, table_name r.1.1) (fwup_rows base parts)
  ∧ length (fwup_rows base parts) = length parts.
Proof.
  induction parts as [|p parts IH]; intros base H; [done|].
  apply Forall_cons_1 in H as [Hp H]. destruct (IH (base + ip_size p) H) as [IH1 IH2].
  cbn [fwup_rows]. split; [by constructor|]. simpl. by rewrite IH2.
Qed.

Lemma flash_table_rows ps :
  flash_table ps = table_text (cstr "partition") [] (flash_rows ps).
Proof.
  unfold flash_table, table_text, flash_rows. rewrite <- list_fmap_compose. done.
Qed.

Lemma fread_at_app (a b c : list Z) (n : nat) :
  n = length b → fread_at (a ++ b ++ c) (Z.of_nat (length a)) n = Some b.
Proof.
  intros ->. unfold fread_at. rewrite (proj2 (Z.ltb_ge _ _)) by lia.
  rewrite Nat2Z.id. rewrite sublist_lookup_Some by (rewrite !length_app; lia).
  by rewrite drop_app_length, take_app_length.
Qed.

(** The table reader on a flash partition table as
    [make_partition_table] lays it out, wherever it lies in a file. *)
Lemma read_partition_table_flash (ps : list flash_partition_entry)
    (before after : list Z) :
  ps ≠ [] →
  Forall (λ p, table_name (fp_name p)) ps →
  Z.of_nat (length ps) ≤ MAX_PARTITIONS →
  (length (flash_table ps) + 5 ≤ 0x800)%nat →
  (4 ≤ length after)%nat →
  read_partition_table
    (before ++ ([0x00; 0x04; 0x00; 0x00] ++ flash_table ps ++ [0]
                ++ replicate (0x800 - 5 - length (flash_table ps)) 0xFF) ++ after)
    (Z.of_nat (length before) + 4) [] MAX_PARTITIONS PARTITION_TABLE_FLASH
  = Done (0, (λ p, {| fp_name := fp_name p; fp_base := wrap32 (fp_base p);
                      fp_size := wrap32 (fp_size p) |}) <$> ps).
Proof.
  intros Hne Hnames Hcount Hfit Hafter.
  set (text := flash_table ps) in *.
  set (k := (0x800 - 5 - length text)%nat).
  rewrite (read_partition_table_rows PARTITION_TABLE_FLASH [] (flash_rows ps)
             _ _ (replicate k 0xFF ++ take 4 after) [] MAX_PARTITIONS).
  - f_equal. f_equal. cbn [app]. unfold flash_rows. rewrite <- list_fmap_compose. done.
  - done.
  - done.
  - unfold flash_rows. intros H. by apply fmap_nil_inv in H.
  - unfold flash_rows. rewrite Forall_fmap. exact Hnames.
  - unfold flash_rows. rewrite length_fmap. simpl. lia.
  - change (parthdr_of PARTITION_TABLE_FLASH) with (cstr "partition").
    rewrite <- flash_table_rows. fold text.
    rewrite <- (take_drop 4 after) at 1.
    replace (before ++ ([0; 4; 0; 0] ++ text ++ [0] ++ replicate k 255)
             ++ take 4 after ++ drop 4 after)
      with ((before ++ [0; 4; 0; 0])
            ++ (text ++ 0 :: replicate k 255 ++ take 4 after) ++ drop 4 after).
    2:{ rewrite <- !app_assoc. cbn [app]. rewrite <- !app_assoc. reflexivity. }
    replace (Z.of_nat (length before) + 4) with (Z.of_nat (length (before ++ [0; 4; 0; 0])))
      by (rewrite length_app; simpl; lia).
    apply fread_at_app. rewrite length_app. cbn [length].
    rewrite length_app, length_replicate, length_take. unfold k. lia.
Qed.

(** X16. The flash partition table that [make_partition_table] writes
    reads back: wherever the partition lies in a file, followed by at
    least four more bytes, [read_partition_table] at four bytes past its
    start (behind the 00 04 00 00) returns the flash partitions of the
    profile in order, names unchanged, base and size as the u32 values
    that were printed.  The names are at most 31 bytes without NUL,
    space or line feed, and there are between 1 and 32 partitions. *)
Theorem flash_table_round_trip (uninit : nat → Z) (names : partition_names_set)
    (info : device_info) (e : image_partition_entry) (before after : list Z) :
  make_partition_table uninit names info = Done e →
  partitions info ≠ [] →
  Forall (λ p, table_name (fp_name p)) (partitions info) →
  Z.of_nat (length (partitions info)) ≤ MAX_PARTITIONS →
  (4 ≤ length after)%nat →
  read_partition_table (before ++ ip_data e ++ after) (Z.of_nat (length before) + 4)
    [] MAX_PARTITIONS PARTITION_TABLE_FLASH
  = Done (0, (λ p, {| fp_name := fp_name p; fp_base := wrap32 (fp_base p);
                      fp_size := wrap32 (fp_size p) |}) <$> partitions info).
Proof.
  intros He Hne Hnames Hcount Hafter.
  apply (make_partition_table_inv uninit uninit) in He as (Hfit & -> & _).
  cbn [ip_data].
  assert (Hsk : match partitions info with [] => uninit 4%nat | _ :: _ => 0 end = 0)
    by (by destruct (partitions info)).
  rewrite Hsk. by apply read_partition_table_flash.
Qed.

Lemma read_partition_table_capacity_witness :
  ∃ r es,
    read_partition_table (pad_to 0x800 (fwup_table 0x800 example_parts ++ [0])) 0
      [flash_entry "fs-uboot" 0 0x20000] 3 PARTITION_TABLE_FWUP = Done (r, es)
    ∧ Z.of_nat (length es) ≤ 3.
Proof.
  destruct (read_partition_table (pad_to 0x800 (fwup_table 0x800 example_parts ++ [0])) 0
              [flash_entry "fs-uboot" 0 0x20000] 3 PARTITION_TABLE_FWUP)
    as [[r es]|f] eqn:E; [|vm_compute in E; discriminate E].
  exists r, es. split; [reflexivity|].
  destruct (read_partition_table_capacity _ _ _ _ _ _ _ E) as (new & _ & _ & H).
  apply H. simpl. lia.
Defined.

Lemma flash_table_round_trip_witness :
  ∃ e, make_partition_table (λ _, 0x55) default_names example_profile = Done e
    ∧ read_partition_table ([1; 2; 3] ++ ip_data e ++ [9; 9; 9; 9]) 7
        [] MAX_PARTITIONS PARTITION_TABLE_FLASH
      = Done (0, partitions example_profile).
Proof.
  destruct (make_partition_table (λ _, 0x55) default_names example_profile)
    as [e|f] eqn:E; [|vm_compute in E; discriminate E].
  exists e. split; [reflexivity|].
  apply (flash_table_round_trip (λ _, 0x55) default_names example_profile e
           [1; 2; 3] [9; 9; 9; 9] E).
  - discriminate.
  - repeat constructor; try (simpl; lia); discriminate.
  - vm_compute. discriminate.
  - simpl. lia.
Defined.

Lemma take_drop_take (l t : list Z) (n m k : nat) :
  (n + m ≤ k)%nat → (k ≤ length l)%nat →
  take m (drop n (take k l ++ t)) = take m (drop n l).
Proof.
  intros Hk Hl. rewrite !take_drop_commute.
  rewrite take_app_le by (rewrite length_take; lia).
  rewrite take_take. by replace ((n + m) `min` k)%nat with (n + m)%nat by lia.
Qed.

Section FactoryHeader.

Variable uninit : nat → Z.
Variable MD5 : list Z → list Z.
Hypothesis MD5_length : ∀ m, length (MD5 m) = 16%nat.

(** The vendor block of a factory image. *)
Lemma generate_factory_image_vendor info parts image v :
  generate_factory_image uninit MD5 info parts = Done image →
  vendor info = Some v → (length v ≤ 0xFFC)%nat →
  take (4 + length v) (drop 0x14 image) = be32 (Z.of_nat (length v)) ++ v.
Proof.
  intros H Hv Hfit. unfold generate_factory_image in H.
  rewrite memset_malloc, bind_Done in H.
  apply bind_Done_inv in H as (image2 & H2 & H).
  apply bind_Done_inv in H as (image3 & H3 & H).
  apply bind_Done_inv in H as (image4 & H4 & H5).
  rewrite Hv in H3. apply bind_Done_inv in H3 as (b & H31 & H32).
  change (Z.to_nat SAFELOADER_PREAMBLE_SIZE) with 0x14%nat in *.
  change (Z.to_nat (SAFELOADER_PREAMBLE_SIZE + 4)) with 0x18%nat in *.
  change (Z.to_nat SAFELOADER_PAYLOAD_OFFSET) with 0x1014%nat in *.
  unfold put32 in H31.
  pose proof (memcpy_length _ _ _ _ H32) as L3.
  apply memcpy_inv in H31 as [B1 ->]. rewrite length_be32 in B1.
  apply memcpy_inv in H32 as [B2 E3].
  rewrite !length_app, length_take, length_be32, length_drop in B2.
  rewrite wrap32_small in E3 by lia.
  assert (LA : length (take 0x14 image2) = 0x14%nat) by (rewrite length_take; lia).
  rewrite (app_assoc (take 0x14 image2)) in E3.
  rewrite take_app_length' in E3 by (rewrite length_app, length_be32; lia).
  assert (D3 : take (4 + length v) (drop 0x14 image3) = be32 (Z.of_nat (length v)) ++ v).
  { rewrite E3, <- !app_assoc. rewrite drop_app_length' by done.
    rewrite app_assoc. apply take_app_length'.
    rewrite length_app, length_be32. done. }
  apply at_offset_inv in H4 as (tail' & Hoff & _ & ->).
  change (Z.to_nat SAFELOADER_PAYLOAD_OFFSET) with 0x1014%nat in *.
  apply (memcpy_drop _ _ _ _ 0x14) in H5.
  2:{ unfold put_md5, MD5_Final. rewrite MD5_length. lia. }
  rewrite H5. rewrite take_drop_take by lia. exact D3.
Qed.

(** The table region of a factory image whose vendor block ends before
    it. *)
Lemma generate_factory_image_table info parts image :
  generate_factory_image uninit MD5 info parts = Done image →
  match vendor info with Some v => (length v ≤ 0xFFC)%nat | None => True end →
  let text := fwup_table 0x800 parts in
  let used := (length text + length (table_end parts))%nat in
  (used ≤ 0x800)%nat
  ∧ (0x1814 ≤ length image)%nat
  ∧ take 0x800 (drop 0x1014 image)
    = text ++ table_end parts ++ replicate (0x800 - used) 0xFF.
Proof.
  intros H Hv text used.
  apply (generate_factory_image_inv uninit MD5 MD5_length) in H
    as (L & _ & _ & U & T & _ & F & _).
  change SAFELOADER_PAYLOAD_TABLE_SIZE with 0x800 in *.
  fold text in U, T, F. fold used in U, T, F.
  assert (Hl : (0x1814 ≤ length image)%nat).
  { unfold SAFELOADER_PAYLOAD_OFFSET, SAFELOADER_PREAMBLE_SIZE, SAFELOADER_HEADER_SIZE in L.
    rewrite parts_size_data in L. lia. }
  split; [done|]. split; [done|].
  rewrite <- (take_drop used (take 0x800 (drop 0x1014 image))).
  rewrite take_take. replace (used `min` 0x800)%nat with used by lia.
  rewrite T, <- app_assoc. f_equal. f_equal.
  apply list_eq. intros i.
  rewrite lookup_drop.
  destruct (decide (used + i < 0x800)%nat) as [Hi|Hi].
  - rewrite lookup_take_lt by lia. rewrite lookup_drop.
    rewrite lookup_replicate_2 by lia.
    apply F; [lia| |lia].
    destruct (vendor info) as [v|]; [right; lia|done].
  - rewrite lookup_take_ge by lia.
    symmetry. apply lookup_replicate_None. lia.
Qed.

(** The first bytes of the header of a factory image without a vendor
    string. *)
Lemma generate_factory_image_no_vendor info parts image :
  generate_factory_image uninit MD5 info parts = Done image →
  vendor info = None →
  take 4 (drop 0x14 image) = [0xFF; 0xFF; 0xFF; 0xFF].
Proof.
  intros H Hv.
  apply (generate_factory_image_inv uninit MD5 MD5_length) in H
    as (L & _ & _ & _ & _ & _ & F & _).
  assert (Hl : (0x1814 ≤ length image)%nat).
  { unfold SAFELOADER_PAYLOAD_OFFSET, SAFELOADER_PREAMBLE_SIZE, SAFELOADER_HEADER_SIZE,
      SAFELOADER_PAYLOAD_TABLE_SIZE in L.
    rewrite parts_size_data in L. lia. }
  apply list_eq. intros i. rewrite Hv in F.
  destruct (decide (i < 4)%nat) as [Hi|Hi].
  - rewrite lookup_take_lt by lia. rewrite lookup_drop.
    rewrite F; [|lia|done|lia].
    by destruct i as [|[|[|[|i]]]]; [| | | |lia].
  - rewrite lookup_take_ge by lia. symmetry. apply lookup_ge_None. simpl. lia.
Qed.

End FactoryHeader.

Lemma fread_at_in (file : list Z) (offset : Z) (n : nat) :
  0 ≤ offset → offset + Z.of_nat n ≤ Z.of_nat (length file) →
  fread_at file offset n = Some (take n (drop (Z.to_nat offset) file)).
Proof.
  intros Ho Hl. unfold fread_at. rewrite (proj2 (Z.ltb_ge _ _)) by lia.
  apply sublist_lookup_Some. lia.
Qed.

Lemma be32_small n : 0 ≤ n < 2 ^ 16 → ∃ b2 b3, be32 n = [0; 0; b2; b3].
Proof.
  intros Hn. unfold be32, wrap8. exists ((n ≫ 8) `mod` 256), (n `mod` 256).
  rewrite !Z.shiftr_div_pow2 by lia.
  rewrite (Z.div_small n (2 ^ 24)), (Z.div_small n (2 ^ 16)) by lia. done.
Qed.

(** The image table of a factory image, as the parser reads it. *)
Lemma factory_image_table_read (uninit : nat → Z) (MD5 : list Z → list Z)
    (info : device_info) (parts : list image_partition_entry) (image : list Z) :
  (∀ m, length (MD5 m) = 16%nat) →
  generate_factory_image uninit MD5 info parts = Done image →
  Forall (λ p, table_name (ip_name p)) parts →
  Z.of_nat (length parts) ≤ MAX_PARTITIONS →
  match vendor info with Some v => (length v ≤ 0xFFC)%nat | None => True end →
  read_partition_table image SAFELOADER_PAYLOAD_OFFSET [] MAX_PARTITIONS
    PARTITION_TABLE_FWUP
  = Done (match parts with [] => 1 | _ => 0 end, fwup_entries 0x800 parts).
Proof.
  intros HMD5 Himg Hnames Hcount Hv.
  destruct (generate_factory_image_table uninit MD5 HMD5 info parts image Himg Hv)
    as (Hused & Hlen & Htab).
  assert (Hread : fread_at image SAFELOADER_PAYLOAD_OFFSET 0x800
                  = Some (take 0x800 (drop 0x1014 image))).
  { apply fread_at_in; [done|].
    unfold SAFELOADER_PAYLOAD_OFFSET, SAFELOADER_PREAMBLE_SIZE, SAFELOADER_HEADER_SIZE. lia. }
  rewrite Htab in Hread.
  destruct parts as [|p parts].
  - rewrite read_partition_table_seek by done. cbv zeta.
    change (Z.to_nat SAFELOADER_PAYLOAD_TABLE_SIZE) with 0x800%nat.
    rewrite Hread. cbn [fwup_table table_end app length fwup_entries].
    change (Z.to_nat (SAFELOADER_PAYLOAD_TABLE_SIZE - 1)) with 0x7ff%nat.
    rewrite take_insert_ge by (simpl; lia).
    rewrite take_replicate. done.
  - destruct (fwup_rows_names (p :: parts) 0x800 Hnames) as [Hrn Hrl].
    rewrite fwup_table_rows in Hread.
    rewrite fwup_entries_rows.
    change (table_end (p :: parts)) with [0] in Hread.
    apply (read_partition_table_rows PARTITION_TABLE_FWUP [9; 13]
             (fwup_rows 0x800 (p :: parts)) image SAFELOADER_PAYLOAD_OFFSET
             (replicate (0x800 - (length (table_text (cstr "fwup-ptn") [9; 13]
                                            (fwup_rows 0x800 (p :: parts))) + 1)) 0xFF)
             [] MAX_PARTITIONS);
      [repeat constructor; discriminate|done|done|done| |exact Hread].
    rewrite Hrl. simpl. simpl in Hcount. lia.
Qed.

(** The header of a factory image, as the parser reads it, and the
    variant it detects. *)
Lemma factory_image_type (uninit : nat → Z) (MD5 : list Z → list Z)
    (info : device_info) (parts : list image_partition_entry) (image : list Z) :
  (∀ m, length (MD5 m) = 16%nat) →
  generate_factory_image uninit MD5 info parts = Done image →
  match vendor info with Some v => (length v ≤ 0xFFC)%nat | None => True end →
  ∃ buf, fread_at image SAFELOADER_PREAMBLE_SIZE 64 = Some buf
    ∧ detect_type buf = match vendor info with
                        | Some _ => SAFELOADER_TYPE_VENDOR
                        | None => SAFELOADER_TYPE_DEFAULT
                        end.
Proof.
  intros HMD5 Himg Hv.
  destruct (generate_factory_image_table uninit MD5 HMD5 info parts image Himg Hv)
    as (_ & Hlen & _).
  exists (take 64 (drop 0x14 image)). split.
  { apply fread_at_in; unfold SAFELOADER_PREAMBLE_SIZE; lia. }
  set (buf := take 64 (drop 0x14 image)).
  assert (Hbuf : buf = take 4 (drop 0x14 image) ++ drop 4 buf).
  { rewrite <- (take_drop 4 buf) at 1. f_equal. unfold buf.
    rewrite take_take. done. }
  destruct (vendor info) as [v|] eqn:Ev.
  - pose proof (generate_factory_image_vendor uninit MD5 HMD5 info parts image v
                  Himg Ev Hv) as Hvb.
    assert (H4 : take 4 (drop 0x14 image) = be32 (Z.of_nat (length v))).
    { apply (f_equal (take 4)) in Hvb. rewrite take_take in Hvb.
      replace (4 `min` (4 + length v))%nat with 4%nat in Hvb by lia.
      rewrite Hvb. by apply take_app_length'. }
    rewrite H4 in Hbuf. rewrite Hbuf.
    pose proof (get32_be32 (Z.of_nat (length v)) ltac:(lia)) as Hg.
    destruct (be32_small (Z.of_nat (length v)) ltac:(lia)) as (b2 & b3 & Hb).
    rewrite Hb in Hg |- *. unfold detect_type, memeq. cbn [app].
    destruct (bool_decide _) eqn:E1;
      [apply bool_decide_eq_true in E1; cbn in E1; discriminate E1|].
    destruct (bool_decide _) eqn:E2;
      [apply bool_decide_eq_true in E2; cbn in E2; discriminate E2|].
    change (get32 (0 :: 0 :: b2 :: b3 :: drop 4 buf)) with (get32 [0; 0; b2; b3]).
    rewrite Hg. by rewrite (proj2 (Z.leb_le _ _))
      by (unfold SAFELOADER_HEADER_SIZE; lia).
  - rewrite (generate_factory_image_no_vendor uninit MD5 HMD5 info parts image Himg Ev)
      in Hbuf.
    rewrite Hbuf. reflexivity.
Qed.

(** X17. A factory image parses back: for built partitions with names
    of at most 31 bytes without NUL, space or line feed, at most 32 of
    them, and a vendor string of at most 0xFFC bytes if there is one,
    [safeloader_parse_image] on the image that [generate_factory_image]
    returns finds the variant VENDOR with a vendor string and DEFAULT
    without, the payload at 0x1014, and one entry per partition in
    order: its name, its base 0x800 plus the sizes before it, and its
    size (as u32 values). *)
Theorem factory_image_parses (uninit : nat → Z) (MD5 : list Z → list Z)
    (info : device_info) (parts : list image_partition_entry) (image : list Z) :
  (∀ m, length (MD5 m) = 16%nat) →
  generate_factory_image uninit MD5 info parts = Done image →
  Forall (λ p, table_name (ip_name p)) parts →
  Z.of_nat (length parts) ≤ MAX_PARTITIONS →
  match vendor info with Some v => (length v ≤ 0xFFC)%nat | None => True end →
  safeloader_parse_image image
  = Done {| type := match vendor info with
                    | Some _ => SAFELOADER_TYPE_VENDOR
                    | None => SAFELOADER_TYPE_DEFAULT
                    end;
            payload_offset := 0x1014;
            image_entries := fwup_entries 0x800 parts |}.
Proof.
  intros HMD5 Himg Hnames Hcount Hv.
  pose proof (factory_image_table_read uninit MD5 info parts image HMD5 Himg Hnames
                Hcount Hv) as Htable.
  destruct (factory_image_type uninit MD5 info parts image HMD5 Himg Hv)
    as (buf & Hbuf & Hty).
  unfold safeloader_parse_image. rewrite Hbuf, Hty.
  assert (Hoff : payload_offset_of (match vendor info with
                                    | Some _ => SAFELOADER_TYPE_VENDOR
                                    | None => SAFELOADER_TYPE_DEFAULT
                                    end) = SAFELOADER_PAYLOAD_OFFSET)
    by (by destruct (vendor info)).
  rewrite Hoff, Htable. reflexivity.
Qed.

Lemma factory_image_parses_witness :
  ∃ image,
    generate_factory_image (λ _, 0) example_digest
      {| id := cstr "EXAMPLE"; vendor := Some (cstr "EXAMPLE(TP-LINK|UN|N300-2):1.0");
         support_list := []; part_trail := PART_TRAIL_NONE;
         soft_version_spec := SOFT_VER_NUMERIC 0 0 0; soft_ver_compat_level := 0;
         partitions := example_flash;
         first_sysupgrade_partition := cstr "os-image";
         last_sysupgrade_partition := cstr "file-system";
         partition_names := partition_names example_profile |} example_parts
    = Done image
    ∧ safeloader_parse_image image
      = Done {| type := SAFELOADER_TYPE_VENDOR; payload_offset := 0x1014;
                image_entries :=
                  [{| fp_name := cstr "os-image"; fp_base := 0x800; fp_size := 2 |};
                   {| fp_name := cstr "file-system"; fp_base := 0x802; fp_size := 3 |}] |}.
Proof.
  match goal with
  | |- ∃ image, ?g = Done image ∧ _ => destruct g as [image|f] eqn:E
  end; [|vm_compute in E; discriminate E].
  exists image. split; [reflexivity|].
  apply (factory_image_parses _ _ _ _ _ (λ m, length_replicate 16 _) E).
  - repeat constructor; try (simpl; lia); discriminate.
  - vm_compute. discriminate.
  - simpl. lia.
Defined.

(** X18. [safeloader_parse_image] needs the 64 header bytes at 0x14 and
    the 0x800 bytes of the table at the payload offset: an input of
    fewer than 0x54 bytes is a fatal error, and when the parser returns,
    the input reaches to the end of the table region and the table has
    at most 32 entries. *)
Theorem safeloader_parse_image_bounds (input_file : list Z) :
  ((length input_file < 0x54)%nat →
   safeloader_parse_image input_file = Fail (Exit "Can not read image header"))
  ∧ (∀ info, safeloader_parse_image input_file = Done info →
       payload_offset info = payload_offset_of (type info)
       ∧ payload_offset info + 0x800 ≤ Z.of_nat (length input_file)
       ∧ Z.of_nat (length (image_entries info)) ≤ MAX_PARTITIONS).
Proof.
  unfold safeloader_parse_image. split.
  - intros Hshort.
    destruct (fread_at input_file SAFELOADER_PREAMBLE_SIZE 64) as [buf|] eqn:E; [|done].
    apply fread_at_Some in E as (_ & Hl & _).
    unfold SAFELOADER_PREAMBLE_SIZE in Hl. lia.
  - intros info H.
    destruct (fread_at input_file SAFELOADER_PREAMBLE_SIZE 64) as [buf|]; [|done].
    pose proof (read_partition_table_inv input_file (payload_offset_of (detect_type buf))
                  [] MAX_PARTITIONS PARTITION_TABLE_FWUP) as Hinv.
    destruct (read_partition_table _ _ _ _ _) as [[r es]|f]; [|done].
    rewrite bind_Done in H. injection H as <-. cbn [type payload_offset image_entries].
    destruct Hinv as (_ & (new & -> & Hcap) & _ & Hl).
    split; [done|]. split; [done|].
    destruct new as [|x new]; [done|]. by apply Hcap.
Qed.

Lemma safeloader_parse_image_bounds_witness :
  safeloader_parse_image (replicate 0x53 0xFF) = Fail (Exit "Can not read image header")
  ∧ ∃ info, safeloader_parse_image oversized_image = Done info
      ∧ Z.of_nat (length (image_entries info)) ≤ MAX_PARTITIONS.
Proof.
  split.
  - apply (safeloader_parse_image_bounds (replicate 0x53 0xFF)). simpl. lia.
  - destruct (safeloader_parse_image oversized_image) as [info|f] eqn:E;
      [|vm_compute in E; discriminate E].
    exists info. split; [reflexivity|].
    apply (safeloader_parse_image_bounds oversized_image) in E as (_ & _ & H).
    exact H.
Defined.

Lemma fwrite_empty (data : list Z) :
  content (fwrite data {| content := []; position := 0 |}) = data.
Proof.
  unfold fwrite. cbn [content position]. simpl. by rewrite drop_nil, app_nil_r.
Qed.

(** The loop of [extract_firmware] on the entries of an image whose
    partitions lie back to back from [firmware_offset + base] on. *)
Lemma extract_partitions_parts (fopen_wb : list Z → bool) (image dir : list Z)
    (firmware_offset : Z) (parts : list image_partition_entry) : ∀ base,
  0 ≤ firmware_offset → 0 ≤ base → base + parts_size parts < 2 ^ 32 →
  take (length (parts_data parts)) (drop (Z.to_nat (firmware_offset + base)) image)
  = parts_data parts →
  Forall (λ p, fopen_wb (output_path dir (ip_name p)) = true) parts →
  extract_partitions fopen_wb image firmware_offset (fwup_entries base parts) dir
  = Done ((λ p, (output_path dir (ip_name p), ip_data p)) <$> parts).
Proof.
  induction parts as [|p parts IH]; intros base Hoff Hbase Hfit Hdata Hopen; [done|].
  apply Forall_cons_1 in Hopen as [Hp Hopen].
  cbn [parts_size foldr] in Hfit. fold (parts_size parts) in Hfit.
  assert (Hps : 0 ≤ parts_size parts).
  { rewrite parts_size_data. lia. }
  assert (Hsz : ip_size p = Z.of_nat (length (ip_data p))) by done.
  unfold parts_data in Hdata. rewrite fmap_cons in Hdata. cbn [concat] in Hdata.
  fold (parts_data parts) in Hdata. rewrite length_app in Hdata.
  remember (Z.to_nat (firmware_offset + base)) as k eqn:Hk.
  assert (Hlen : ip_size p ≠ 0 →
            (k + (length (ip_data p) + length (parts_data parts)) ≤ length image)%nat).
  { intros Hne. apply (f_equal length) in Hdata.
    rewrite length_take, length_drop, length_app in Hdata. lia. }
  assert (Hhead : take (length (ip_data p)) (drop k image) = ip_data p).
  { apply (f_equal (take (length (ip_data p)))) in Hdata.
    rewrite take_take, take_app_length in Hdata.
    by replace (length (ip_data p) `min` (length (ip_data p) + length (parts_data parts)))%nat
      with (length (ip_data p)) in Hdata by lia. }
  assert (Htail : take (length (parts_data parts))
                    (drop (Z.to_nat (firmware_offset + (base + ip_size p))) image)
                  = parts_data parts).
  { apply (f_equal (drop (length (ip_data p)))) in Hdata.
    rewrite drop_app_length in Hdata.
    rewrite <- take_drop_commute, drop_drop in Hdata.
    replace (Z.to_nat (firmware_offset + (base + ip_size p)))
      with (k + length (ip_data p))%nat by lia.
    exact Hdata. }
  cbn [fwup_entries extract_partitions fmap list_fmap].
  unfold extract_firmware_partition at 1. cbn [fp_name]. rewrite Hp. cbn [negb].
  rewrite !wrap32_small by lia.
  assert (Hw : write_partition image firmware_offset
                 {| fp_name := ip_name p; fp_base := base; fp_size := ip_size p |}
                 {| content := []; position := 0 |}
               = Done (if ip_size p =? 0 then {| content := []; position := 0 |}
                       else fwrite (ip_data p) {| content := []; position := 0 |})).
  { destruct (Z.eqb_spec (ip_size p) 0) as [E0|Hne].
    - unfold write_partition. cbn [fp_size]. rewrite E0. reflexivity.
    - specialize (Hlen Hne).
      apply write_partition_all; cbn [fp_base fp_size]; [lia|lia|].
      rewrite fread_at_in by lia. rewrite Hsz, Nat2Z.id.
      replace (Z.to_nat (base + firmware_offset)) with k by lia. by rewrite Hhead. }
  rewrite Hw, bind_Done.
  rewrite (IH (base + ip_size p)) by (done || lia).
  rewrite !bind_Done. f_equal. f_equal. f_equal.
  destruct (Z.eqb_spec (ip_size p) 0) as [E0|Hne]; [|apply fwrite_empty].
  cbn [content]. symmetry. apply nil_length_inv. lia.
Qed.

(** X19. Extracting a factory image gives back the partitions it was
    built from: for at most 32 partitions with names of at most 31 bytes
    without NUL, space or line feed, a vendor string of at most 0xFFC
    bytes if there is one, a payload of less than 4 GiB and output files
    that can all be opened, [extract_firmware] on the
    image that [generate_factory_image] returns writes one file per
    partition, in order, at "<directory>/<name>" (cut to PATH_MAX - 1
    bytes), with exactly the bytes of the partition. *)
Theorem extract_factory_image (uninit : nat → Z) (MD5 : list Z → list Z)
    (fopen_wb : list Z → bool) (info : device_info)
    (parts : list image_partition_entry) (image output_directory : list Z) :
  (∀ m, length (MD5 m) = 16%nat) →
  generate_factory_image uninit MD5 info parts = Done image →
  Forall (λ p, table_name (ip_name p)) parts →
  Z.of_nat (length parts) ≤ MAX_PARTITIONS →
  match vendor info with Some v => (length v ≤ 0xFFC)%nat | None => True end →
  0x800 + parts_size parts < 2 ^ 32 →
  Forall (λ p, fopen_wb (output_path output_directory (ip_name p)) = true) parts →
  extract_firmware fopen_wb (Some image) (Some true) output_directory
  = Done ((λ p, (output_path output_directory (ip_name p), ip_data p)) <$> parts).
Proof.
  intros HMD5 Himg Hnames Hcount Hv Hfit Hopen.
  pose proof (factory_image_table_read uninit MD5 info parts image HMD5 Himg Hnames
                Hcount Hv) as Htable.
  destruct (factory_image_type uninit MD5 info parts image HMD5 Himg Hv)
    as (buf & Hbuf & Hty).
  unfold extract_firmware, safeloader_parse_image. rewrite Hbuf, Hty.
  assert (Hoff : payload_offset_of (match vendor info with
                                    | Some _ => SAFELOADER_TYPE_VENDOR
                                    | None => SAFELOADER_TYPE_DEFAULT
                                    end) = SAFELOADER_PAYLOAD_OFFSET)
    by (by destruct (vendor info)).
  rewrite Hoff, Htable. rewrite !bind_Done. cbn [payload_offset image_entries].
  assert (Hn : length (fwup_entries 0x800 parts) = length parts).
  { rewrite fwup_entries_rows, length_fmap.
    by destruct (fwup_rows_names parts 0x800 Hnames). }
  rewrite take_ge by (rewrite Hn; unfold MAX_PARTITIONS in *; lia).
  apply (generate_factory_image_inv uninit MD5 HMD5) in Himg
    as (_ & _ & _ & _ & _ & D & _).
  apply extract_partitions_parts; [done|done|done| |done].
  change (Z.to_nat (SAFELOADER_PAYLOAD_OFFSET + 2048)) with 0x1814%nat.
  rewrite D. apply take_ge. done.
Qed.

Lemma extract_factory_image_witness :
  ∃ image,
    generate_factory_image (λ _, 0) example_digest
      {| id := cstr "EXAMPLE"; vendor := None;
         support_list := []; part_trail := PART_TRAIL_NONE;
         soft_version_spec := SOFT_VER_NUMERIC 0 0 0; soft_ver_compat_level := 0;
         partitions := example_flash;
         first_sysupgrade_partition := cstr "os-image";
         last_sysupgrade_partition := cstr "file-system";
         partition_names := partition_names example_profile |} example_parts
    = Done image
    ∧ extract_firmware (λ _, true) (Some image) (Some true) (cstr "out")
      = Done [(cstr "out/os-image", [7; 8]); (cstr "out/file-system", [1; 2; 3])].
Proof.
  match goal with
  | |- ∃ image, ?g = Done image ∧ _ => destruct g as [image|f] eqn:E
  end; [|vm_compute in E; discriminate E].
  exists image. split; [reflexivity|].
  apply (extract_factory_image _ _ (λ _, true) _ _ _ (cstr "out")
           (λ m, length_replicate 16 _) E).
  - repeat constructor; try (simpl; lia); discriminate.
  - vm_compute. discriminate.
  - exact I.
  - vm_compute. reflexivity.
  - repeat constructor.
Defined.

Lemma decimal_value_bound ds : ∀ acc,
  Forall (λ d, 0 ≤ d ≤ 9) ds → 0 ≤ acc → acc ≤ decimal_value acc ds.
Proof.
  induction ds as [|d ds IH]; intros acc Hds Hacc; [done|].
  apply Forall_cons_1 in Hds as [Hd Hds]. cbn [decimal_value foldl].
  specialize (IH (acc * 10 + d) Hds ltac:(lia)). unfold decimal_value in IH. lia.
Qed.

Lemma digit_value_decimal d : 0 ≤ d ≤ 9 → digit_value (48 + d) = Some d.
Proof.
  intros Hd. unfold digit_value.
  rewrite (proj2 (Z.leb_le 48 (48 + d))), (proj2 (Z.leb_le (48 + d) 57)) by lia.
  cbn [andb]. f_equal. lia.
Qed.

Lemma digit_value_range c d :
  digit_value c = Some d → 0 ≤ d ∧ (d < 10 → 48 ≤ c ≤ 57).
Proof.
  unfold digit_value.
  destruct ((48 <=? c) && (c <=? 57)) eqn:E1; [intros [= <-]; lia|].
  destruct ((97 <=? c) && (c <=? 122)) eqn:E2; [intros [= <-]; lia|].
  destruct ((65 <=? c) && (c <=? 90)) eqn:E3; [intros [= <-]; lia|done].
Qed.

(** After an overflow the accumulator stays at the maximum. *)
Lemma strtoul_digits_saturated s :
  strtoul_digits 10 s ULONG_MAX true = (ULONG_MAX, true).
Proof.
  induction s as [|c s IH]; [done|].
  cbn [strtoul_digits]. destruct (digit_value c) as [d|] eqn:E; [|done].
  apply digit_value_range in E as [Hd _].
  destruct (d <? 10); [|done].
  rewrite (proj2 (Z.ltb_lt _ _)) by (unfold ULONG_MAX; lia). exact IH.
Qed.

Lemma strtoul_digits_stop rest acc flag :
  decimal_stop rest →
  strtoul_digits 10 rest acc flag = (acc, flag) ∧ digits_rest 10 rest = rest.
Proof.
  destruct rest as [|c rest]; [done|]. intros Hc. simpl in Hc.
  cbn [strtoul_digits digits_rest].
  destruct (digit_value c) as [d|] eqn:E; [|done].
  apply digit_value_range in E as [_ Hd].
  destruct (Z.ltb_spec d 10); [lia|done].
Qed.

Lemma strtoul_digits_decimal ds : ∀ acc rest,
  Forall (λ d, 0 ≤ d ≤ 9) ds → 0 ≤ acc ≤ ULONG_MAX → decimal_stop rest →
  strtoul_digits 10 (decimal_chars ds ++ rest) acc false
  = (if decimal_value acc ds <=? ULONG_MAX
     then (decimal_value acc ds, false) else (ULONG_MAX, true))
  ∧ digits_rest 10 (decimal_chars ds ++ rest) = rest.
Proof.
  induction ds as [|d ds IH]; intros acc rest Hds Hacc Hrest.
  - cbn [decimal_chars fmap list_fmap app decimal_value foldl].
    rewrite (proj2 (Z.leb_le _ _)) by lia. by apply strtoul_digits_stop.
  - apply Forall_cons_1 in Hds as [Hd Hds].
    unfold decimal_chars. rewrite fmap_cons. fold (decimal_chars ds).
    cbn [app strtoul_digits digits_rest decimal_value foldl].
    fold (decimal_value (acc * 10 + d) ds).
    rewrite digit_value_decimal by done.
    rewrite (proj2 (Z.ltb_lt d 10)) by lia.
    destruct (Z.ltb_spec ULONG_MAX (acc * 10 + d)) as [Hov|Hok].
    + rewrite strtoul_digits_saturated.
      pose proof (decimal_value_bound ds (acc * 10 + d) Hds ltac:(lia)).
      rewrite (proj2 (Z.leb_gt _ _)) by lia.
      split; [done|].
      apply (IH 0 rest Hds ltac:(unfold ULONG_MAX; lia) Hrest).
    + apply IH; [done|lia|done].
Qed.

Lemma decimal_chars_head ds :
  ds ≠ [] → Forall (λ d, 0 ≤ d ≤ 9) ds →
  ∃ c s, decimal_chars ds = c :: s ∧ 48 ≤ c ≤ 57.
Proof.
  destruct ds as [|d ds]; [done|]. intros _ Hds.
  apply Forall_cons_1 in Hds as [Hd _].
  exists (48 + d), (decimal_chars ds). split; [done|lia].
Qed.

(** [strtoull] on a decimal number followed by something else. *)
Lemma strtoull_decimal ds rest :
  ds ≠ [] → Forall (λ d, 0 ≤ d ≤ 9) ds → decimal_stop rest →
  strtoull (decimal_chars ds ++ rest)
  = (if decimal_value 0 ds <=? ULONG_MAX then decimal_value 0 ds else ULONG_MAX,
     rest, negb (decimal_value 0 ds <=? ULONG_MAX)).
Proof.
  intros Hne Hds Hrest.
  destruct (strtoul_digits_decimal ds 0 rest Hds ltac:(unfold ULONG_MAX; lia) Hrest)
    as [Hv Hr].
  destruct (decimal_chars_head ds Hne Hds) as (c & s & Hc & Hrange).
  unfold strtoull. rewrite Hc in *. cbn [app] in *.
  assert (Hsp : skip_spaces (c :: s ++ rest) = c :: s ++ rest).
  { cbn [skip_spaces]. unfold isspace.
    destruct (Z.eqb_spec c 32); [lia|].
    destruct (Z.leb_spec 9 c); destruct (Z.leb_spec c 13); try lia; done. }
  rewrite Hsp.
  assert (Hsign : (match c :: s ++ rest with
                   | 45 :: t' => (true, t')
                   | 43 :: t' => (false, t')
                   | _ => (false, c :: s ++ rest)
                   end) = (false, c :: s ++ rest)).
  { destruct (decide (c = 45)) as [->|]; [lia|].
    destruct (decide (c = 43)) as [->|]; [lia|].
    destruct c as [|c|c]; try done.
    do 6 (destruct c as [c|c|]; try done). }
  rewrite Hsign. rewrite Hr, Hv.
  rewrite bool_decide_false.
  2:{ intros Heq. apply (f_equal length) in Heq. simpl in Heq.
      rewrite length_app in Heq. lia. }
  by destruct (_ <=? _).
Qed.

(** [strtoull] on a decimal number with a minus sign. *)
Lemma strtoull_negative ds :
  ds ≠ [] → Forall (λ d, 0 ≤ d ≤ 9) ds →
  strtoull (45 :: decimal_chars ds)
  = (if decimal_value 0 ds <=? ULONG_MAX then wrap64 (- decimal_value 0 ds)
     else ULONG_MAX,
     [], negb (decimal_value 0 ds <=? ULONG_MAX)).
Proof.
  intros Hne Hds.
  destruct (strtoul_digits_decimal ds 0 [] Hds ltac:(unfold ULONG_MAX; lia) I)
    as [Hv Hr].
  rewrite app_nil_r in Hv, Hr.
  unfold strtoull. change (skip_spaces (45 :: decimal_chars ds)) with (45 :: decimal_chars ds).
  cbv iota beta. rewrite Hr, Hv.
  rewrite bool_decide_false.
  2:{ intros Heq. destruct ds; [done|discriminate Heq]. }
  by destruct (_ <=? _).
Qed.

(** A decimal number below 2^63 is stored as it is. *)
Lemma set_source_date_epoch_digits (ds : list Z) :
  ds ≠ [] → Forall (λ d, 0 ≤ d ≤ 9) ds → decimal_value 0 ds < 2 ^ 63 →
  set_source_date_epoch (Some (decimal_chars ds)) = Done (decimal_value 0 ds).
Proof.
  intros Hne Hds Hv.
  assert (Hv0 : 0 ≤ decimal_value 0 ds) by (apply (decimal_value_bound ds 0 Hds); lia).
  destruct (decimal_chars_head ds Hne Hds) as (c0 & s0 & Hc0 & _).
  unfold set_source_date_epoch.
  pose proof (strtoull_decimal ds [] Hne Hds I) as Hs.
  rewrite app_nil_r in Hs. rewrite Hc0 in *. rewrite Hs.
  rewrite (proj2 (Z.leb_le _ ULONG_MAX)) by (unfold ULONG_MAX; lia).
  cbn [negb orb]. rewrite bool_decide_true by done. cbn [negb].
  unfold to_time_t. by rewrite (proj2 (Z.ltb_lt _ _)) by lia.
Qed.

(** X20. [set_source_date_epoch] leaves the clock override at -1 when
    the variable is unset or empty.  A decimal number sets it to that
    number; a number of 2^64 or more, and a number followed by anything
    that is not a digit, are fatal errors.  A minus sign is accepted:
    "-N" sets the override to -N, so that "-1" sets the very value that
    stands for no override. *)
Theorem set_source_date_epoch_decimal (ds : list Z) :
  ds ≠ [] → Forall (λ d, 0 ≤ d ≤ 9) ds →
  let v := decimal_value 0 ds in
  set_source_date_epoch None = Done (-1)
  ∧ set_source_date_epoch (Some []) = Done (-1)
  ∧ (v < 2 ^ 63 → set_source_date_epoch (Some (decimal_chars ds)) = Done v)
  ∧ (2 ^ 64 ≤ v → set_source_date_epoch (Some (decimal_chars ds))
                  = Fail (Exit "Invalid SOURCE_DATE_EPOCH"))
  ∧ (∀ c rest, ¬ (48 ≤ c ≤ 57) →
       set_source_date_epoch (Some (decimal_chars ds ++ c :: rest))
       = Fail (Exit "Invalid SOURCE_DATE_EPOCH"))
  ∧ (0 < v ≤ 2 ^ 63 → set_source_date_epoch (Some (45 :: decimal_chars ds)) = Done (- v)).
Proof.
  intros Hne Hds v.
  assert (Hv0 : 0 ≤ v) by (apply (decimal_value_bound ds 0 Hds); lia).
  destruct (decimal_chars_head ds Hne Hds) as (c0 & s0 & Hc0 & _).
  split; [done|]. split; [done|]. split; [|split; [|split]].
  - intros Hv. unfold set_source_date_epoch.
    pose proof (strtoull_decimal ds [] Hne Hds I) as Hs.
    rewrite app_nil_r in Hs. rewrite Hc0 in *. rewrite Hs. fold v.
    rewrite (proj2 (Z.leb_le v ULONG_MAX)) by (unfold ULONG_MAX; lia).
    cbn [negb orb]. rewrite bool_decide_true by done. cbn [negb].
    unfold to_time_t. by rewrite (proj2 (Z.ltb_lt _ _)) by lia.
  - intros Hv. unfold set_source_date_epoch.
    pose proof (strtoull_decimal ds [] Hne Hds I) as Hs.
    rewrite app_nil_r in Hs. rewrite Hc0 in *. rewrite Hs. fold v.
    by rewrite (proj2 (Z.leb_gt v ULONG_MAX)) by (unfold ULONG_MAX; lia).
  - intros c rest Hc. unfold set_source_date_epoch.
    pose proof (strtoull_decimal ds (c :: rest) Hne Hds Hc) as Hs.
    rewrite Hc0 in *. cbn [app] in *. rewrite Hs.
    rewrite bool_decide_false by done. by rewrite orb_true_r.
  - intros Hv. unfold set_source_date_epoch.
    rewrite (strtoull_negative ds Hne Hds). fold v.
    rewrite (proj2 (Z.leb_le v ULONG_MAX)) by (unfold ULONG_MAX; lia).
    cbn [negb orb]. rewrite bool_decide_true by done. cbn [negb].
    unfold to_time_t, wrap64.
    replace (- v) with (2 ^ 64 - v + (-1) * 2 ^ 64) by lia.
    rewrite Z_mod_plus_full, Z.mod_small by lia.
    rewrite (proj2 (Z.ltb_ge _ _)) by lia. f_equal; lia.
Qed.

Lemma set_source_date_epoch_decimal_witness :
  set_source_date_epoch (Some (cstr "1715904000")) = Done 1715904000
  ∧ set_source_date_epoch (Some (cstr "1715904000 ")) = Fail (Exit "Invalid SOURCE_DATE_EPOCH")
  ∧ set_source_date_epoch (Some (cstr "-1")) = Done (-1).
Proof.
  destruct (set_source_date_epoch_decimal [1; 7; 1; 5; 9; 0; 4; 0; 0; 0])
    as (_ & _ & Hok & _ & Hbad & _);
    [discriminate|repeat constructor; lia|].
  destruct (set_source_date_epoch_decimal [1]) as (_ & _ & _ & _ & _ & Hneg);
    [discriminate|repeat constructor; lia|].
  split; [apply Hok; vm_compute; reflexivity|].
  split; [apply (Hbad 32 []); lia|].
  apply Hneg. vm_compute. split; [reflexivity|discriminate].
Defined.

Lemma init_meta_partition_entry_name uninit name data data_len pv e :
  init_meta_partition_entry uninit name data data_len pv = Done e →
  ip_name e = name ∧ (8 ≤ length (ip_data e))%nat.
Proof.
  unfold init_meta_partition_entry. intros H.
  apply bind_Done_inv in H as (b1 & H1 & H).
  apply bind_Done_inv in H as (b2 & H2 & H).
  apply bind_Done_inv in H as (b3 & H3 & H).
  apply bind_Done_inv in H as (b4 & H4 & H).
  injection H as <-. cbn [ip_name ip_data]. split; [done|].
  assert (L2 : (8 ≤ length b2)%nat).
  { pose proof (memcpy_length _ _ _ _ H2) as L. apply memcpy_inv in H2 as [B _].
    simpl in B. lia. }
  assert (L3 : length b3 = length b2).
  { destruct (decide _); [|done]. by apply memcpy_length in H3. }
  assert (L4 : length b4 = length b3).
  { destruct (meta_partition_should_pad pv); [by apply memcpy_length in H4|].
    by injection H4 as <-. }
  lia.
Qed.

Lemma read_file_nonempty uninit name file jffs2 fsp e :
  read_file uninit name file jffs2 fsp = Done e → file ≠ [].
Proof. intros H ->. done. Qed.

(** The parts that [build_image] puts together. *)
Lemma build_partitions_inv uninit gmtime kernel rootfs rev jffs2 sysupgrade epoch now
    info info' parts :
  build_partitions uninit gmtime kernel rootfs rev jffs2 sysupgrade epoch now info
  = Done (info', parts) →
  let names := set_partition_names info in
  ∃ ps fsp p0 p1 p2 pad p5,
    split_firmware names sysupgrade (Z.of_nat (length kernel)) (partitions info)
    = Done (ps, fsp)
    ∧ info' = with_partitions info ps
    ∧ make_partition_table uninit names info' = Done p0
    ∧ make_soft_version uninit gmtime names info' rev epoch now = Done p1
    ∧ ip_name p1 = n_soft_ver names ∧ (8 ≤ length (ip_data p1))%nat
    ∧ make_support_list uninit names info' = Done p2
    ∧ ip_name p2 = n_support_list names
    ∧ kernel ≠ [] ∧ rootfs ≠ []
    ∧ read_file uninit (n_file_system names) rootfs jffs2 fsp
      = Done {| ip_name := n_file_system names; ip_data := rootfs ++ pad |}
    ∧ (jffs2 = false → pad = [])
    ∧ ip_name <$> p5 = match extra_para_for (id info) with
                       | Some _ => [n_extra_para names]
                       | None => []
                       end
    ∧ parts = [p0; p1; p2; {| ip_name := n_os_image names; ip_data := kernel |};
               {| ip_name := n_file_system names; ip_data := rootfs ++ pad |}] ++ p5.
Proof.
  intros H names. unfold build_partitions in H. fold names in H.
  apply bind_Done_inv in H as ([ps fsp] & Hs & H).
  apply bind_Done_inv in H as (p0 & H0 & H).
  apply bind_Done_inv in H as (p1 & H1 & H).
  apply bind_Done_inv in H as (p2 & H2 & H).
  apply bind_Done_inv in H as (p3 & H3 & H).
  apply bind_Done_inv in H as (p4 & H4 & H).
  apply bind_Done_inv in H as (p5 & H5 & H).
  injection H as <- <-.
  pose proof (read_file_nonempty _ _ _ _ _ _ H3) as Hk.
  pose proof (read_file_nonempty _ _ _ _ _ _ H4) as Hr.
  rewrite (read_file_data uninit _ kernel false None Hk) in H3.
  rewrite app_nil_r in H3. injection H3 as <-.
  pose proof H4 as H4'.
  rewrite (read_file_data uninit _ rootfs jffs2 fsp Hr) in H4'. injection H4' as <-.
  assert (N1 : ip_name p1 = n_soft_ver names ∧ (8 ≤ length (ip_data p1))%nat).
  { unfold make_soft_version in H1.
    destruct (soft_version_spec _).
    - apply bind_Done_inv in H1 as (t & _ & H1). destruct (gmtime t); [|done].
      destruct (_ =? 0); by apply init_meta_partition_entry_name in H1.
    - by apply init_meta_partition_entry_name in H1. }
  assert (N2 : ip_name p2 = n_support_list names).
  { pose proof H2 as H2'. by apply init_meta_partition_entry_name in H2' as [? _]. }
  eexists ps, fsp, p0, p1, p2, _, p5.
  split; [done|]. split; [done|]. split; [done|]. split; [done|].
  split; [apply N1|]. split; [apply N1|]. split; [done|]. split; [done|].
  split; [done|]. split; [done|]. split; [exact H4|].
  split; [by intros ->|]. split; [|done].
  cbn [id with_partitions] in H5.
  destruct (extra_para_for (id info)) as [x|]; [|by injection H5 as <-].
  apply bind_Done_inv in H5 as (p & Hp & H5). injection H5 as <-.
  apply init_meta_partition_entry_name in Hp as [Hp _].
  change (ip_name <$> [p]) with [ip_name p]. by rewrite Hp.
Qed.

(** X21. What [build_image] builds: the partition table, the soft
    version, the support list, the kernel and the root file system, in
    this order and under the names in force, followed by the extra-para
    partition exactly for the boards that the code lists.  The os-image
    partition is the kernel file byte for byte, the file-system
    partition starts with the bytes of the rootfs file (and is that file
    without the JFFS2 marker), and neither file is empty. *)
Theorem build_partitions_parts (uninit : nat → Z) (gmtime : Z → option tm)
    (kernel_image rootfs_image : list Z) (rev : Z) (add_jffs2_eof sysupgrade : bool)
    (source_date_epoch now : Z) (info info' : device_info)
    (parts : list image_partition_entry) :
  build_partitions uninit gmtime kernel_image rootfs_image rev add_jffs2_eof sysupgrade
    source_date_epoch now info = Done (info', parts) →
  let names := set_partition_names info in
  ip_name <$> parts
  = [n_partition_table names; n_soft_ver names; n_support_list names;
     n_os_image names; n_file_system names]
    ++ match extra_para_for (id info) with
       | Some _ => [n_extra_para names]
       | None => []
       end
  ∧ parts !! 3%nat = Some {| ip_name := n_os_image names; ip_data := kernel_image |}
  ∧ (∃ pad, parts !! 4%nat = Some {| ip_name := n_file_system names;
                                     ip_data := rootfs_image ++ pad |}
            ∧ (add_jffs2_eof = false → pad = []))
  ∧ kernel_image ≠ [] ∧ rootfs_image ≠ [].
Proof.
  intros H names.
  apply build_partitions_inv in H
    as (ps & fsp & p0 & p1 & p2 & pad & p5 & Hs & -> & H0 & _ & N1 & _ & _ & N2
        & Hk & Hr & _ & Hpad & N5 & ->).
  fold names in H0, N1, N2, N5.
  apply (make_partition_table_inv uninit uninit) in H0 as (_ & E0 & _).
  split.
  { rewrite fmap_app, N5. cbn [fmap list_fmap ip_name]. rewrite N1, N2, E0. done. }
  split; [done|]. split; [|done].
  exists pad. split; [done|exact Hpad].
Qed.

Lemma build_partitions_parts_witness :
  ∃ info' parts,
    build_partitions (λ _, 0) example_gmtime [1; 2; 3] [4; 5; 6; 7] 0x1234 false false
      0 99 example_profile = Done (info', parts)
    ∧ ip_name <$> parts
      = [cstr "partition-table"; cstr "soft-version"; cstr "support-list";
         cstr "os-image"; cstr "file-system"]
    ∧ parts !! 3%nat = Some {| ip_name := cstr "os-image"; ip_data := [1; 2; 3] |}.
Proof.
  destruct (build_partitions (λ _, 0) example_gmtime [1; 2; 3] [4; 5; 6; 7] 0x1234
              false false 0 99 example_profile) as [[info' parts]|f] eqn:E;
    [|vm_compute in E; discriminate E].
  exists info', parts. split; [reflexivity|].
  destruct (build_partitions_parts _ _ _ _ _ _ _ _ _ _ _ _ E) as (Hn & H3 & _).
  split; [exact Hn|exact H3].
Defined.

Lemma find_partition_or_exit_at (pre post : list flash_partition_entry)
    (e : flash_partition_entry) (max_entries : Z) (name : list Z) (msg : string) :
  Forall (λ x, fp_name x ≠ name) pre → fp_name e = name →
  Z.of_nat (length pre) < max_entries →
  find_partition_or_exit (pre ++ e :: post) max_entries name msg = Done e.
Proof.
  intros Hpre He Hlen. unfold find_partition_or_exit, find_partition.
  assert (Hfind : list_find (λ x, fp_name x = name)
                    (take (Z.to_nat max_entries) (pre ++ e :: post))
                  = Some (length pre, e)).
  { apply list_find_Some. split; [|split; [done|]].
    - rewrite lookup_take_lt by lia. by rewrite list_lookup_middle.
    - intros j y Hj Hlt. apply lookup_take_Some in Hj as [Hj _].
      rewrite lookup_app_l in Hj by done.
      by apply (Forall_lookup_1 _ _ j y Hpre). }
  rewrite Hfind. by rewrite bind_Done.
Qed.

(** The converter on an image whose tables and partitions are found. *)
Lemma convert_firmware_run (input : list Z) (info : safeloader_image_info)
    (fwup_os_image fwup_file_system fwup_partition_table : flash_partition_entry)
    (flash : list flash_partition_entry)
    (flash_os_image flash_file_system : flash_partition_entry)
    (os_data fs_data : list Z) :
  safeloader_parse_image input = Done info →
  find_partition_or_exit (image_entries info) MAX_PARTITIONS (cstr "os-image")
    "Error can not find os-image partition (fwup)" = Done fwup_os_image →
  find_partition_or_exit (image_entries info) MAX_PARTITIONS (cstr "file-system")
    "Error can not find file-system partition (fwup)" = Done fwup_file_system →
  find_partition_or_exit (image_entries info) MAX_PARTITIONS (cstr "partition-table")
    "Error can not find partition-table partition" = Done fwup_partition_table →
  read_partition_table input (payload_offset info + fp_base fwup_partition_table + 4)
    [] MAX_PARTITIONS PARTITION_TABLE_FLASH = Done (0, flash) →
  find_partition_or_exit flash MAX_PARTITIONS (cstr "os-image")
    "Error can not find os-image partition (flash)" = Done flash_os_image →
  find_partition_or_exit flash MAX_PARTITIONS (cstr "file-system")
    "Error can not find file-system partition (flash)" = Done flash_file_system →
  fread_at input (fp_base fwup_os_image + payload_offset info)
    (Z.to_nat (fp_size fwup_os_image)) = Some os_data →
  fread_at input (fp_base fwup_file_system + payload_offset info)
    (Z.to_nat (fp_size fwup_file_system)) = Some fs_data →
  0 < fp_size fwup_os_image → 0 < fp_size fwup_file_system →
  let padding := wrap32 (fp_size flash_os_image - fp_size fwup_os_image) in
  let out := fwrite os_data {| content := []; position := 0 |} in
  convert_firmware input
  = Done (content
            (fwrite fs_data
               (fseek (wrap32 (fp_base flash_file_system - fp_base flash_os_image))
                  (if 0 <? padding
                   then fwrite (replicate (Z.to_nat padding) 0xFF) out
                   else out)))).
Proof.
  intros Hparse Hos Hfs Hpt Hflash Hfos Hffs Hdos Hdfs Hos0 Hfs0 padding out.
  unfold convert_firmware.
  rewrite Hparse, bind_Done, Hos, bind_Done, Hfs, bind_Done, Hpt, bind_Done.
  rewrite Hflash, bind_Done. cbn [Z.eqb negb].
  rewrite Hfos, bind_Done, Hffs, bind_Done.
  rewrite (write_partition_all input (payload_offset info) fwup_os_image os_data)
    by (done || lia || by eapply fread_at_nonneg).
  rewrite bind_Done, write_ff_all, bind_Done.
  rewrite (write_partition_all input (payload_offset info) fwup_file_system fs_data)
    by (done || lia || by eapply fread_at_nonneg).
  by rewrite bind_Done.
Qed.

(** A write behind the end of the file leaves zeros in between. *)
Lemma fwrite_gap (c data : list Z) (pos : nat) :
  (length c ≤ pos)%nat →
  content (fwrite data {| content := c; position := pos |})
  = c ++ replicate (pos - length c) 0 ++ data.
Proof.
  intros Hpos. unfold fwrite. cbn [content position].
  rewrite take_ge, drop_ge by (rewrite length_app, length_replicate; lia).
  by rewrite app_nil_r, <- app_assoc.
Qed.

(** The entry of the image table for a partition, and the bytes it
    points to. *)
Lemma fwup_entries_slice (image : list Z) (off : Z)
    (parts : list image_partition_entry) : ∀ base (k : nat) p,
  0 ≤ off → 0 ≤ base → base + parts_size parts < 2 ^ 32 →
  take (length (parts_data parts)) (drop (Z.to_nat (off + base)) image)
  = parts_data parts →
  parts !! k = Some p →
  ∃ b, fwup_entries base parts !! k
       = Some {| fp_name := ip_name p; fp_base := b; fp_size := ip_size p |}
       ∧ 0 ≤ b
       ∧ (ip_size p ≠ 0 →
          fread_at image (b + off) (Z.to_nat (ip_size p)) = Some (ip_data p)).
Proof.
  induction parts as [|q parts IH]; intros base k p Hoff Hbase Hfit Hdata Hk; [done|].
  cbn [parts_size foldr] in Hfit. fold (parts_size parts) in Hfit.
  assert (Hps : 0 ≤ parts_size parts) by (rewrite parts_size_data; lia).
  assert (Hsz : ip_size q = Z.of_nat (length (ip_data q))) by done.
  unfold parts_data in Hdata. rewrite fmap_cons in Hdata. cbn [concat] in Hdata.
  fold (parts_data parts) in Hdata. rewrite length_app in Hdata.
  remember (Z.to_nat (off + base)) as n eqn:Hn.
  destruct k as [|k].
  - injection Hk as ->. exists base. cbn [fwup_entries lookup list_lookup].
    rewrite !wrap32_small by lia. split; [done|]. split; [done|].
    intros Hne.
    assert (Hlen : (n + (length (ip_data p) + length (parts_data parts))
                    ≤ length image)%nat).
    { apply (f_equal length) in Hdata.
      rewrite length_take, length_drop, length_app in Hdata. lia. }
    rewrite fread_at_in by lia. rewrite Hsz, Nat2Z.id.
    replace (Z.to_nat (base + off)) with n by lia. f_equal.
    apply (f_equal (take (length (ip_data p)))) in Hdata.
    rewrite take_take, take_app_length in Hdata.
    by replace (length (ip_data p) `min` (length (ip_data p) + length (parts_data parts)))%nat
      with (length (ip_data p)) in Hdata by lia.
  - cbn [fwup_entries]. simpl in Hk. simpl.
    apply (IH (base + ip_size q) k p); [done|lia|lia| |done].
    apply (f_equal (drop (length (ip_data q)))) in Hdata.
    rewrite drop_app_length in Hdata.
    rewrite <- take_drop_commute, drop_drop in Hdata.
    replace (Z.to_nat (off + (base + ip_size q)))
      with (n + length (ip_data q))%nat by lia.
    exact Hdata.
Qed.

(** The split of a table with a firmware partition. *)
Lemma split_firmware_found (names : partition_names_set) (sysupgrade : bool)
    (kernel_size : Z) (ps ps' : list flash_partition_entry)
    (fsp : option flash_partition_entry) (i : nat) (firmware : flash_partition_entry) :
  ps !! i = Some firmware → fp_name firmware = cstr "firmware" →
  (∀ j p, (i < j)%nat → ps !! j = Some p → fp_name p ≠ cstr "firmware") →
  split_firmware names sysupgrade kernel_size ps = Done (ps', fsp) →
  let base := if sysupgrade then wrap32 (fp_base firmware + kernel_size)
              else wrap32 (ALIGN (fp_base firmware + kernel_size) 0x10000) in
  let fs := {| fp_name := n_file_system names; fp_base := base;
               fp_size := wrap32 (fp_size firmware - base) |} in
  let os := {| fp_name := n_os_image names; fp_base := fp_base firmware;
               fp_size := wrap32 kernel_size |} in
  fsp = Some fs
  ∧ ps' = take i ps ++ os :: fs :: drop (S i) ps
  ∧ Z.of_nat (length ps) < MAX_PARTITIONS.
Proof.
  intros Hi Hn Hlast H base fs os. unfold split_firmware in H.
  rewrite (find_firmware_last ps 0 None i firmware) in H by done.
  simpl in H. rewrite Hi in H.
  destruct (fp_size firmware <? kernel_size); [done|].
  destruct (Z.ltb_spec (Z.of_nat (length ps)) MAX_PARTITIONS) as [Hl|]; [|done].
  cbn [negb] in H. injection H as <- <-. unfold fs, os, base.
  by destruct sysupgrade.
Qed.

(** X23. The header block of a factory image, the 0x1000 bytes from
    0x14 on: with a vendor string of at most 0xFFC bytes, its length as
    a big-endian u32, the string, and 0xFF up to the image table;
    without one, 0xFF throughout. *)
Theorem factory_image_vendor_block (uninit : nat → Z) (MD5 : list Z → list Z)
    (info : device_info) (parts : list image_partition_entry) (image : list Z) :
  (∀ m, length (MD5 m) = 16%nat) →
  generate_factory_image uninit MD5 info parts = Done image →
  match vendor info with Some v => (length v ≤ 0xFFC)%nat | None => True end →
  take 0x1000 (drop 0x14 image)
  = match vendor info with
    | Some v => be32 (Z.of_nat (length v)) ++ v ++ replicate (0xFFC - length v) 0xFF
    | None => replicate 0x1000 0xFF
    end.
Proof.
  intros HMD5 Himg Hv.
  destruct (generate_factory_image_table uninit MD5 HMD5 info parts image Himg Hv)
    as (_ & Hlen & _).
  pose proof (generate_factory_image_inv uninit MD5 HMD5 info parts image Himg)
    as (_ & _ & _ & _ & _ & _ & F & _).
  destruct (vendor info) as [v|] eqn:Ev.
  - pose proof (generate_factory_image_vendor uninit MD5 HMD5 info parts image v
                  Himg Ev Hv) as Hvb.
    rewrite <- (take_drop (4 + length v) (take 0x1000 (drop 0x14 image))).
    rewrite take_take. replace ((4 + length v) `min` 0x1000)%nat with (4 + length v)%nat by lia.
    rewrite Hvb, <- app_assoc. f_equal. f_equal.
    apply list_eq. intros k. rewrite lookup_drop.
    destruct (decide (4 + length v + k < 0x1000)%nat) as [Hk|Hk].
    + rewrite lookup_take_lt by lia. rewrite lookup_drop.
      rewrite lookup_replicate_2 by lia.
      apply F; [lia|right; lia|lia].
    + rewrite lookup_take_ge by lia. symmetry. apply lookup_replicate_None. lia.
  - apply list_eq. intros k.
    destruct (decide (k < 0x1000)%nat) as [Hk|Hk].
    + rewrite lookup_take_lt by lia. rewrite lookup_drop.
      rewrite lookup_replicate_2 by lia.
      apply F; [lia|done|lia].
    + rewrite lookup_take_ge by lia. symmetry. apply lookup_replicate_None. lia.
Qed.

Lemma factory_image_vendor_block_witness :
  ∃ image,
    generate_factory_image (λ _, 0) example_digest example_profile [] = Done image
    ∧ take 0x1000 (drop 0x14 image)
      = [0; 0; 0; 30] ++ cstr "EXAMPLE(TP-LINK|UN|N300-2):1.0" ++ replicate 0xFDE 0xFF.
Proof.
  destruct (generate_factory_image (λ _, 0) example_digest example_profile [])
    as [image|f] eqn:E; [|vm_compute in E; discriminate E].
  exists image. split; [reflexivity|].
  rewrite (factory_image_vendor_block (λ _, 0) example_digest example_profile [] image
             (λ m, length_replicate 16 _) E); [reflexivity|].
  simpl. lia.
Defined.

Lemma table_name_cstr_defaults :
  table_name (cstr "partition-table") ∧ table_name (cstr "soft-version")
  ∧ table_name (cstr "support-list") ∧ table_name (cstr "os-image")
  ∧ table_name (cstr "file-system") ∧ table_name (cstr "extra-para").
Proof.
  repeat split; try (simpl; lia); repeat constructor; discriminate.
Qed.

Lemma fwrite_start (data : list Z) :
  fwrite data {| content := []; position := 0 |}
  = {| content := data; position := length data |}.
Proof.
  unfold fwrite. cbn [content position]. simpl. by rewrite drop_nil, app_nil_r.
Qed.

(** X22. Converting a factory image that the builder made: with the
    built-in partition names, a flash table whose last "firmware"
    partition is split and which has no other os-image or file-system
    partition, names that survive the tables, a vendor string of at
    most 0xFFC bytes if any, and sizes below 4 GiB, [convert_firmware]
    returns the kernel, then zeros up to the 64 KiB
    boundary at which the factory build put the file system (the gap is
    skipped with a seek, not filled with 0xFF), then the file-system
    partition: the rootfs, with its padding and marker if the JFFS2
    marker was requested. *)
Theorem convert_factory_image (uninit : nat → Z) (gmtime : Z → option tm)
    (MD5 : list Z → list Z) (kernel_image rootfs_image : list Z) (rev : Z)
    (add_jffs2_eof : bool) (source_date_epoch now : Z) (info : device_info)
    (image : list Z) (i : nat) (firmware : flash_partition_entry) :
  (∀ m, length (MD5 m) = 16%nat) →
  build_image uninit gmtime MD5 kernel_image rootfs_image rev add_jffs2_eof false
    source_date_epoch now info = Done image →
  set_partition_names info = default_names →
  partitions info !! i = Some firmware → fp_name firmware = cstr "firmware" →
  (∀ j p, (i < j)%nat → partitions info !! j = Some p → fp_name p ≠ cstr "firmware") →
  Forall (λ p, table_name (fp_name p) ∧ fp_name p ≠ cstr "os-image"
               ∧ fp_name p ≠ cstr "file-system") (partitions info) →
  match vendor info with Some v => (length v ≤ 0xFFC)%nat | None => True end →
  0 ≤ fp_base firmware →
  ALIGN (fp_base firmware + Z.of_nat (length kernel_image)) 0x10000 < 2 ^ 32 →
  Z.of_nat (length image) < 2 ^ 32 →
  let boundary := fp_base firmware + Z.of_nat (length kernel_image) in
  ∃ pad,
    convert_firmware image
    = Done (kernel_image ++ replicate (Z.to_nat (ALIGN boundary 0x10000 - boundary)) 0
            ++ rootfs_image ++ pad)
    ∧ (add_jffs2_eof = false → pad = []).
Proof.
  intros HMD5 Hb Hnames Hi Hfw Hlast Hps Hv Hbase Halign Hlen boundary.
  apply build_image_inv in Hb as (info' & parts & Hp & Hvend & Hg & _).
  apply build_partitions_inv in Hp
    as (ps & fsp & p0 & p1 & p2 & pad & p5 & Hs & -> & H0 & _ & N1 & L1 & _ & N2
        & Hk & Hr & _ & Hpad & N5 & Eparts).
  rewrite Hnames in *.
  destruct (split_firmware_found default_names false _ _ _ _ i firmware Hi Hfw Hlast Hs)
    as (-> & Eps & Hcnt).
  exists pad. split; [|exact Hpad].
  destruct table_name_cstr_defaults as (T0 & T1 & T2 & T3 & T4 & T5).
  pose proof (ALIGN_64k_bounds boundary) as (_ & Hlo & _). fold boundary in Halign.
  set (ksize := Z.of_nat (length kernel_image)) in *.
  assert (Hk0 : 0 < ksize).
  { unfold ksize. destruct kernel_image; [done|]. simpl. lia. }
  apply (make_partition_table_inv uninit uninit) in H0 as (Hfit & E0 & _).
  cbn [partitions with_partitions] in Hfit, E0.
  cbn [n_partition_table n_soft_ver n_support_list n_os_image n_file_system
         n_extra_para default_names] in *.
  (* the flash table after the split *)
  set (os := {| fp_name := cstr "os-image"; fp_base := fp_base firmware;
                fp_size := wrap32 ksize |}) in *.
  set (fs := {| fp_name := cstr "file-system";
                fp_base := wrap32 (ALIGN boundary 0x10000);
                fp_size := wrap32 (fp_size firmware - wrap32 (ALIGN boundary 0x10000)) |})
    in *.
  assert (Hps' : Forall (λ p, table_name (fp_name p)) ps).
  { rewrite Eps. apply Forall_app. split.
    - apply Forall_take. eapply Forall_impl; [exact Hps|]. by intros p (? & _).
    - apply Forall_cons. split; [done|]. apply Forall_cons. split; [done|].
      apply Forall_drop. eapply Forall_impl; [exact Hps|]. by intros p (? & _). }
  pose proof (lookup_lt_Some _ _ _ Hi) as Hilt.
  assert (Lps : length ps = S (length (partitions info))).
  { rewrite Eps, length_app, length_take. cbn [length]. rewrite length_drop. lia. }
  (* the parts and the image *)
  assert (Hnp : Forall (λ p, table_name (ip_name p)) parts ∧ (length parts ≤ 6)%nat).
  { assert (H5 : Forall (λ p, table_name (ip_name p)) p5 ∧ (length p5 ≤ 1)%nat).
    { split.
      - apply (Forall_fmap ip_name (λ n, table_name n)). rewrite N5.
        destruct (extra_para_for _); by repeat constructor.
      - apply (f_equal length) in N5. rewrite length_fmap in N5.
        rewrite N5. destruct (extra_para_for _); simpl; lia. }
    rewrite Eparts. split.
    - apply Forall_app. split; [|apply H5].
      rewrite E0. repeat apply Forall_cons_2; cbn [ip_name]; rewrite ?N1, ?N2; done.
    - rewrite length_app. simpl. lia. }
  destruct Hnp as [Hnp Hlp].
  assert (Hv' : match vendor (with_partitions info ps) with
                | Some v => (length v ≤ 0xFFC)%nat | None => True end) by exact Hv.
  pose proof (factory_image_table_read uninit MD5 _ parts image HMD5 Hg Hnp
                ltac:(unfold MAX_PARTITIONS; lia) Hv') as Htable.
  destruct (factory_image_type uninit MD5 _ parts image HMD5 Hg Hv')
    as (buf & Hbuf & Hty).
  assert (Hparse : safeloader_parse_image image
                   = Done {| type := match vendor (with_partitions info ps) with
                                     | Some _ => SAFELOADER_TYPE_VENDOR
                                     | None => SAFELOADER_TYPE_DEFAULT
                                     end;
                             payload_offset := SAFELOADER_PAYLOAD_OFFSET;
                             image_entries := fwup_entries 0x800 parts |}).
  { unfold safeloader_parse_image. rewrite Hbuf, Hty.
    assert (Hoff : payload_offset_of (match vendor (with_partitions info ps) with
                                      | Some _ => SAFELOADER_TYPE_VENDOR
                                      | None => SAFELOADER_TYPE_DEFAULT
                                      end) = SAFELOADER_PAYLOAD_OFFSET)
      by (by destruct (vendor _)).
    rewrite Hoff, Htable. by rewrite bind_Done. }
  apply (generate_factory_image_inv uninit MD5 HMD5) in Hg
    as (L & _ & _ & _ & _ & D & _).
  assert (Hsum : 0x800 + parts_size parts < 2 ^ 32).
  { unfold SAFELOADER_PAYLOAD_OFFSET, SAFELOADER_PREAMBLE_SIZE, SAFELOADER_HEADER_SIZE,
      SAFELOADER_PAYLOAD_TABLE_SIZE in L. lia. }
  assert (Hdata : take (length (parts_data parts))
                    (drop (Z.to_nat (SAFELOADER_PAYLOAD_OFFSET + 0x800)) image)
                  = parts_data parts).
  { change (Z.to_nat (SAFELOADER_PAYLOAD_OFFSET + 0x800)) with 0x1814%nat.
    rewrite D. by apply take_ge. }
  set (p3 := {| ip_name := cstr "os-image"; ip_data := kernel_image |}) in *.
  set (p4 := {| ip_name := cstr "file-system"; ip_data := rootfs_image ++ pad |}) in *.
  destruct (fwup_entries_slice image SAFELOADER_PAYLOAD_OFFSET parts 0x800 0 p0
              ltac:(done) ltac:(done) Hsum Hdata ltac:(by rewrite Eparts))
    as (b0 & He0 & _ & _).
  destruct (fwup_entries_slice image SAFELOADER_PAYLOAD_OFFSET parts 0x800 3 p3
              ltac:(done) ltac:(done) Hsum Hdata ltac:(by rewrite Eparts))
    as (b3 & He3 & Hb3 & Hr3).
  destruct (fwup_entries_slice image SAFELOADER_PAYLOAD_OFFSET parts 0x800 4 p4
              ltac:(done) ltac:(done) Hsum Hdata ltac:(by rewrite Eparts))
    as (b4 & He4 & Hb4 & Hr4).
  assert (Hb0 : b0 = 0x800).
  { rewrite Eparts in He0. cbn [app fwup_entries lookup list_lookup] in He0.
    injection He0 as <- _. reflexivity. }
  subst b0.
  assert (Hsz3 : ip_size p3 = ksize) by done.
  assert (Hsz4 : 0 < ip_size p4).
  { unfold ip_size, p4. cbn [ip_data]. rewrite length_app.
    destruct rootfs_image; [done|]. simpl. lia. }
  specialize (Hr3 ltac:(lia)). specialize (Hr4 ltac:(lia)).
  (* the entries by name *)
  assert (Hes : ∃ e1 e2 tl, fwup_entries 0x800 parts
                = {| fp_name := cstr "partition-table"; fp_base := 0x800;
                     fp_size := ip_size p0 |}
                  :: e1 :: e2
                  :: {| fp_name := cstr "os-image"; fp_base := b3; fp_size := ksize |}
                  :: {| fp_name := cstr "file-system"; fp_base := b4;
                        fp_size := ip_size p4 |} :: tl
                ∧ fp_name e1 = cstr "soft-version" ∧ fp_name e2 = cstr "support-list").
  { assert (N0 : ip_name p0 = cstr "partition-table") by (by rewrite E0).
    rewrite Eparts in He0, He3, He4 |- *.
    cbn [app fwup_entries lookup list_lookup] in He0, He3, He4 |- *.
    apply (inj Some) in He0, He3, He4. rewrite He0, He3, He4, N0.
    eexists _, _, _. split; [reflexivity|]. cbn [fp_name]. by rewrite N1, N2. }
  destruct Hes as (e1 & e2 & tl & Hes & Hn1 & Hn2).
  set (e0 := {| fp_name := cstr "partition-table"; fp_base := 0x800;
                fp_size := ip_size p0 |}) in *.
  set (e3 := {| fp_name := cstr "os-image"; fp_base := b3; fp_size := ksize |}) in *.
  set (e4 := {| fp_name := cstr "file-system"; fp_base := b4;
                fp_size := ip_size p4 |}) in *.
  assert (Fos : find_partition_or_exit (fwup_entries 0x800 parts) MAX_PARTITIONS
                  (cstr "os-image") "Error can not find os-image partition (fwup)"
                = Done e3).
  { rewrite Hes. apply (find_partition_or_exit_at [e0; e1; e2]); [|done|by vm_compute].
    repeat apply Forall_cons_2; [by vm_compute|rewrite Hn1; by vm_compute
                                |rewrite Hn2; by vm_compute|done]. }
  assert (Ffs : find_partition_or_exit (fwup_entries 0x800 parts) MAX_PARTITIONS
                  (cstr "file-system") "Error can not find file-system partition (fwup)"
                = Done e4).
  { rewrite Hes. apply (find_partition_or_exit_at [e0; e1; e2; e3]); [|done|by vm_compute].
    repeat apply Forall_cons_2; [by vm_compute|rewrite Hn1; by vm_compute
                                |rewrite Hn2; by vm_compute|by vm_compute|done]. }
  assert (Fpt : find_partition_or_exit (fwup_entries 0x800 parts) MAX_PARTITIONS
                  (cstr "partition-table") "Error can not find partition-table partition"
                = Done e0).
  { rewrite Hes. apply (find_partition_or_exit_at []); [done|done|by vm_compute]. }
  (* the flash table *)
  set (u32 := λ p, {| fp_name := fp_name p; fp_base := wrap32 (fp_base p);
                      fp_size := wrap32 (fp_size p) |}).
  assert (Hflash : read_partition_table image (SAFELOADER_PAYLOAD_OFFSET + 0x800 + 4)
                     [] MAX_PARTITIONS PARTITION_TABLE_FLASH
                   = Done (0, u32 <$> ps)).
  { assert (Himg : image = take 0x1814 image
                           ++ ip_data p0 ++ drop (length (ip_data p0)) (parts_data parts)).
    { rewrite <- (take_drop 0x1814 image) at 1. f_equal. rewrite D.
      rewrite <- (take_drop (length (ip_data p0)) (parts_data parts)) at 1. f_equal.
      rewrite Eparts. unfold parts_data. cbn [app fmap list_fmap concat].
      apply take_app_length. }
    assert (Lafter : (4 ≤ length (drop (length (ip_data p0)) (parts_data parts)))%nat).
    { rewrite Eparts. unfold parts_data. cbn [app fmap list_fmap concat].
      rewrite drop_app_length, length_app. lia. }
    assert (Lbefore : length (take 0x1814 image) = 0x1814%nat).
    { rewrite length_take.
      unfold SAFELOADER_PAYLOAD_OFFSET, SAFELOADER_PREAMBLE_SIZE, SAFELOADER_HEADER_SIZE,
        SAFELOADER_PAYLOAD_TABLE_SIZE in L.
      rewrite parts_size_data in L. lia. }
    rewrite Himg.
    replace (SAFELOADER_PAYLOAD_OFFSET + 0x800 + 4)
      with (Z.of_nat (length (take 0x1814 image)) + 4)
      by (rewrite Lbefore; reflexivity).
    rewrite E0 at 1. cbn [ip_data].
    assert (Hne : ps ≠ []).
    { intros Hnil. rewrite Hnil in Lps. simpl in Lps. lia. }
    assert (Hsk : match ps with [] => uninit 4%nat | _ :: _ => 0 end = 0)
      by (by destruct ps).
    rewrite Hsk.
    apply read_partition_table_flash; [done|done|unfold MAX_PARTITIONS in *; lia|done|done]. }
  assert (Eflash : u32 <$> ps
                   = (u32 <$> take i (partitions info))
                     ++ u32 os :: u32 fs :: (u32 <$> drop (S i) (partitions info))).
  { rewrite Eps at 1. rewrite fmap_app. done. }
  assert (Hpre : Forall (λ x, fp_name x ≠ cstr "os-image" ∧ fp_name x ≠ cstr "file-system")
                   (u32 <$> take i (partitions info))).
  { apply Forall_fmap, Forall_take. eapply Forall_impl; [exact Hps|].
    by intros p (_ & ? & ?). }
  assert (Lpre : Z.of_nat (length (u32 <$> take i (partitions info))) + 1 < MAX_PARTITIONS).
  { rewrite length_fmap, length_take. lia. }
  assert (Ffos : find_partition_or_exit (u32 <$> ps) MAX_PARTITIONS (cstr "os-image")
                   "Error can not find os-image partition (flash)" = Done (u32 os)).
  { rewrite Eflash. apply find_partition_or_exit_at; [|done|lia].
    eapply Forall_impl; [exact Hpre|]. by intros x [? _]. }
  assert (Fffs : find_partition_or_exit (u32 <$> ps) MAX_PARTITIONS (cstr "file-system")
                   "Error can not find file-system partition (flash)" = Done (u32 fs)).
  { rewrite Eflash. rewrite (cons_middle (u32 os)), app_assoc.
    apply find_partition_or_exit_at; [|done|rewrite length_app; simpl; lia].
    apply Forall_app. split.
    - eapply Forall_impl; [exact Hpre|]. by intros x [_ ?].
    - repeat constructor. by vm_compute. }
  (* the run *)
  rewrite (convert_firmware_run image _ e3 e4 e0 (u32 <$> ps) (u32 os) (u32 fs)
             kernel_image (rootfs_image ++ pad) Hparse Fos Ffs Fpt Hflash Ffos Fffs);
    [|exact Hr3|exact Hr4|exact Hk0|exact Hsz4].
  cbn [fp_size fp_base u32 os fs e3].
  rewrite !wrap32_idemp.
  assert (Hks : wrap32 ksize = ksize).
  { apply wrap32_small. rewrite <- Hsz3.
    assert (ip_size p3 ≤ parts_size parts); [|lia].
    rewrite Eparts. cbn [app parts_size foldr].
    assert (0 ≤ ip_size p0 ∧ 0 ≤ ip_size p1 ∧ 0 ≤ ip_size p2 ∧ 0 ≤ ip_size p4)
      by (unfold ip_size; lia).
    assert (0 ≤ foldr (λ p acc, ip_size p + acc) 0 p5); [|lia].
    change (0 ≤ parts_size p5). rewrite parts_size_data. lia. }
  rewrite Hks, Z.sub_diag. change (0 <? wrap32 0) with false. cbv iota.
  rewrite (wrap32_small (fp_base firmware)) by lia.
  rewrite (wrap32_small (ALIGN boundary 65536)) by lia.
  rewrite (wrap32_small (ALIGN boundary 65536 - fp_base firmware)) by lia.
  rewrite fwrite_start. unfold fseek. cbn [content position].
  rewrite fwrite_gap by (unfold boundary in *; lia).
  f_equal. f_equal. f_equal. f_equal. unfold boundary, ksize in *. lia.
Qed.

Lemma convert_factory_image_witness :
  ∃ image,
    build_image (λ _, 0) example_gmtime example_digest [1; 2; 3] [4; 5; 6; 7] 0x1234
      false false 0 99 example_profile = Done image
    ∧ convert_firmware image
      = Done ([1; 2; 3] ++ replicate (Z.to_nat 0xFFFD) 0 ++ [4; 5; 6; 7]).
Proof.
  assert (Hlen : match build_image (λ _, 0) example_gmtime example_digest [1; 2; 3]
                         [4; 5; 6; 7] 0x1234 false false 0 99 example_profile with
                 | Done l => Z.of_nat (length l) <? 2 ^ 32
                 | Fail _ => false
                 end = true) by (vm_compute; reflexivity).
  destruct (build_image (λ _, 0) example_gmtime example_digest [1; 2; 3] [4; 5; 6; 7]
              0x1234 false false 0 99 example_profile) as [image|f] eqn:E;
    [|discriminate Hlen].
  apply Z.ltb_lt in Hlen.
  exists image. split; [reflexivity|].
  destruct (convert_factory_image (λ _, 0) example_gmtime example_digest [1; 2; 3]
              [4; 5; 6; 7] 0x1234 false 0 99 example_profile image 2
              (flash_entry "firmware" 0x40000 0x770000))
    as (pad & Hc & Hp).
  - intros m. apply length_replicate.
  - exact E.
  - reflexivity.
  - reflexivity.
  - reflexivity.
  - intros j p Hj Hp. destruct j as [|[|[|[|[|j]]]]]; [lia|lia|lia| | |done];
      injection Hp as <-; by vm_compute.
  - repeat apply Forall_cons_2; [..|done];
      (split; [split; [simpl; lia|repeat constructor; discriminate]
              |split; by vm_compute]).
  - simpl. lia.
  - simpl. lia.
  - vm_compute. reflexivity.
  - exact Hlen.
  - rewrite (Hp eq_refl), app_nil_r in Hc. exact Hc.
Defined.

Lemma find_first_last_skip first last l : ∀ rest k acc,
  Forall (λ p, fp_name p ≠ first ∧ fp_name p ≠ last) l →
  find_first_last first last (l ++ rest) k acc
  = find_first_last first last rest (k + length l) acc.
Proof.
  induction l as [|p l IH]; intros rest k acc Hl.
  - simpl. by rewrite Nat.add_0_r.
  - apply Forall_cons_1 in Hl as [[H1 H2] Hl]. cbn [app find_first_last].
    unfold streq. rewrite !bool_decide_false by done.
    rewrite IH by done. f_equal. simpl. lia.
Qed.

Lemma find_image_partition_at (pre post : list image_partition_entry)
    (e : image_partition_entry) (name : list Z) :
  Forall (λ x, ip_name x ≠ name) pre → ip_name e = name →
  find_image_partition name (pre ++ e :: post) = Some e.
Proof.
  intros Hpre He. unfold find_image_partition.
  assert (Hfind : list_find (λ x, ip_name x = name) (pre ++ e :: post)
                  = Some (length pre, e)).
  { apply list_find_Some. split; [|split; [done|]].
    - by rewrite list_lookup_middle.
    - intros j y Hj Hlt. rewrite lookup_app_l in Hj by done.
      by apply (Forall_lookup_1 _ _ j y Hpre). }
  by rewrite Hfind.
Qed.

(** X24. A sysupgrade build with the usual profile: with the built-in
    partition names, os-image and file-system as first and last
    sysupgrade partition, a flash table whose last "firmware" partition
    is split and which has no other os-image or file-system partition,
    and a kernel that ends below 4 GiB, the image that [build_image]
    writes is the kernel followed at once by the file-system partition:
    the rootfs, with its padding and marker if the JFFS2 marker was
    requested. *)
Theorem sysupgrade_build_image (uninit : nat → Z) (gmtime : Z → option tm)
    (MD5 : list Z → list Z) (kernel_image rootfs_image : list Z) (rev : Z)
    (add_jffs2_eof : bool) (source_date_epoch now : Z) (info : device_info)
    (image : list Z) (i : nat) (firmware : flash_partition_entry) :
  build_image uninit gmtime MD5 kernel_image rootfs_image rev add_jffs2_eof true
    source_date_epoch now info = Done image →
  set_partition_names info = default_names →
  first_sysupgrade_partition info = cstr "os-image" →
  last_sysupgrade_partition info = cstr "file-system" →
  partitions info !! i = Some firmware → fp_name firmware = cstr "firmware" →
  (∀ j p, (i < j)%nat → partitions info !! j = Some p → fp_name p ≠ cstr "firmware") →
  Forall (λ p, fp_name p ≠ cstr "os-image" ∧ fp_name p ≠ cstr "file-system")
    (partitions info) →
  0 ≤ fp_base firmware →
  fp_base firmware + Z.of_nat (length kernel_image) < 2 ^ 32 →
  ∃ pad, image = kernel_image ++ rootfs_image ++ pad
         ∧ (add_jffs2_eof = false → pad = []).
Proof.
  intros Hb Hnames Hfirst Hlast' Hi Hfw Hlast Hps Hbase Hfit.
  apply build_image_inv in Hb as (info' & parts & Hp & _ & Hg & _).
  apply build_partitions_inv in Hp
    as (ps & fsp & p0 & p1 & p2 & pad & p5 & Hs & -> & H0 & _ & N1 & _ & _ & N2
        & Hk & Hr & _ & Hpad & _ & Eparts).
  rewrite Hnames in *.
  destruct (split_firmware_found default_names true _ _ _ _ i firmware Hi Hfw Hlast Hs)
    as (_ & Eps & _).
  exists pad. split; [|exact Hpad].
  set (ksize := Z.of_nat (length kernel_image)) in *.
  apply (make_partition_table_inv uninit uninit) in H0 as (_ & E0 & _).
  assert (N0 : ip_name p0 = cstr "partition-table") by (by rewrite E0).
  cbn [n_partition_table n_soft_ver n_support_list n_os_image n_file_system
         n_extra_para default_names] in *.
  rewrite (wrap32_small (fp_base firmware + ksize)) in Eps by lia.
  rewrite (wrap32_small ksize) in Eps by lia.
  set (os := {| fp_name := cstr "os-image"; fp_base := fp_base firmware;
                fp_size := ksize |}) in *.
  set (fs := {| fp_name := cstr "file-system"; fp_base := fp_base firmware + ksize;
                fp_size := wrap32 (fp_size firmware - (fp_base firmware + ksize)) |}) in *.
  set (p3 := {| ip_name := cstr "os-image"; ip_data := kernel_image |}) in *.
  set (p4 := {| ip_name := cstr "file-system"; ip_data := rootfs_image ++ pad |}) in *.
  pose proof (lookup_lt_Some _ _ _ Hi) as Hilt.
  unfold generate_sysupgrade_image in Hg.
  cbn [first_sysupgrade_partition last_sysupgrade_partition partitions with_partitions]
    in Hg.
  rewrite Hfirst, Hlast' in Hg.
  assert (Hffl : find_first_last (cstr "os-image") (cstr "file-system") ps 0 (None, None)
                 = (Some (i, os), Some (S i, fs))).
  { rewrite Eps. rewrite find_first_last_skip by (by apply Forall_take).
    rewrite length_take. replace (0 + i `min` length (partitions info))%nat with i by lia.
    cbn [find_first_last]. unfold streq.
    rewrite (bool_decide_true (fp_name os = cstr "os-image")) by done.
    rewrite (bool_decide_false (fp_name fs = cstr "os-image")) by (by vm_compute).
    rewrite (bool_decide_true (fp_name fs = cstr "file-system")) by done.
    rewrite <- (app_nil_r (drop (S i) (partitions info))).
    rewrite find_first_last_skip by (by apply Forall_drop). done. }
  rewrite Hffl in Hg.
  rewrite bool_decide_true in Hg by lia. cbn [negb] in Hg.
  assert (F3 : find_image_partition (cstr "os-image") parts = Some p3).
  { rewrite Eparts. apply (find_image_partition_at [p0; p1; p2]); [|done].
    repeat apply Forall_cons_2; [rewrite N0|rewrite N1|rewrite N2|done]; by vm_compute. }
  assert (F4 : find_image_partition (cstr "file-system") parts = Some p4).
  { rewrite Eparts. apply (find_image_partition_at [p0; p1; p2; p3]); [|done].
    repeat apply Forall_cons_2; [rewrite N0|rewrite N1|rewrite N2| |done]; by vm_compute. }
  rewrite F4 in Hg. cbn [fp_base os fs] in Hg.
  replace (fp_base firmware + ksize - fp_base firmware) with ksize in Hg by lia.
  rewrite (wrap32_small ksize) in Hg by lia.
  rewrite memset_malloc, bind_Done in Hg.
  assert (Hrange : take (S (S i) - i) (drop i ps) = [os; fs]).
  { rewrite Eps. rewrite drop_app_length' by (rewrite length_take; lia).
    replace (S (S i) - i)%nat with 2%nat by lia. done. }
  rewrite Hrange in Hg. cbn [sysupgrade_copy fp_name os fs fp_base fp_size] in Hg.
  rewrite F3, F4 in Hg.
  assert (Hsz3 : ip_size p3 = ksize) by done.
  rewrite Hsz3, Z.ltb_irrefl in Hg.
  replace (fp_base firmware - fp_base firmware) with 0 in Hg by lia.
  replace (fp_base firmware + ksize - fp_base firmware) with ksize in Hg by lia.
  unfold memcpy_to in Hg.
  change (0 <? 0) with false in Hg. cbv iota in Hg. change (Z.to_nat 0) with 0%nat in Hg.
  rewrite Z2Nat.inj_add in Hg by (unfold ip_size; lia).
  replace (Z.to_nat ksize) with (length kernel_image) in Hg by (unfold ksize; lia).
  rewrite replicate_add in Hg.
  rewrite (memcpy_frame0 (replicate (length kernel_image) 255) _ kernel_image) in Hg
    by (by rewrite length_replicate).
  rewrite bind_Done in Hg.
  destruct (_ <? ip_size p4); [done|].
  rewrite (proj2 (Z.ltb_ge ksize 0)) in Hg by lia.
  rewrite <- (app_nil_r (replicate (Z.to_nat (ip_size p4)) 255)) in Hg.
  rewrite (memcpy_frame kernel_image (replicate (Z.to_nat (ip_size p4)) 255) []
             (ip_data p4)) in Hg
    by (unfold ip_size; rewrite ?length_replicate; lia).
  rewrite !bind_Done in Hg. injection Hg as <-. by rewrite app_nil_r.
Qed.

Lemma sysupgrade_build_image_witness :
  build_image (λ _, 0) example_gmtime example_digest [1; 2; 3] [4; 5; 6; 7] 0x1234
    false true 0 99 example_profile = Done [1; 2; 3; 4; 5; 6; 7].
Proof.
  destruct (build_image (λ _, 0) example_gmtime example_digest [1; 2; 3] [4; 5; 6; 7]
              0x1234 false true 0 99 example_profile) as [image|f] eqn:E;
    [|vm_compute in E; discriminate E].
  destruct (sysupgrade_build_image (λ _, 0) example_gmtime example_digest [1; 2; 3]
              [4; 5; 6; 7] 0x1234 false 0 99 example_profile image 2
              (flash_entry "firmware" 0x40000 0x770000) E) as (pad & -> & Hp).
  - reflexivity.
  - reflexivity.
  - reflexivity.
  - reflexivity.
  - reflexivity.
  - intros j p Hj Hp. destruct j as [|[|[|[|[|j]]]]]; [lia|lia|lia| | |done];
      injection Hp as <-; by vm_compute.
  - repeat apply Forall_cons_2; [..|done]; split; by vm_compute.
  - simpl. lia.
  - simpl. lia.
  - by rewrite (Hp eq_refl).
Defined.

(** ** The variant of an image (C4) *)

(** C4. For an input that holds the 64 bytes at offset 0x14,
    [safeloader_parse_image] decides the variant from these bytes: QNEW
    when they start with "?NEW", else CLOUD when they start with
    "fw-type:Cloud", else VENDOR when the big-endian u32 at offset 0x14
    is at most 0x1000, else DEFAULT; the payload offset is
    0x14 + 0x1000 = 0x1014 for DEFAULT, VENDOR and CLOUD and
    0x14 + 0x3C + 0x1000 = 0x1050 for QNEW; and the parser goes on to
    read the image partition table at that payload offset and returns
    this variant, this payload offset and the entries of the table. *)
Theorem safeloader_parse_image_variant (input_file : list Z) :
  (0x14 + 64 ≤ length input_file)%nat →
  let header := take 64 (drop 0x14 input_file) in
  let byte i := default 0 (input_file !! (0x14 + i)%nat) in
  let be := ((byte 0%nat * 256 + byte 1%nat) * 256 + byte 2%nat) * 256 + byte 3%nat in
  ∃ variant offset,
    (variant = SAFELOADER_TYPE_QNEW ↔ take 4 header = cstr "?NEW")
    ∧ (variant = SAFELOADER_TYPE_CLOUD ↔
         take 4 header ≠ cstr "?NEW" ∧ take 13 header = cstr "fw-type:Cloud")
    ∧ (variant = SAFELOADER_TYPE_VENDOR ↔
         take 4 header ≠ cstr "?NEW" ∧ take 13 header ≠ cstr "fw-type:Cloud"
         ∧ be ≤ 0x1000)
    ∧ (variant = SAFELOADER_TYPE_DEFAULT ↔
         take 4 header ≠ cstr "?NEW" ∧ take 13 header ≠ cstr "fw-type:Cloud"
         ∧ 0x1000 < be)
    ∧ offset = match variant with
               | SAFELOADER_TYPE_QNEW => 0x14 + 0x3C + 0x1000
               | _ => 0x14 + 0x1000
               end
    ∧ (variant = SAFELOADER_TYPE_QNEW → offset = 0x1050)
    ∧ (variant ≠ SAFELOADER_TYPE_QNEW → offset = 0x1014)
    ∧ safeloader_parse_image input_file
      = match read_partition_table input_file offset [] MAX_PARTITIONS
                PARTITION_TABLE_FWUP with
        | Done (_, entries) =>
            Done {| type := variant; payload_offset := offset; image_entries := entries |}
        | Fail f => Fail f
        end.
Proof.
  intros Hlen header byte be.
  assert (Hread : fread_at input_file SAFELOADER_PREAMBLE_SIZE 64 = Some header).
  { apply fread_at_in; [done|]. unfold SAFELOADER_PREAMBLE_SIZE. lia. }
  assert (Hh : length header = 64%nat).
  { unfold header. rewrite length_take, length_drop. lia. }
  assert (Hb : ∀ i, (i < 64)%nat → header !! i = Some (byte i)).
  { intros i Hi. unfold header, byte. rewrite lookup_take_lt by done.
    rewrite lookup_drop.
    destruct (input_file !! (0x14 + i)%nat) as [b|] eqn:E; [done|].
    apply lookup_ge_None in E. lia. }
  destruct header as [|b0 [|b1 [|b2 [|b3 rest]]]] eqn:Eh;
    try (cbn [length] in Hh; lia).
  pose proof (Hb 0%nat ltac:(lia)) as H0. pose proof (Hb 1%nat ltac:(lia)) as H1.
  pose proof (Hb 2%nat ltac:(lia)) as H2. pose proof (Hb 3%nat ltac:(lia)) as H3.
  cbn in H0, H1, H2, H3.
  injection H0 as ->. injection H1 as ->. injection H2 as ->. injection H3 as ->.
  fold be.
  destruct (detect_type_cases (byte 0%nat) (byte 1%nat) (byte 2%nat) (byte 3%nat) rest)
    as (Cq & Cc & Cv & Cd).
  cbv zeta in Cq, Cc, Cv, Cd. fold be in Cv, Cd.
  exists (detect_type (byte 0%nat :: byte 1%nat :: byte 2%nat :: byte 3%nat :: rest)),
         (payload_offset_of
            (detect_type (byte 0%nat :: byte 1%nat :: byte 2%nat :: byte 3%nat :: rest))).
  split; [done|]. split; [done|]. split; [done|]. split; [done|].
  split; [by destruct (detect_type _)|].
  split; [by intros ->|].
  split; [by destruct (detect_type _)|].
  unfold safeloader_parse_image. rewrite Hread. cbv zeta.
  destruct (read_partition_table _ _ _ _ _) as [[r es]|f]; done.
Qed.

Lemma safeloader_parse_image_variant_witness :
  safeloader_parse_image qnew_image
  = Done {| type := SAFELOADER_TYPE_QNEW; payload_offset := 0x1050;
            image_entries := [flash_entry "os-image" 0x800 3] |}.
Proof.
  destruct (safeloader_parse_image_variant qnew_image) as (t & off & Hq & _ & _ & _ & _ & Ho & _ & ->).
  - vm_compute. lia.
  - assert (Ht : t = SAFELOADER_TYPE_QNEW) by (apply Hq; reflexivity).
    rewrite (Ho Ht), Ht. vm_compute. reflexivity.
Defined.

(** ** Images of 2^32 bytes and more (C1) *)

Lemma memcpy_done (off : nat) (d buf : list Z) :
  (off + length d ≤ length buf)%nat →
  ∃ buf', memcpy off d buf = Done buf' ∧ length buf' = length buf.
Proof.
  intros H. unfold memcpy. rewrite decide_True by done.
  eexists. split; [done|].
  rewrite !length_app, length_take, length_drop. lia.
Qed.

Lemma parts_size_nonneg parts : 0 ≤ parts_size parts.
Proof. rewrite parts_size_data. lia. Qed.

(** The loop of [put_partitions] comes to an end without an error when
    every partition fits its flash partition, the text of the table fits
    the region, and the contents fit the buffer. *)
Lemma put_partitions_loop_done flash parts : ∀ image_pt base buffer,
  Forall (λ p, ∃ fp, find_flash_partition (ip_name p) flash = Some fp
                     ∧ ip_size p ≤ fp_size fp) parts →
  0 ≤ image_pt →
  image_pt + Z.of_nat (length (fwup_table base parts) + length (table_end parts)) ≤ 0x800 →
  0 ≤ base →
  base + parts_size parts ≤ Z.of_nat (length buffer) →
  (0x800 ≤ length buffer)%nat →
  ∃ buffer', put_partitions_loop flash parts image_pt base buffer = Done buffer'
             ∧ length buffer' = length buffer.
Proof.
  induction parts as [|p parts IH]; intros image_pt base buffer Hfit Hpt Htab Hbase Hbuf Hreg.
  - by eexists.
  - apply Forall_cons in Hfit as [(fp & Efp & Hsz) Hfit].
    change (fwup_table base (p :: parts))
      with (fwup_ptn_line (ip_name p) base (ip_size p)
            ++ fwup_table (base + ip_size p) parts) in Htab.
    change (table_end (p :: parts)) with [0] in Htab.
    change (parts_size (p :: parts)) with (ip_size p + parts_size parts) in Hbuf.
    pose proof (parts_size_nonneg parts) as Hps.
    remember (fwup_ptn_line (ip_name p) base (ip_size p)) as line eqn:Eline.
    rewrite length_app in Htab. cbn [length] in Htab.
    cbn [put_partitions_loop]. rewrite Efp.
    rewrite (proj2 (Z.ltb_ge _ _)) by done. rewrite bind_Done.
    destruct (memcpy_done (Z.to_nat base) (ip_data p) buffer) as (b1 & -> & L1).
    { unfold ip_size in Hbuf. lia. }
    rewrite bind_Done. unfold snprintf. rewrite <- Eline.
    unfold SAFELOADER_PAYLOAD_TABLE_SIZE.
    rewrite (proj2 (Z.eqb_neq _ _)) by lia.
    rewrite take_ge by lia.
    destruct (memcpy_done (Z.to_nat image_pt) (line ++ [0]) b1) as (b2 & -> & L2).
    { rewrite length_app. cbn [length]. lia. }
    rewrite !bind_Done. rewrite wrap64_small by lia.
    rewrite (proj2 (Z.ltb_ge _ _)) by lia.
    destruct (IH (image_pt + Z.of_nat (length line)) (base + ip_size p) b2)
      as (b3 & -> & L3); try done; try lia.
    + destruct parts; cbn [table_end length] in *; lia.
    + unfold ip_size. lia.
    + exists b3. split; [done|]. lia.
Qed.

Lemma generate_factory_image_done (uninit : nat → Z) (MD5 : list Z → list Z)
    info parts :
  (∀ m, length (MD5 m) = 16%nat) →
  Forall (λ p, ∃ fp, find_flash_partition (ip_name p) (partitions info) = Some fp
                     ∧ ip_size p ≤ fp_size fp) parts →
  (length (fwup_table 0x800 parts) + length (table_end parts) ≤ 0x800)%nat →
  match vendor info with Some v => (length v ≤ 0xFFC)%nat | None => True end →
  ∃ image, generate_factory_image uninit MD5 info parts = Done image.
Proof.
  intros HMD5 Hfit Htab Hv. unfold generate_factory_image.
  pose proof (parts_size_nonneg parts) as Hps.
  set (len := SAFELOADER_PAYLOAD_OFFSET + SAFELOADER_PAYLOAD_TABLE_SIZE + parts_size parts).
  assert (Hlen : 0x1814 ≤ len).
  { unfold len, SAFELOADER_PAYLOAD_OFFSET, SAFELOADER_PAYLOAD_TABLE_SIZE,
      SAFELOADER_PREAMBLE_SIZE, SAFELOADER_HEADER_SIZE. lia. }
  rewrite memset_malloc, bind_Done.
  unfold put32.
  destruct (memcpy_done 0 (be32 (wrap32 len)) (replicate (Z.to_nat len) 0xff))
    as (i2 & -> & L2).
  { rewrite length_be32, length_replicate. lia. }
  rewrite length_replicate in L2. rewrite bind_Done.
  assert (H3 : ∃ i3, match vendor info with
                     | Some v =>
                         image ← memcpy (Z.to_nat SAFELOADER_PREAMBLE_SIZE)
                                   (be32 (wrap32 (Z.of_nat (length v)))) i2;
                         memcpy (Z.to_nat (SAFELOADER_PREAMBLE_SIZE + 4)) v image
                     | None => Done i2
                     end = Done i3 ∧ length i3 = Z.to_nat len).
  { destruct (vendor info) as [v|]; [|by eexists].
    destruct (memcpy_done (Z.to_nat SAFELOADER_PREAMBLE_SIZE)
                (be32 (wrap32 (Z.of_nat (length v)))) i2) as (a & -> & La).
    { rewrite length_be32. unfold SAFELOADER_PREAMBLE_SIZE. lia. }
    rewrite bind_Done.
    destruct (memcpy_done (Z.to_nat (SAFELOADER_PREAMBLE_SIZE + 4)) v a) as (b & -> & Lb).
    { unfold SAFELOADER_PREAMBLE_SIZE. lia. }
    exists b. split; [done|]. lia. }
  destruct H3 as (i3 & -> & L3). rewrite bind_Done.
  unfold at_offset.
  assert (Hoff : Z.to_nat SAFELOADER_PAYLOAD_OFFSET = 0x1014%nat) by done.
  rewrite Hoff. rewrite decide_True by lia.
  unfold put_partitions.
  destruct (put_partitions_loop_done (partitions info) parts 0
              SAFELOADER_PAYLOAD_TABLE_SIZE (drop 0x1014 i3)) as (t & -> & Lt);
    try done; unfold SAFELOADER_PAYLOAD_TABLE_SIZE; try lia.
  { rewrite length_drop.
    unfold len, SAFELOADER_PAYLOAD_OFFSET, SAFELOADER_PAYLOAD_TABLE_SIZE,
      SAFELOADER_PREAMBLE_SIZE, SAFELOADER_HEADER_SIZE in *. lia. }
  { rewrite length_drop. lia. }
  rewrite !bind_Done. rewrite length_drop in Lt.
  destruct (memcpy_done 4 (put_md5 MD5 (drop (Z.to_nat SAFELOADER_PREAMBLE_SIZE)
                                          (take 0x1014 i3 ++ t))
                             (len - SAFELOADER_PREAMBLE_SIZE))
              (take 0x1014 i3 ++ t)) as (image & -> & _).
  { unfold put_md5, MD5_Final. rewrite HMD5, length_app, length_take. lia. }
  by eexists.
Qed.




(** ** The override value -1 (C9) *)

(** C9. The override is not honoured for SOURCE_DATE_EPOCH=-1, nor for
    18446744073709551615, which [strtoull] converts to the same
    [time_t]: [set_source_date_epoch] accepts the text and stores -1, the
    value that [make_soft_version] takes for no override.  Two builds of
    the same profile, kernel, rootfs, revision and options, one at
    1715904000 (2024-05-17) and one at 1715990400 (2024-05-18), then
    both succeed and differ: the date fields of the soft-version record,
    at offset 0x2020 of the image, are the BCD bytes of the wall-clock
    date, 20 24 05 17 and 20 24 05 18, not those of the UTC date of the
    override value, 1969-12-31. *)
Theorem source_date_epoch_minus_one :
  set_source_date_epoch (Some (cstr "-1")) = Done (-1)
  ∧ set_source_date_epoch (Some (cstr "18446744073709551615")) = Done (-1)
  ∧ utc_gmtime (-1) = Some {| tm_year := 69; tm_mon := 11; tm_mday := 31 |}
  ∧ ∃ image1 image2,
      build_image (λ _, 0) utc_gmtime example_digest [1; 2; 3] [4; 5; 6; 7] 0x1234
        false false (-1) 1715904000 example_profile = Done image1
      ∧ build_image (λ _, 0) utc_gmtime example_digest [1; 2; 3] [4; 5; 6; 7] 0x1234
          false false (-1) 1715990400 example_profile = Done image2
      ∧ take 4 (drop 0x2020 image1) = [0x20; 0x24; 0x05; 0x17]
      ∧ take 4 (drop 0x2020 image2) = [0x20; 0x24; 0x05; 0x18]
      ∧ image1 ≠ image2.
Proof.
  split; [vm_compute; reflexivity|]. split; [vm_compute; reflexivity|].
  split; [vm_compute; reflexivity|].
  destruct (build_image (λ _, 0) utc_gmtime example_digest [1; 2; 3] [4; 5; 6; 7] 0x1234
              false false (-1) 1715904000 example_profile) as [image1|f] eqn:E1;
    [|vm_compute in E1; discriminate E1].
  destruct (build_image (λ _, 0) utc_gmtime example_digest [1; 2; 3] [4; 5; 6; 7] 0x1234
              false false (-1) 1715990400 example_profile) as [image2|f] eqn:E2;
    [|vm_compute in E2; discriminate E2].
  assert (D1 : match build_image (λ _, 0) utc_gmtime example_digest [1; 2; 3]
                       [4; 5; 6; 7] 0x1234 false false (-1) 1715904000
                       example_profile with
               | Done l => bool_decide (take 4 (drop 0x2020 l) = [0x20; 0x24; 0x05; 0x17])
               | Fail _ => false
               end = true) by (vm_compute; reflexivity).
  assert (D2 : match build_image (λ _, 0) utc_gmtime example_digest [1; 2; 3]
                       [4; 5; 6; 7] 0x1234 false false (-1) 1715990400
                       example_profile with
               | Done l => bool_decide (take 4 (drop 0x2020 l) = [0x20; 0x24; 0x05; 0x18])
               | Fail _ => false
               end = true) by (vm_compute; reflexivity).
  rewrite E1 in D1. rewrite E2 in D2. apply bool_decide_eq_true in D1, D2.
  exists image1, image2.
  split; [reflexivity|]. split; [reflexivity|].
  split; [exact D1|]. split; [exact D2|].
  intros ->. rewrite D1 in D2. discriminate D2.
Qed.

(** ** Reproducible builds *)

(** X25. With SOURCE_DATE_EPOCH set to a decimal number below 2^63,
    [set_source_date_epoch] stores that number as the clock override;
    a build that produces an image then produces the same image whatever
    the wall clock says and whatever freshly allocated memory holds, for
    the same profile, kernel, rootfs, revision and options; and the date
    fields of the numeric soft-version record are the BCD bytes of the
    UTC date of the override value: century, year in the century, month
    and day. *)
Theorem reproducible_build (u1 u2 : nat → Z) (gmtime : Z → option tm)
    (MD5 : list Z → list Z) (kernel rootfs : list Z) (rev : Z)
    (add_jffs2_eof sysupgrade : bool) (digits : list Z) (now1 now2 : Z)
    (info : device_info) :
  digits ≠ [] → Forall (λ d, 0 ≤ d ≤ 9) digits → decimal_value 0 digits < 2 ^ 63 →
  ∃ source_date_epoch,
    set_source_date_epoch (Some (decimal_chars digits)) = Done source_date_epoch
    ∧ source_date_epoch = decimal_value 0 digits
    ∧ (∀ image,
         build_image u1 gmtime MD5 kernel rootfs rev add_jffs2_eof sysupgrade
           source_date_epoch now1 info = Done image →
         build_image u2 gmtime MD5 kernel rootfs rev add_jffs2_eof sysupgrade
           source_date_epoch now2 info = Done image)
    ∧ (∀ names major minor patch e,
         soft_version_spec info = SOFT_VER_NUMERIC major minor patch →
         make_soft_version u1 gmtime names info rev source_date_epoch now1 = Done e →
         ∃ t, gmtime source_date_epoch = Some t
           ∧ take 4 (drop 12 (ip_data e))
             = [bcd ((1900 + tm_year t) `quot` 100); bcd (tm_year t `rem` 100);
                bcd (tm_mon t + 1); bcd (tm_mday t)]
           ∧ (0 ≤ tm_year t ≤ 8099 → 0 ≤ tm_mon t ≤ 11 → 1 ≤ tm_mday t ≤ 31 →
              let year := 1900 + tm_year t in
              let month := tm_mon t + 1 in
              take 4 (drop 12 (ip_data e))
              = [16 * (year / 1000) + (year / 100) `mod` 10;
                 16 * ((year `mod` 100) / 10) + year `mod` 10;
                 16 * (month / 10) + month `mod` 10;
                 16 * (tm_mday t / 10) + tm_mday t `mod` 10])).
Proof.
  intros Hdne Hds Hv.
  pose proof (decimal_value_bound digits 0 Hds ltac:(lia)) as Hv0.
  remember (decimal_value 0 digits) as source_date_epoch eqn:Hsde.
  exists source_date_epoch.
  split; [subst source_date_epoch; by apply set_source_date_epoch_digits|].
  split; [reflexivity|].
  assert (Hepoch : source_date_epoch ≠ -1) by lia.
  clear Hsde Hdne Hds Hv Hv0. split.
  - intros image H.
    apply build_image_inv in H as (info' & parts & Hp & _ & Hg & E0).
    assert (Hne : partitions info' ≠ []).
    { intros Hnil. pose proof Hp as Hp'. unfold build_partitions in Hp'.
      apply bind_Done_inv in Hp' as ([ps fsp] & _ & Hp').
      apply bind_Done_inv in Hp' as (p0 & _ & Hp').
      repeat (apply bind_Done_inv in Hp' as (? & _ & Hp')).
      injection Hp' as <- <-.
      destruct sysupgrade.
      - unfold generate_sysupgrade_image in Hg. rewrite Hnil in Hg. done.
      - by apply generate_factory_image_no_flash in Hg. }
    unfold build_image.
    rewrite (build_partitions_det u1 u2 _ _ _ _ _ _ _ now1 now2 _ info' parts Hepoch Hp Hne).
    rewrite bind_Done.
    assert (Hg2 : (if sysupgrade then generate_sysupgrade_image u2 info' parts
                   else generate_factory_image u2 MD5 info' parts) = Done image).
    { destruct sysupgrade.
      - by rewrite (generate_sysupgrade_image_uninit u2 u1).
      - by rewrite (generate_factory_image_uninit u2 u1). }
    rewrite Hg2, bind_Done.
    by rewrite E0.
  - intros names major minor patch e Hspec He.
    unfold make_soft_version in He. rewrite Hspec in He.
    assert (E : (source_date_epoch =? -1) = false) by (by apply Z.eqb_neq).
    rewrite E in He. cbn [negb] in He. rewrite bind_Done in He.
    destruct (gmtime source_date_epoch) as [t|]; [|done].
    exists t. split; [done|].
    assert (Hbytes : take 4 (drop 12 (ip_data e))
              = [bcd ((1900 + tm_year t) `quot` 100); bcd (tm_year t `rem` 100);
                 bcd (tm_mon t + 1); bcd (tm_mday t)]).
    { destruct (soft_ver_compat_level info =? 0).
      - pose proof (init_meta_partition_entry_inv _ _ _ 12 _ _ ltac:(lia) He) as [Hd Hl].
        rewrite (init_meta_partition_entry_data _ _ _ 12 _ ltac:(lia) Hd Hl) in He.
        injection He as <-. cbn [ip_data]. reflexivity.
      - pose proof (init_meta_partition_entry_inv _ _ _ 16 _ _ ltac:(lia) He) as [Hd Hl].
        rewrite (init_meta_partition_entry_data _ _ _ 16 _ ltac:(lia) Hd Hl) in He.
        injection He as <-. cbn [ip_data]. reflexivity. }
    split; [done|].
    intros Hy Hm Hd year month. rewrite Hbytes.
    rewrite Z.quot_div_nonneg, Z.rem_mod_nonneg by lia.
    rewrite !bcd_digits by (Z.div_mod_to_equations; lia).
    subst year month.
    assert (E1 : (1900 + tm_year t) `mod` 100 = tm_year t `mod` 100)
      by (Z.div_mod_to_equations; lia).
    assert (E2 : (1900 + tm_year t) `mod` 10 = (tm_year t `mod` 100) `mod` 10)
      by (Z.div_mod_to_equations; lia).
    assert (E3 : (1900 + tm_year t) / 100 / 10 = (1900 + tm_year t) / 1000)
      by (Z.div_mod_to_equations; lia).
    by rewrite E1, E2, E3.
Qed.

Lemma reproducible_build_witness :
  ∃ image,
    set_source_date_epoch (Some (cstr "1715904000")) = Done 1715904000
    ∧ build_image (λ _, 0) utc_gmtime example_digest [1; 2; 3] [4; 5; 6; 7] 0x1234
        false false 1715904000 99 example_profile = Done image
    ∧ build_image (λ _, 0xAA) utc_gmtime example_digest [1; 2; 3] [4; 5; 6; 7] 0x1234
        false false 1715904000 1700000000 example_profile = Done image
    ∧ take 4 (drop 0x2020 image) = [0x20; 0x24; 0x05; 0x17].
Proof.
  assert (Hdate : match build_image (λ _, 0) utc_gmtime example_digest [1; 2; 3]
                          [4; 5; 6; 7] 0x1234 false false 1715904000 99
                          example_profile with
                  | Done l => bool_decide (take 4 (drop 0x2020 l)
                                           = [0x20; 0x24; 0x05; 0x17])
                  | Fail _ => false
                  end = true) by (vm_compute; reflexivity).
  destruct (build_image (λ _, 0) utc_gmtime example_digest [1; 2; 3] [4; 5; 6; 7]
              0x1234 false false 1715904000 99 example_profile) as [image|f] eqn:E;
    [|discriminate Hdate].
  apply bool_decide_eq_true in Hdate.
  exists image.
  destruct (reproducible_build (λ _, 0) (λ _, 0xAA) utc_gmtime example_digest
              [1; 2; 3] [4; 5; 6; 7] 0x1234 false false [1; 7; 1; 5; 9; 0; 4; 0; 0; 0]
              99 1700000000 example_profile)
    as (epoch & Hset & Hval & Hsame & _).
  - discriminate.
  - repeat constructor; lia.
  - vm_compute. reflexivity.
  - assert (He : epoch = 1715904000) by (rewrite Hval; vm_compute; reflexivity).
    rewrite He in Hset, Hsame.
    split; [exact Hset|]. split; [reflexivity|]. split; [|exact Hdate].
    apply (Hsame image). exact E.
Defined.

(** X26. [generate_factory_image] produces an image whenever every
    partition has a flash partition of its name that is no smaller, the
    text of the image table with its NUL fits the 0x800 bytes of the
    table region, and the vendor string, if any, is at most 0xFFC bytes;
    the image is 0x1014 + 0x800 bytes longer than the partitions
    together. *)
Theorem generate_factory_image_total (uninit : nat → Z) (MD5 : list Z → list Z)
    (info : device_info) (parts : list image_partition_entry) :
  (∀ m, length (MD5 m) = 16%nat) →
  Forall (λ p, ∃ fp, find_flash_partition (ip_name p) (partitions info) = Some fp
                     ∧ ip_size p ≤ fp_size fp) parts →
  (length (fwup_table 0x800 parts) + length (table_end parts) ≤ 0x800)%nat →
  match vendor info with Some v => (length v ≤ 0xFFC)%nat | None => True end →
  ∃ image, generate_factory_image uninit MD5 info parts = Done image
           ∧ Z.of_nat (length image) = 0x1014 + 0x800 + parts_size parts.
Proof.
  intros HMD5 Hfit Htab Hv.
  destruct (generate_factory_image_done uninit MD5 info parts HMD5 Hfit Htab Hv)
    as (image & Hg).
  exists image. split; [exact Hg|].
  by apply (generate_factory_image_inv uninit MD5 HMD5) in Hg as (L & _).
Qed.

Lemma generate_factory_image_total_witness :
  ∃ image,
    generate_factory_image (λ _, 0) example_digest
      (with_partitions example_profile example_flash) example_parts = Done image
    ∧ Z.of_nat (length image) = 0x1014 + 0x800 + 5.
Proof.
  destruct (generate_factory_image_total (λ _, 0) example_digest
              (with_partitions example_profile example_flash) example_parts)
    as (image & Hg & L).
  - intros m. apply length_replicate.
  - repeat apply Forall_cons_2; [| |apply Forall_nil_2].
    + exists (flash_entry "os-image" 0x40000 0x100).
      split; [vm_compute; reflexivity|]. vm_compute. discriminate.
    + exists (flash_entry "file-system" 0x40100 0x200).
      split; [vm_compute; reflexivity|]. vm_compute. discriminate.
  - apply Nat.leb_le. vm_compute. reflexivity.
  - apply Nat.leb_le. vm_compute. reflexivity.
  - exists image. split; [exact Hg|]. exact L.
Defined.
